(** * tflegal: structural parser, text wrapper and paginator

    A shallow embedding of the layout core of [tflegal.py]: the line
    predicates, the title-block scanner, the greedy word wrapper, the
    header/section and exhibit parsers, the two pagination passes of
    [generate_legal_document] and the table-of-contents filter.

    Python [str] values are lists of ASCII characters.  Regular expressions
    are embedded as the deterministic matchers they denote on such strings;
    every matcher quotes its pattern.  Floating-point page coordinates are
    not part of the embedding: the canvas is a log of what is drawn, not of
    where. *)

From Stdlib Require Import String Ascii List Arith Lia Bool QArith Sorted.
Import ListNotations.

Close Scope Q_scope.
Open Scope nat_scope.
Set Implicit Arguments.

(** ** Python strings *)

Abbreviation str := (list ascii).
Coercion list_ascii_of_string : string >-> list.

Module Py.

Definition nl : ascii := "010"%char.
Definition cr : ascii := "013"%char.
Definition sp : ascii := " "%char.
Definition dot : ascii := "."%char.
Definition colon : ascii := ":"%char.

Definition code (c : ascii) : nat := nat_of_ascii c.
Definition between (lo hi : nat) (c : ascii) : bool :=
  (lo <=? code c) && (code c <=? hi).

(** [str.isspace] and the regex class [\s] on ASCII: TAB..CR, FS..US, SPACE. *)
Definition isspace (c : ascii) : bool := between 9 13 c || between 28 32 c.
(** [\d], [[0-9]]. *)
Definition isdigit (c : ascii) : bool := between 48 57 c.
(** [[A-Z]] and [[a-z]]. *)
Definition isupper (c : ascii) : bool := between 65 90 c.
Definition islower (c : ascii) : bool := between 97 122 c.
(** [\w]: letters, digits and the underscore. *)
Definition isword (c : ascii) : bool :=
  isupper c || islower c || isdigit c || (code c =? 95).

Definition lower (c : ascii) : ascii :=
  if isupper c then ascii_of_nat (code c + 32) else c.
(** Equality of two characters under [re.IGNORECASE]. *)
Definition eqb_ci (a b : ascii) : bool := Ascii.eqb (lower a) (lower b).

Fixpoint dropwhile (p : ascii -> bool) (s : str) : str :=
  match s with
  | [] => []
  | c :: s' => if p c then dropwhile p s' else s
  end.

Fixpoint takewhile (p : ascii -> bool) (s : str) : str :=
  match s with
  | [] => []
  | c :: s' => if p c then c :: takewhile p s' else []
  end.

Definition lstrip (s : str) : str := dropwhile isspace s.
Definition rstrip (s : str) : str := rev (dropwhile isspace (rev s)).
(** [s.strip()]. *)
Definition strip (s : str) : str := rstrip (lstrip s).
(** [s.rstrip(c)] for a one-character argument. *)
Definition rstrip_char (c : ascii) (s : str) : str :=
  rev (dropwhile (Ascii.eqb c) (rev s)).

Definition isempty (s : str) : bool :=
  match s with [] => true | _ => false end.

Definition str_eqb (a b : str) : bool :=
  if list_eq_dec ascii_dec a b then true else false.

(** [s.split()]: the maximal runs of non-whitespace, scanned left to right;
    [cur] is the run being read, most recent character first. *)
Fixpoint split_from (cur : str) (s : str) : list str :=
  match s with
  | [] => if isempty cur then [] else [rev cur]
  | c :: s' =>
      if isspace c
      then (if isempty cur then split_from [] s'
            else rev cur :: split_from [] s')
      else split_from (c :: cur) s'
  end.
Definition split (s : str) : list str := split_from [] s.

(** [s.split(sep)] for a one-character separator: always at least one
    field, also for the empty string. *)
Fixpoint split_char_from (sep : ascii) (cur : str) (s : str) : list str :=
  match s with
  | [] => [rev cur]
  | c :: s' =>
      if Ascii.eqb c sep
      then rev cur :: split_char_from sep [] s'
      else split_char_from sep (c :: cur) s'
  end.
Definition split_char (sep : ascii) (s : str) : list str :=
  split_char_from sep [] s.

(** [s.split(None, 1)]: the first word and, when something other than
    whitespace follows it, the rest of the string from there on. *)
Definition split_first (s : str) : list str :=
  let s1 := lstrip s in
  match s1 with
  | [] => []
  | _ :: _ =>
      let w := takewhile (fun c => negb (isspace c)) s1 in
      let r := lstrip (dropwhile (fun c => negb (isspace c)) s1) in
      if isempty r then [w] else [w; r]
  end.

(** The line boundaries of [str.splitlines] on ASCII: LF, VT, FF, CR,
    FS, GS, RS. *)
Definition islinebreak (c : ascii) : bool :=
  between 10 13 c || between 28 30 c.

(** [s.splitlines()]: CR LF is one boundary ([after_cr] says that the
    previous character was a CR), and a final boundary opens no empty
    last line. *)
Fixpoint splitlines_from (after_cr : bool) (cur : str) (s : str)
  : list str :=
  match s with
  | [] => if isempty cur then [] else [rev cur]
  | c :: s' =>
      if after_cr && Ascii.eqb c nl then splitlines_from false [] s'
      else if islinebreak c
           then rev cur :: splitlines_from (Ascii.eqb c cr) [] s'
           else splitlines_from false (c :: cur) s'
  end.
Definition splitlines (s : str) : list str := splitlines_from false [] s.

(** [sep.join(parts)]. *)
Fixpoint join (sep : str) (parts : list str) : str :=
  match parts with
  | [] => []
  | [p] => p
  | p :: ps => p ++ sep ++ join sep ps
  end.

(** [s.count(c)] for a one-character argument. *)
Definition count_char (c : ascii) (s : str) : nat :=
  length (filter (Ascii.eqb c) s).

(** [s.endswith(c)] for a one-character argument. *)
Definition endswith_char (c : ascii) (s : str) : bool :=
  match rev s with
  | c' :: _ => Ascii.eqb c' c
  | [] => false
  end.

(** [s[:-1]]. *)
Definition drop_last (s : str) : str := removelast s.

(** The number that a string of decimal digits denotes. *)
Definition value_of_digits (s : str) : nat :=
  fold_left (fun acc c => 10 * acc + (code c - 48)) s 0.

(** [sys.get_int_max_str_digits()], at its default: the longest decimal
    number, in digits, that [int] converts (Python 3.11 and later). *)
Definition int_max_str_digits : nat := 4300.

(** The white space that [int] skips around the number of an ASCII string:
    TAB..CR and SPACE; unlike [str.isspace], not FS..US. *)
Definition isspace_int (c : ascii) : bool :=
  between 9 13 c || Ascii.eqb c sp.

(** What a decimal literal is made of: digits and underscores. *)
Definition isnumeral (c : ascii) : bool := isdigit c || Ascii.eqb c "_".

Definition startswith_char (c : ascii) (s : str) : bool :=
  match s with
  | c' :: _ => Ascii.eqb c' c
  | [] => false
  end.

(** Two underscores side by side. *)
Fixpoint double_underscore (s : str) : bool :=
  match s with
  | [] => false
  | c :: s' =>
      (Ascii.eqb c "_" && startswith_char "_" s') || double_underscore s'
  end.

(** [int(s)] in base 10 on an ASCII string; [None] is the [ValueError].
    White space around the number is skipped, one sign may precede it, the
    digits may be grouped by single underscores between them, and a number
    of more than [int_max_str_digits] digits is refused. *)
Definition int (s : str) : option Z :=
  let s1 := dropwhile isspace_int s in
  let negative := startswith_char "-" s1 in
  let s2 :=
    if startswith_char "+" s1 || startswith_char "-" s1 then tl s1
    else s1 in
  let numeral := takewhile isnumeral s2 in
  let rest := dropwhile isnumeral s2 in
  let digits := filter isdigit numeral in
  if isempty digits
     || startswith_char "_" numeral
     || endswith_char "_" numeral
     || double_underscore numeral
     || (int_max_str_digits <? length digits)
     || negb (isempty (dropwhile isspace_int rest))
  then None
  else
    let n := Z.of_nat (value_of_digits digits) in
    Some (if negative then Z.opp n else n).

(** [str(n)] for a natural number. *)
Definition digit_char (d : nat) : ascii := ascii_of_nat (48 + d).
Fixpoint str_of_nat_fuel (fuel n : nat) (acc : str) : str :=
  match fuel with
  | 0 => acc
  | S f =>
      let acc' := digit_char (n mod 10) :: acc in
      if n <? 10 then acc' else str_of_nat_fuel f (n / 10) acc'
  end.
Definition str_of_nat (n : nat) : str := str_of_nat_fuel (S n) n [].

End Py.

Open Scope string_scope.
Open Scope list_scope.
Open Scope nat_scope.


(** ** Loops

    A Python [while] loop is its body run under a fuel bound.  The body maps
    the loop variables to [Continue] (next iteration) or [Break] (the loop is
    left, by its guard, a [break] or a [return]); [None] is an exception
    raised by the body.  [while_loop] gives [None] as well when the fuel runs
    out, so a result [Some r] always is a result of the Python loop. *)

Inductive ctl (S R : Type) : Type :=
| Continue (s : S)
| Break (r : R).
Arguments Continue {S R} s.
Arguments Break {S R} r.

Fixpoint while_loop {S R : Type} (fuel : nat)
  (body : S -> option (ctl S R)) (s : S) : option R :=
  match fuel with
  | 0 => None
  | S fuel' =>
      match body s with
      | None => None
      | Some (Break r) => Some r
      | Some (Continue s') => while_loop fuel' body s'
      end
  end.

(** ** Line predicates *)

(** The literal [pat] at the head of [s], compared under [re.IGNORECASE];
    the result is what follows it. *)
Fixpoint strip_prefix_ci (pat s : str) : option str :=
  match pat, s with
  | [], _ => Some s
  | _ :: _, [] => None
  | p :: pat', c :: s' =>
      if Py.eqb_ci p c then strip_prefix_ci pat' s' else None
  end.

(** [EXHIBIT\s+\d+:] at the head of [s]. *)
Definition exhibit_marker_here (s : str) : bool :=
  match strip_prefix_ci "EXHIBIT" s with
  | None => false
  | Some r =>
      let r1 := Py.dropwhile Py.isspace r in
      let r2 := Py.dropwhile Py.isdigit r1 in
      negb (Py.isempty (Py.takewhile Py.isspace r))
      && negb (Py.isempty (Py.takewhile Py.isdigit r1))
      && match r2 with
         | c :: _ => Ascii.eqb c Py.colon
         | [] => false
         end
  end.

(** [re.search(r'\bEXHIBIT\s+\d+:', s, re.IGNORECASE)]: the marker at some
    position that no word character precedes. *)
Fixpoint search_exhibit_marker (prev_is_word : bool) (s : str) : bool :=
  match s with
  | [] => false
  | c :: s' =>
      (negb prev_is_word && exhibit_marker_here s)
      || search_exhibit_marker (Py.isword c) s'
  end.

Definition is_exhibit_reference (line_str : str) : bool :=
  search_exhibit_marker false line_str.

Definition is_line_all_caps (line_str : str) : bool :=
  if negb (existsb Py.isupper line_str) then false
  else negb (existsb Py.islower line_str).

(** [re.match(r'^c+$', s)] on a stripped string [s]. *)
Definition all_of_char (c : ascii) (s : str) : bool :=
  negb (Py.isempty s) && forallb (Ascii.eqb c) s.

Definition is_line_of_equals (line_str : str) : bool :=
  let s := Py.strip line_str in
  if length s <? 5 then false else all_of_char "="%char s.

Definition is_line_of_dashes (line_str : str) : bool :=
  let s := Py.strip line_str in
  if length s <? 5 then false else all_of_char "-"%char s.

(** ** TitleBlockScanner: [detect_legal_title_blocks] *)

(** What the generator yields: the pairs [("legal_page_title_block", lines)],
    [("delimiter_line", line)] and [("normal_line", line)]. *)
Inductive scan_item : Type :=
| legal_page_title_block (inner_lines : list str)
| delimiter_line (line : str)
| normal_line (line : str).

Section Scanner.
Variable lines : list str.

(** [lines[k]], read only under the guard [k < len(lines)]. *)
Definition line_at (k : nat) : str := nth k lines [].

(** The inner loop, over [j] and [inner_lines]; it is left with
    [found_bottom] known. *)
Definition scan_block_body (st : nat * list str)
  : option (ctl (nat * list str) (nat * list str * bool)) :=
  let '(j, inner_lines) := st in
  if j <? length lines then
    if is_line_of_equals (line_at j)
    then Some (Break (j + 1, inner_lines, true))
    else Some (Continue (j + 1, inner_lines ++ [line_at j]))
  else Some (Break (j, inner_lines, false)).

(** The outer loop, over [i] and the items yielded so far. *)
Definition scan_body (fuel : nat) (st : nat * list scan_item)
  : option (ctl (nat * list scan_item) (list scan_item)) :=
  let '(i, yielded) := st in
  if i <? length lines then
    if is_line_of_equals (line_at i) then
      match while_loop fuel scan_block_body (i + 1, []) with
      | None => None
      | Some (j, inner_lines, found_bottom) =>
          if found_bottom
          then Some (Continue
                       (j, yielded ++ [legal_page_title_block inner_lines]))
          else Some (Continue
                       (i + 1, yielded ++ [delimiter_line (line_at i)]))
      end
    else if is_line_of_dashes (line_at i)
    then Some (Continue (i + 1, yielded ++ [delimiter_line (line_at i)]))
    else Some (Continue (i + 1, yielded ++ [normal_line (line_at i)]))
  else Some (Break yielded).

(** The scan resumed at line [i] with [yielded] already produced. *)
Definition scan_from (fuel : nat) (i : nat) (yielded : list scan_item)
  : option (list scan_item) :=
  while_loop fuel (scan_body fuel) (i, yielded).

End Scanner.

Definition detect_legal_title_blocks (fuel : nat) (lines : list str)
  : option (list scan_item) :=
  scan_from lines fuel 0 [].

(** ** TextWrapper: [wrap_text_to_lines] *)

Section Wrapper.
(** [pdf_canvas.stringWidth(text, font_name, font_size)]. *)
Variable stringWidth : str -> str -> nat -> Q.
Variables (font_name : str) (font_size : nat) (max_width : Q).

(** One turn of [for word in words], over [all_lines] and
    [current_line]. *)
Definition wrap_word (st : list (str * bool) * str) (word : str)
  : list (str * bool) * str :=
  let '(all_lines, current_line) := st in
  let test_line :=
    if Py.isempty current_line then word
    else current_line ++ " " ++ word in
  if Qle_bool (stringWidth test_line font_name font_size) max_width
  then (all_lines, test_line)
  else (all_lines ++ [(current_line, true)], word).

(** One turn of [for paragraph in paragraphs]. *)
Definition wrap_paragraph (all_lines : list (str * bool)) (paragraph : str)
  : list (str * bool) :=
  let words := Py.split paragraph in
  if match words with [] => true | _ => false end
  then all_lines ++ [([], false)]
  else
    let '(all_lines', current_line) :=
      fold_left wrap_word words (all_lines, []) in
    if Py.isempty current_line then all_lines'
    else all_lines' ++ [(current_line, false)].

Definition wrap_text_to_lines (full_text : str) : list (str * bool) :=
  let paragraphs := Py.split_char Py.nl full_text in
  fold_left wrap_paragraph paragraphs [].

End Wrapper.

(** ** Segments *)

Inductive alignment : Type := AlignLeft | AlignCenter.

(** The three shapes of segment dictionary built by
    [prepare_main_pdf_segments]: a text (or blank) line, a delimiter rule
    (its [is_heading] and [is_subheading] are always [False]) and a forced
    title block (the only shape carrying [page_always_new]). *)
Inductive segment : Type :=
| TextLine (text : str) (font_name : str) (font_size : nat)
    (align : alignment) (is_heading is_subheading : bool)
| Delimiter (font_name : str) (font_size : nat)
| ForcedTitleBlock (lines : list str).

(** [seg.get("page_always_new")]. *)
Definition page_always_new (seg : segment) : bool :=
  match seg with
  | ForcedTitleBlock _ => true
  | _ => false
  end.

(** [seg["is_heading"] or seg["is_subheading"]], read on a segment that is
    not a title block. *)
Definition heading_flag (seg : segment) : bool :=
  match seg with
  | TextLine _ _ _ _ h sh => h || sh
  | _ => false
  end.

(** [(text, page, line, is_subheading)]. *)
Definition heading_position : Type := (str * nat * nat * bool)%type.

Definition heading_page (h : heading_position) : nat :=
  let '(_, pg_num, _, _) := h in pg_num.
Definition heading_line (h : heading_position) : nat :=
  let '(_, _, ln_num, _) := h in ln_num.
Definition heading_text (h : heading_position) : str :=
  let '(text, _, _, _) := h in text.

(** ** The canvas

    What the paginator draws, in drawing order.  [OpFrame] stands for the
    border, the vertical firm name, the case name and the rule under it;
    [OpLine n seg] for the gutter number [n] drawn at both margins followed
    by the rule or the text of [seg]; [OpTitleLines] for the centred lines of
    a title block; [OpFooter p t] for "Page p of t"; [OpShowPage] for
    [showPage()]. *)
Inductive draw_op : Type :=
| OpFrame
| OpLine (line_number : nat) (seg : segment)
| OpTitleLines (block_lines : list str)
| OpFooter (page_number total_pages : nat)
| OpShowPage.

Definition draw_legal_page_title_block (canvas : list draw_op)
  (block_lines : list str) (page_number total_pages : nat) : list draw_op :=
  canvas ++ [OpFrame; OpTitleLines block_lines;
             OpFooter page_number total_pages].

(** ** Paginator: [draw_page_of_segments] *)

Record page_state : Type := mkPageState {
  end_index : nat;
  current_line_count : nat;
  canvas : list draw_op;
  heading_positions : list heading_position
}.

(** How the loop of [draw_page_of_segments] is left: through its guard or
    its [break], or through the [return] of the title-block branch. *)
Inductive page_exit : Type :=
| LoopLeft (st : page_state)
| Returned (st : page_state).

Section DrawPage.
Variable segments : list segment.
Variable max_lines_per_page : nat.
Variables page_number total_pages : nat.

Definition draw_line (st : page_state) (seg : segment) : page_state :=
  let line_number := end_index st + 1 in
  mkPageState
    (end_index st + 1)
    (current_line_count st + 1)
    (canvas st ++ [OpLine line_number seg])
    (match seg with
     | TextLine text _ _ _ is_heading is_subheading =>
         if is_heading || is_subheading
         then heading_positions st
                ++ [(text, page_number, line_number, is_subheading)]
         else heading_positions st
     | _ => heading_positions st
     end).

Definition draw_page_body (st : page_state)
  : option (ctl page_state page_exit) :=
  if (end_index st <? length segments)
     && (current_line_count st <? max_lines_per_page)
  then
    match nth_error segments (end_index st) with
    | None => None
    | Some seg =>
        match seg with
        | ForcedTitleBlock block_lines =>
            if 0 <? current_line_count st
            then Some (Break (LoopLeft st))
            else Some (Break (Returned
                   (mkPageState
                      (end_index st + 1)
                      (current_line_count st)
                      (draw_legal_page_title_block (canvas st) block_lines
                         page_number total_pages)
                      (heading_positions st))))
        | _ => Some (Continue (draw_line st seg))
        end
    end
  else Some (Break (LoopLeft st)).

(** The call returns [end_index]; the canvas and the caller's
    [heading_positions] list are updated in place. *)
Definition draw_page_of_segments (fuel : nat) (start_index : nat)
  (cv : list draw_op) (hp : list heading_position)
  : option (nat * list draw_op * list heading_position) :=
  match while_loop fuel draw_page_body
          (mkPageState start_index 0 (cv ++ [OpFrame]) hp) with
  | None => None
  | Some (LoopLeft st) =>
      Some (end_index st,
            canvas st ++ [OpFooter page_number total_pages],
            heading_positions st)
  | Some (Returned st) =>
      Some (end_index st, canvas st, heading_positions st)
  end.

End DrawPage.

(** ** Paginator: the two passes of [generate_legal_document] *)

Section Passes.
Variable segments : list segment.
Variable max_lines_per_page : nat.

(** The inner loop of the estimate, over [lines_used] and [local_i]. *)
Definition estimate_page_body (st : nat * nat)
  : option (ctl (nat * nat) (nat * nat)) :=
  let '(lines_used, local_i) := st in
  if (local_i <? length segments) && (lines_used <? max_lines_per_page)
  then
    match nth_error segments local_i with
    | None => None
    | Some s =>
        if page_always_new s then Some (Break st)
        else Some (Continue (lines_used + 1, local_i + 1))
    end
  else Some (Break st).

(** The outer loop of the estimate, over [current_index] and
    [text_pages]. *)
Definition estimate_body (fuel : nat) (st : nat * nat)
  : option (ctl (nat * nat) nat) :=
  let '(current_index, text_pages) := st in
  if current_index <? length segments then
    match nth_error segments current_index with
    | None => None
    | Some seg =>
        if page_always_new seg
        then Some (Continue (current_index + 1, text_pages + 1))
        else
          match while_loop fuel estimate_page_body (0, current_index) with
          | None => None
          | Some (_, local_i) => Some (Continue (local_i, text_pages + 1))
          end
    end
  else Some (Break text_pages).

Definition estimate_text_pages (fuel : nat) : option nat :=
  while_loop fuel (estimate_body fuel) (0, 0).

Record place_state : Type := mkPlaceState {
  page_number : nat;
  current_index : nat;
  pdf_canvas : list draw_op;
  headings : list heading_position
}.

(** The placement loop, over [page_number], [current_index], the canvas
    and the caller's [heading_positions]. *)
Definition place_body (fuel : nat) (total_pages_est : nat)
  (st : place_state) : option (ctl place_state place_state) :=
  if current_index st <? length segments then
    match draw_page_of_segments segments max_lines_per_page
            (page_number st) total_pages_est fuel
            (current_index st) (pdf_canvas st) (headings st) with
    | None => None
    | Some (next_index, cv, hp) =>
        Some (Continue
                (mkPlaceState (page_number st + 1) next_index
                   (cv ++ [OpShowPage]) hp))
    end
  else Some (Break st).

Definition place_segments (fuel : nat) (total_pages_est : nat)
  (hp : list heading_position) : option place_state :=
  while_loop fuel (place_body fuel total_pages_est)
    (mkPlaceState 1 0 [] hp).

(** The text part of [generate_legal_document]: the estimate, then the
    placement with the estimate in every footer.  [n_exhibits] is
    [len(exhibits)]. *)
Definition generate_legal_document (fuel : nat) (n_exhibits : nat)
  (hp : list heading_position) : option (nat * place_state) :=
  match estimate_text_pages fuel with
  | None => None
  | Some text_pages =>
      let total_pages_est := text_pages + n_exhibits * 2 in
      match place_segments fuel total_pages_est hp with
      | None => None
      | Some st => Some (text_pages, st)
      end
  end.

End Passes.

(** [int(usable_height // line_spacing)] on a letter page: 648 points of
    usable height at 18 points a line. *)
Definition letter_max_lines_per_page : nat := 648 / 18.

(** ** Ordered dictionaries

    An [OrderedDict] (and a [dict]) with string keys: an association list in
    insertion order without repeated keys.  Assigning to a key that is
    present replaces its value where it stands. *)

Abbreviation odict V := (list (str * V)).

Fixpoint od_set {V : Type} (k : str) (v : V) (od : odict V) : odict V :=
  match od with
  | [] => [(k, v)]
  | (k', v') :: od' =>
      if Py.str_eqb k k' then (k, v) :: od'
      else (k', v') :: od_set k v od'
  end.

Fixpoint od_get {V : Type} (k : str) (od : odict V) : option V :=
  match od with
  | [] => None
  | (k', v') :: od' => if Py.str_eqb k k' then Some v' else od_get k od'
  end.

Definition od_keys {V : Type} (od : odict V) : list str := map fst od.

(** ** StructuralParser: [parse_header_and_sections] *)

(** A final group [.*] followed by [$], on what is left of a line:
    everything up to the end, where the end may be followed by one final
    newline; no match when a newline stands anywhere else. *)
Definition rest_of_line (s : str) : option str :=
  let t := if Py.endswith_char Py.nl s then Py.drop_last s else s in
  if existsb (Ascii.eqb Py.nl) t then None else Some t.

(** [[IVXLCDM]] under [re.IGNORECASE]. *)
Definition isroman (c : ascii) : bool :=
  existsb (Py.eqb_ci c) ("IVXLCDM" : str).

Inductive number_scan : Type := AtToken | InRoman | InDigits.

(** The extent of [(?:[IVXLCDM]+\.|[0-9]+\.)+] at the head of a string:
    [done] characters are covered by complete tokens, [pos] characters
    have been read. *)
Fixpoint heading_number_length (st : number_scan) (done pos : nat) (s : str)
  : nat :=
  match s with
  | [] => done
  | c :: s' =>
      match st with
      | AtToken =>
          if isroman c then heading_number_length InRoman done (pos + 1) s'
          else if Py.isdigit c
               then heading_number_length InDigits done (pos + 1) s'
               else done
      | InRoman =>
          if isroman c then heading_number_length InRoman done (pos + 1) s'
          else if Ascii.eqb c Py.dot
               then heading_number_length AtToken (pos + 1) (pos + 1) s'
               else done
      | InDigits =>
          if Py.isdigit c then heading_number_length InDigits done (pos + 1) s'
          else if Ascii.eqb c Py.dot
               then heading_number_length AtToken (pos + 1) (pos + 1) s'
               else done
      end
  end.

(** [heading_pattern.match(line)] for
    [^((?:[IVXLCDM]+\.|[0-9]+\.)+)\s+] and a final group [.*] with [$],
    under [re.IGNORECASE]: the groups 1 and 2. *)
Definition heading_pattern_match (line : str) : option (str * str) :=
  let k := heading_number_length AtToken 0 0 line in
  if k =? 0 then None
  else
    let after := skipn k line in
    if Py.isempty (Py.takewhile Py.isspace after) then None
    else
      match rest_of_line (Py.dropwhile Py.isspace after) with
      | None => None
      | Some title => Some (firstn k line, title)
      end.

(** [re.match(r'^[0-9]+\.\s*$', s)]. *)
Definition bare_number_match (s : str) : bool :=
  negb (Py.isempty (Py.takewhile Py.isdigit s))
  && match Py.dropwhile Py.isdigit s with
     | c :: r => Ascii.eqb c Py.dot && forallb Py.isspace r
     | [] => false
     end.

(** [lines[idx].rstrip('\n').rstrip('\r')]. *)
Definition clean_line (l : str) : str :=
  Py.rstrip_char Py.cr (Py.rstrip_char Py.nl l).

(** The first loop: the header lines, and the lines from the first heading
    on. *)
Fixpoint header_loop (lines : list str) (header_lines : list str)
  : list str * list str :=
  match lines with
  | [] => (header_lines, [])
  | l :: lines' =>
      let line := clean_line l in
      if match heading_pattern_match line with
         | Some _ => true
         | None => false
         end
      then (header_lines, lines)
      else if is_line_all_caps (Py.strip line) then (header_lines, lines)
      else if bare_number_match (Py.strip line) then (header_lines, lines)
      else header_loop lines' (header_lines ++ [line])
  end.

Record section_state : Type := mkSectionState {
  sections_od : odict str;
  current_heading_key : option str;
  current_body_lines : list str
}.

(** [if current_heading_key is not None: sections_od[...] = "\n".join(...)]. *)
Definition commit_section (st : section_state) : odict str :=
  match current_heading_key st with
  | Some key => od_set key (Py.join [Py.nl] (current_body_lines st))
                  (sections_od st)
  | None => sections_od st
  end.

(** One turn of the second loop. *)
Definition section_step (st : section_state) (l : str) : section_state :=
  let line := clean_line l in
  match heading_pattern_match line with
  | Some (g1, g2) =>
      let heading_number := Py.strip g1 in
      let heading_title := Py.strip g2 in
      let heading_number :=
        if Py.endswith_char Py.dot heading_number
        then Py.drop_last heading_number else heading_number in
      mkSectionState (commit_section st)
        (Some (heading_number ++ " " ++ heading_title)) []
  | None =>
      if is_line_all_caps (Py.strip line)
      then mkSectionState (commit_section st) (Some (Py.strip line)) []
      else if bare_number_match (Py.strip line)
      then mkSectionState (commit_section st) (Some (Py.strip line)) []
      else mkSectionState (sections_od st) (current_heading_key st)
             (current_body_lines st ++ [line])
  end.

Definition parse_header_and_sections (raw_text : str)
  : odict str * odict str :=
  let lines := Py.splitlines raw_text in
  let '(header_lines, rest) := header_loop lines [] in
  let header_od := od_set ("content" : str) (Py.join [Py.nl] header_lines) [] in
  let st := fold_left section_step rest (mkSectionState [] None []) in
  (header_od, commit_section st).

(** ** StructuralParser: [classify_headings] *)

Inductive heading_style : Type := section_style | subsection_style.

(** One turn of the loop; [None] is the [IndexError] of [parts[0]] on a key
    without a word. *)
Definition classify_step (acc : option (odict heading_style)) (full_key : str)
  : option (odict heading_style) :=
  match acc with
  | None => None
  | Some heading_styles =>
      match Py.split_first full_key with
      | [] => None
      | heading_number :: _ =>
          let dot_count := Py.count_char Py.dot heading_number in
          if 1 <? dot_count
          then Some (od_set full_key subsection_style heading_styles)
          else Some (od_set full_key section_style heading_styles)
      end
  end.

Definition classify_headings (sections : odict str)
  : option (odict heading_style) :=
  fold_left classify_step (od_keys sections) (Some []).

(** ** StructuralParser: [parse_exhibits_from_text] *)

(** [pattern.match(line)] for [^\s*EXHIBIT\s+(\d+)\s*:\s*] and a final group
    [.*] with [$], under [re.IGNORECASE]: the groups 1 and 2. *)
Definition exhibit_pattern_match (line : str) : option (str * str) :=
  match strip_prefix_ci "EXHIBIT" (Py.dropwhile Py.isspace line) with
  | None => None
  | Some r =>
      if Py.isempty (Py.takewhile Py.isspace r) then None
      else
        let r1 := Py.dropwhile Py.isspace r in
        let number := Py.takewhile Py.isdigit r1 in
        if Py.isempty number then None
        else
          match Py.dropwhile Py.isspace (Py.dropwhile Py.isdigit r1) with
          | c :: r2 =>
              if Ascii.eqb c Py.colon then
                match rest_of_line (Py.dropwhile Py.isspace r2) with
                | None => None
                | Some start_text => Some (number, start_text)
                end
              else None
          | [] => None
          end
  end.

(** [k in seen_exhibits]. *)
Definition seen (k : str) (seen_exhibits : list str) : bool :=
  existsb (Py.str_eqb k) seen_exhibits.

Record exhibit_state : Type := mkExhibitState {
  exhibits : odict str;
  current_exhibit_number : option str;
  current_content : list str;
  seen_exhibits : list str
}.

(** [if current_exhibit_number is not None and current_exhibit_number not in
    seen_exhibits: ...]: the open exhibit is stored and marked as seen. *)
Definition close_exhibit (st : exhibit_state) : odict str * list str :=
  match current_exhibit_number st with
  | Some k =>
      if negb (seen k (seen_exhibits st))
      then (od_set k (Py.join [Py.nl] (current_content st)) (exhibits st),
            k :: seen_exhibits st)
      else (exhibits st, seen_exhibits st)
  | None => (exhibits st, seen_exhibits st)
  end.

(** One turn of [for line in lines]. *)
Definition exhibit_step (st : exhibit_state) (line : str) : exhibit_state :=
  match exhibit_pattern_match line with
  | Some (number, start_text) =>
      let '(exhibits', seen') := close_exhibit st in
      if seen number seen'
      then mkExhibitState exhibits' None [] seen'
      else mkExhibitState exhibits' (Some number)
             (if Py.isempty start_text then [] else [start_text]) seen'
  | None =>
      match current_exhibit_number st with
      | Some _ =>
          mkExhibitState (exhibits st) (current_exhibit_number st)
            (current_content st ++ [line]) (seen_exhibits st)
      | None => st
      end
  end.

Definition parse_exhibits_from_text (raw_text : str) : odict str :=
  let lines := Py.splitlines raw_text in
  let st := fold_left exhibit_step lines (mkExhibitState [] None [] []) in
  fst (close_exhibit st).

(** ** The renumbering of exhibits in [main] *)

(** The keys of [sorted(xs, key=key)]: the key function is called on
    every element, in order, before anything is compared; [None] is the
    exception of the first call that raises. *)
Fixpoint keyed {A : Type} (key : A -> option Z) (xs : list A)
  : option (list (Z * A)) :=
  match xs with
  | [] => Some []
  | x :: xs' =>
      match key x with
      | None => None
      | Some z =>
          match keyed key xs' with
          | None => None
          | Some r => Some ((z, x) :: r)
          end
      end
  end.

(** A stable sort by insertion behind the elements whose key is not
    larger. *)
Fixpoint insert_by {A : Type} (key : A -> Z) (x : A) (l : list A) : list A :=
  match l with
  | [] => [x]
  | y :: l' =>
      if Z.ltb (key x) (key y) then x :: l else y :: insert_by key x l'
  end.

(** [sorted(xs, key=key)]; [None] is the exception of [key]. *)
Definition sorted_by {A : Type} (key : A -> option Z) (xs : list A)
  : option (list A) :=
  match keyed key xs with
  | None => None
  | Some decorated =>
      Some (map snd
              (fold_left (fun acc p => insert_by fst p acc) decorated []))
  end.

(** The value stored for an exhibit: [caption] and [image_path]. *)
Record exhibit_entry : Type := mkExhibit {
  caption : str;
  image_path : str
}.

(** One turn of the loop over the sorted keys, over [exhibits_od] and [i];
    [None] is the [KeyError] of [text_exhibits_od[ex_key]]. *)
Definition renumber_step (text_exhibits_od : odict str)
  (acc : option (odict exhibit_entry * nat)) (ex_key : str)
  : option (odict exhibit_entry * nat) :=
  match acc with
  | None => None
  | Some (exhibits_od, i) =>
      match od_get ex_key text_exhibits_od with
      | None => None
      | Some text =>
          Some (od_set (Py.str_of_nat i) (mkExhibit text []) exhibits_od,
                i + 1)
      end
  end.

(** The loop of [main] over [sorted(text_exhibits_od.keys(),
    key=lambda x: int(x))]; [None] is the [ValueError] of [int(x)] on a
    key, raised before the first turn, or the [KeyError] of a turn. *)
Definition renumber_exhibits (text_exhibits_od : odict str)
  : option (odict exhibit_entry) :=
  match sorted_by Py.int (od_keys text_exhibits_od) with
  | None => None
  | Some keys =>
      match
        fold_left (renumber_step text_exhibits_od) keys (Some ([], 1))
      with
      | None => None
      | Some (exhibits_od, _) => Some exhibits_od
      end
  end.

(** ** TocBuilder: [filter_headings_for_toc] *)

(** [re.match(r'(?i)^SPECIAL EXHIBITS$', s)]. *)
Definition special_exhibits_match (s : str) : bool :=
  match strip_prefix_ci "SPECIAL EXHIBITS" s with
  | Some r => Py.isempty r || Py.str_eqb r [Py.nl]
  | None => false
  end.

Record toc_state : Type := mkTocState {
  new_positions : list heading_position;
  found_exhibit : bool;
  in_special_section : bool
}.

(** One turn of the loop over [heading_positions]. *)
Definition toc_step (st : toc_state) (h : heading_position) : toc_state :=
  if in_special_section st
  then mkTocState (new_positions st ++ [h]) (found_exhibit st) true
  else if found_exhibit st
  then
    if special_exhibits_match (Py.strip (heading_text h))
    then mkTocState (new_positions st ++ [h]) true true
    else st
  else mkTocState (new_positions st ++ [h])
         (if is_exhibit_reference (heading_text h) then true else false)
         false.

Definition filter_headings_for_toc (hp : list heading_position)
  : list heading_position :=
  new_positions (fold_left toc_step hp (mkTocState [] false false)).

(** ** StructuralParser: [parse_documents_from_text] *)

(** [is_line_of_equals(l) or is_line_of_dashes(l)]. *)
Definition is_rule_line (l : str) : bool :=
  is_line_of_equals l || is_line_of_dashes l.

Section Documents.
Variable lines : list str.

(** The inner loop, over [j] and [doc_lines]. *)
Definition document_body (st : nat * list str)
  : option (ctl (nat * list str) (nat * list str)) :=
  let '(j, doc_lines) := st in
  if (j <? length lines) && negb (is_rule_line (line_at lines j))
  then Some (Continue (j + 1, doc_lines ++ [line_at lines j]))
  else Some (Break st).

(** The outer loop, over [i] and [docs]. *)
Definition documents_body (fuel : nat) (st : nat * list str)
  : option (ctl (nat * list str) (list str)) :=
  let '(i, docs) := st in
  if i <? length lines then
    if is_rule_line (line_at lines i) then
      match while_loop fuel document_body (i + 1, []) with
      | None => None
      | Some (j, doc_lines) =>
          if j <? length lines
          then Some (Continue (j + 1, docs ++ [Py.join [Py.nl] doc_lines]))
          else Some (Break docs)
      end
    else Some (Continue (i + 1, docs))
  else Some (Break docs).

End Documents.

Definition parse_documents_from_text (fuel : nat) (raw_text : str)
  : option (list str) :=
  let lines := Py.splitlines raw_text in
  while_loop fuel (documents_body lines fuel) (0, []).

(** ** PdfRenderer: [generate_index_pdf] *)

(** One entry of [flattened_lines]. *)
Record toc_line : Type := mkTocLine {
  line_text : str;
  pg_num : nat;
  ln_num : nat;
  toc_font_name : str;
  toc_font_size : nat;
  show_pageline : bool
}.

(** What [generate_index_pdf] draws: the page furniture (border, firm
    name, case name, rule and the words TABLE OF CONTENTS), an entry line,
    the right-aligned label of an entry, the footer and the page break. *)
Inductive index_op : Type :=
| IdxFrame
| IdxLine (text font_name : str) (font_size : nat)
| IdxLabel (label_str : str)
| IdxFooter (current_page_index total_index_pages : nat)
| IdxShowPage.

(** [enumerate(xs)]. *)
Definition enumerate {A : Type} (xs : list A) : list (nat * A) :=
  combine (seq 0 (length xs)) xs.

(** [page_width - left_margin - 1.5 * inch], in points. *)
Definition max_entry_width : Q := (612 - 72 - 108 # 1)%Q.

(** [int(usable_height // line_spacing)] with
    [usable_height = 792 - (72 + 72) - 72] and a line spacing of 18. *)
Definition index_max_lines_per_page : nat := (792 - (72 + 72) - 72) / 18.

Section Index.
Variable stringWidth : str -> str -> nat -> Q.

(** The body of the loop over [heading_positions]: the lines one heading
    adds to [flattened_lines]. *)
Definition flatten_heading (h : heading_position) : list toc_line :=
  let '(heading_text, pg_num, ln_num, is_sub) := h in
  let font_name : str := if is_sub then "Helvetica" else "Helvetica-Bold" in
  let font_size := if is_sub then 9 else 10 in
  let wrapped :=
    wrap_text_to_lines stringWidth font_name font_size max_entry_width
      heading_text in
  let text_lines :=
    match wrapped with
    | [] => [[]]
    | _ => map fst wrapped
    end in
  map (fun it => mkTocLine (snd it) pg_num ln_num font_name font_size
                   (fst it =? 0))
    (enumerate text_lines).

Definition flatten_headings (heading_positions : list heading_position)
  : list toc_line :=
  flat_map flatten_heading heading_positions.

(** The drawing of one entry line, with its label [pg:ln] when it is the
    first line of a heading. *)
Definition draw_toc_line (t : toc_line) : list index_op :=
  IdxLine (line_text t) (toc_font_name t) (toc_font_size t)
  :: (if show_pageline t
      then [IdxLabel (Py.str_of_nat (pg_num t) ++ [Py.colon]
                      ++ Py.str_of_nat (ln_num t))]
      else []).

Variable flattened_lines : list toc_line.
Variables max_lines_per_page total_index_pages : nat.

(** The inner loop, over [i], [lines_on_this_page] and the canvas. *)
Definition index_line_body (st : nat * nat * list index_op)
  : option (ctl (nat * nat * list index_op) (nat * list index_op)) :=
  let '(i, lines_on_this_page, cv) := st in
  if (i <? length flattened_lines)
     && (lines_on_this_page <? max_lines_per_page)
  then
    match nth_error flattened_lines i with
    | Some t =>
        Some (Continue (i + 1, lines_on_this_page + 1,
                        cv ++ draw_toc_line t))
    | None => None
    end
  else Some (Break (i, cv)).

(** The page loop, over [i], [current_page_index] and the canvas. *)
Definition index_page_body (fuel : nat) (st : nat * nat * list index_op)
  : option (ctl (nat * nat * list index_op) (nat * nat * list index_op)) :=
  let '(i, current_page_index, cv) := st in
  if i <? length flattened_lines then
    match while_loop fuel index_line_body (i, 0, cv ++ [IdxFrame]) with
    | None => None
    | Some (i', cv') =>
        let cv'' :=
          cv' ++ [IdxFooter current_page_index total_index_pages] in
        if i' <? length flattened_lines
        then Some (Continue (i', current_page_index + 1,
                             cv'' ++ [IdxShowPage]))
        else Some (Break (i', current_page_index, cv''))
    end
  else Some (Break st).

End Index.

(** [total_index_pages]. *)
Definition index_page_count (total_lines : nat) : nat :=
  Nat.max 1
    ((total_lines + index_max_lines_per_page - 1)
     / index_max_lines_per_page).

(** The result is the final [i], the final [current_page_index] and the
    canvas. *)
Definition generate_index_pdf (stringWidth : str -> str -> nat -> Q)
  (fuel : nat) (heading_positions : list heading_position)
  : option (nat * nat * list index_op) :=
  let flattened_lines := flatten_headings stringWidth heading_positions in
  let total_lines := length flattened_lines in
  while_loop fuel
    (index_page_body flattened_lines index_max_lines_per_page
       (index_page_count total_lines) fuel)
    (0, 1, []).

(** ** [main]: the split of the input at the first exhibit *)

(** [pattern_ex1.match(line)] for [^\s*EXHIBIT\s+1\s*:] under
    [re.IGNORECASE]. *)
Definition pattern_ex1_match (line : str) : bool :=
  match strip_prefix_ci "EXHIBIT" (Py.dropwhile Py.isspace line) with
  | None => false
  | Some r =>
      if Py.isempty (Py.takewhile Py.isspace r) then false
      else
        match Py.dropwhile Py.isspace r with
        | c :: r1 =>
            if Ascii.eqb c "1" then
              match Py.dropwhile Py.isspace r1 with
              | c2 :: _ => Ascii.eqb c2 Py.colon
              | [] => false
              end
            else false
        | [] => false
        end
  end.

(** One turn of [for line in lines], over [main_part], [exhibits_part] and
    [found_ex1]. *)
Definition separate_step (st : list str * list str * bool) (line : str)
  : list str * list str * bool :=
  let '(main_part, exhibits_part, found_ex1) := st in
  if negb found_ex1 && pattern_ex1_match line
  then (main_part, exhibits_part ++ [line], true)
  else if found_ex1
       then (main_part, exhibits_part ++ [line], found_ex1)
       else (main_part ++ [line], exhibits_part, found_ex1).

Definition separate_after_exhibit_1 (full_text : str) : str * str :=
  let lines := Py.splitlines full_text in
  let '(main_part, exhibits_part, _) :=
    fold_left separate_step lines ([], [], false) in
  (Py.join [Py.nl] main_part, Py.join [Py.nl] exhibits_part).

(** ** SegmentBuilder: [prepare_main_pdf_segments] *)

Section SegmentBuilder.
Variable stringWidth : str -> str -> nat -> Q.
Variable max_text_width : Q.

(** [flush_normal_buffer()]: the segments of the buffered header lines. *)
Definition flush_normal_buffer (normal_buffer : list str) : list segment :=
  flat_map
    (fun line =>
       let line_str := Py.strip line in
       if Py.isempty line_str then
         [TextLine [] "Helvetica" 10 AlignLeft false false]
       else if is_line_all_caps line_str then
         let wrapped :=
           wrap_text_to_lines stringWidth "Helvetica" 10 max_text_width
             line_str in
         map (fun w =>
                if is_exhibit_reference line_str
                then TextLine (fst w) "Helvetica-Bold" 10 AlignCenter
                       false false
                else TextLine (fst w) "Helvetica" 10 AlignCenter false false)
           wrapped
       else
         let wrapped :=
           wrap_text_to_lines stringWidth "Helvetica" 10 max_text_width
             line_str in
         map (fun w =>
                if is_exhibit_reference line_str
                then TextLine (fst w) "Helvetica-Bold" 10 AlignLeft
                       false false
                else TextLine (fst w) "Helvetica" 10 AlignLeft false false)
           wrapped)
    normal_buffer.

(** [flush_section_buffer()], in the body font of the section. *)
Definition flush_section_buffer (body_font_name : str)
  (body_font_size : nat) (normal_buffer_sec : list str) : list segment :=
  flat_map
    (fun line =>
       let line_str := Py.strip line in
       if Py.isempty line_str then
         [TextLine [] body_font_name body_font_size AlignLeft false false]
       else
         let wrapped :=
           wrap_text_to_lines stringWidth body_font_name body_font_size
             max_text_width line_str in
         map (fun w =>
                if is_exhibit_reference line_str
                then TextLine (fst w) "Helvetica-Bold" body_font_size
                       AlignLeft false false
                else TextLine (fst w) body_font_name body_font_size
                       AlignLeft false false)
           wrapped)
    normal_buffer_sec.

(** One turn of [for kind, block_lines in detect_legal_title_blocks(...)],
    over [segments] and the buffer; the header and every section body run
    the same loop, with their own flush and delimiter font size. *)
Definition item_step (flush : list str -> list segment)
  (delimiter_font_size : nat) (st : list segment * list str)
  (item : scan_item) : list segment * list str :=
  let '(segments, buffer) := st in
  match item with
  | legal_page_title_block block_lines =>
      let lines_cleaned := map Py.strip block_lines in
      (segments ++ flush buffer ++ [ForcedTitleBlock lines_cleaned], [])
  | delimiter_line _ =>
      (segments ++ flush buffer
       ++ [Delimiter "Helvetica" delimiter_font_size], [])
  | normal_line line => (segments, buffer ++ [line])
  end.

(** The loop and the final flush. *)
Definition items_segments (flush : list str -> list segment)
  (delimiter_font_size : nat) (segments : list segment)
  (items : list scan_item) : list segment :=
  let '(segments', buffer) :=
    fold_left (item_step flush delimiter_font_size) items (segments, []) in
  segments' ++ flush buffer.

(** One turn of [for section_key, section_body in sections_od.items()]. *)
Definition section_segments (fuel : nat)
  (heading_styles : odict heading_style) (segments : list segment)
  (section : str * str) : option (list segment) :=
  let '(section_key, section_body) := section in
  let style :=
    match od_get section_key heading_styles with
    | Some s => s
    | None => section_style
    end in
  let heading_font_name : str :=
    match style with
    | section_style => "Helvetica-Bold"
    | subsection_style => "Helvetica"
    end in
  let heading_font_size :=
    match style with section_style => 10 | subsection_style => 9 end in
  let body_font_name : str := "Helvetica" in
  let body_font_size :=
    match style with section_style => 10 | subsection_style => 9 end in
  let is_heading :=
    match style with section_style => true | subsection_style => false end in
  let is_subheading :=
    match style with section_style => false | subsection_style => true end in
  let segments1 :=
    segments
    ++ [TextLine [] body_font_name body_font_size AlignLeft false false] in
  let segments2 :=
    if is_exhibit_reference section_key then
      let heading_wrapped :=
        wrap_text_to_lines stringWidth "Helvetica-Bold" heading_font_size
          max_text_width section_key in
      segments1
      ++ map (fun w =>
                TextLine (fst w) "Helvetica-Bold" heading_font_size
                  AlignCenter is_heading is_subheading)
           heading_wrapped
    else
      let heading_wrapped :=
        wrap_text_to_lines stringWidth heading_font_name heading_font_size
          max_text_width section_key in
      segments1
      ++ map (fun w =>
                TextLine (fst w) heading_font_name heading_font_size
                  AlignCenter is_heading is_subheading)
           heading_wrapped in
  let lines_of_body := Py.splitlines section_body in
  match detect_legal_title_blocks fuel lines_of_body with
  | None => None
  | Some items =>
      Some (items_segments
              (flush_section_buffer body_font_name body_font_size)
              body_font_size segments2 items)
  end.

Definition prepare_main_pdf_segments (fuel : nat) (header_text : str)
  (sections_od : odict str) (heading_styles : odict heading_style)
  : option (list segment) :=
  let header_lines := Py.splitlines header_text in
  match detect_legal_title_blocks fuel header_lines with
  | None => None
  | Some items =>
      let segments := items_segments flush_normal_buffer 10 [] items in
      fold_left
        (fun acc section =>
           match acc with
           | None => None
           | Some segments' =>
               section_segments fuel heading_styles segments' section
           end)
        sections_od (Some segments)
  end.

End SegmentBuilder.

(** ** [main]: the image paths of the exhibits *)

(** One turn of [for ex_image in args.exhibits], over the exhibits of the
    lawsuit and [i]. *)
Definition attach_step (st : odict exhibit_entry * nat) (ex_image : str)
  : odict exhibit_entry * nat :=
  let '(exhibits, i) := st in
  let ex_key := Py.str_of_nat i in
  (match od_get ex_key exhibits with
   | Some e => od_set ex_key (mkExhibit (caption e) ex_image) exhibits
   | None => exhibits
   end,
   i + 1).

(** [if args.exhibits: i = 1; for ex_image in args.exhibits: ...]; an empty
    list runs no turn either way. *)
Definition attach_images (exhibits : odict exhibit_entry)
  (images : list str) : odict exhibit_entry :=
  fst (fold_left attach_step images (exhibits, 1)).

(** [exhibits_for_pdf]: the caption and the image path of every exhibit, in
    the order of the dictionary. *)
Definition exhibits_for_pdf (exhibits : odict exhibit_entry)
  : list (str * str) :=
  map (fun e => (caption (snd e), image_path (snd e))) exhibits.

(** * Properties *)

(** ** Python primitives on sample inputs *)

Example splitlines_ex :
  Py.splitlines
    ("a" ++ [Py.cr; Py.nl] ++ "b" ++ [Py.nl; Py.nl] ++ "c" ++ [Py.nl])
  = [ ("a" : str); ("b" : str); []; ("c" : str) ].
Proof. reflexivity. Qed.

Example split_ex :
  Py.split "  ab  c d " = [ ("ab" : str); ("c" : str); ("d" : str) ]
  /\ Py.split_first " 1.2  Damages and more "
     = [ ("1.2" : str); ("Damages and more " : str) ]
  /\ Py.split_char Py.nl [] = [[]]
  /\ Py.strip "  a b  " = "a b".
Proof. repeat split; reflexivity. Qed.

Example str_of_nat_ex :
  Py.str_of_nat 120 = "120" /\ Py.str_of_nat 0 = "0"
  /\ Py.value_of_digits "0120" = 120.
Proof. repeat split; reflexivity. Qed.

Example int_ex :
  Py.int "0120" = Some 120%Z
  /\ Py.int (" -1_000" ++ [Py.nl]) = Some (-1000)%Z
  /\ Py.int "+7" = Some 7%Z
  /\ Py.int "" = None
  /\ Py.int "12a" = None
  /\ Py.int "1__2" = None
  /\ Py.int "_12" = None
  /\ Py.int "12_" = None
  /\ Py.int "- 12" = None
  /\ Py.int "1 2" = None
  /\ Py.int ("12" ++ [ascii_of_nat 28]) = None.
Proof. repeat split; reflexivity. Qed.

Example line_predicates_ex :
  is_exhibit_reference "see Exhibit  12: photo" = true
  /\ is_exhibit_reference "EXHIBIT 1 : Photo" = false
  /\ is_exhibit_reference "xEXHIBIT 1:" = false
  /\ is_line_all_caps "1.2.3 SUB" = true
  /\ is_line_all_caps "1.2.3" = false
  /\ is_line_of_equals "  =====  " = true
  /\ is_line_of_equals "====" = false
  /\ is_line_of_dashes "------" = true.
Proof. repeat split; reflexivity. Qed.

Example scanner_ex :
  detect_legal_title_blocks 10
    [ ("=====":str); ("TITLE":str); ("=====":str); ("text":str);
      ("-----":str); ("=====":str); ("tail":str) ]
  = Some [ legal_page_title_block [("TITLE":str)]; normal_line "text";
           delimiter_line "-----"; delimiter_line "====="; normal_line "tail" ].
Proof. reflexivity. Qed.

(** A width measure for the examples: every character is one unit wide. *)
Definition unit_width (text : str) (_ : str) (_ : nat) : Q :=
  inject_Z (Z.of_nat (length text)).

Example wrap_ex :
  wrap_text_to_lines unit_width "Helvetica" 10 (inject_Z 7)
    ("aa bb cc dddddddddd e" ++ [Py.nl] ++ [Py.nl] ++ "f")
  = [ ("aa bb":str, true); ("cc":str, true); ("dddddddddd":str, true);
      ("e":str, false); ([], false); ("f":str, false) ].
Proof. vm_compute. reflexivity. Qed.

(** A body line and a section heading, as the segment builder styles them. *)
Definition body_line (t : string) : segment :=
  TextLine t "Helvetica" 10 AlignLeft false false.
Definition head_line (t : string) : segment :=
  TextLine t "Helvetica-Bold" 10 AlignCenter true false.

Example paginate_ex :
  generate_legal_document
    [ head_line "I. A"; body_line "x"; body_line "y";
      ForcedTitleBlock [("T":str)]; head_line "II. B" ] 2 10 0 []
  = Some (4, mkPlaceState 5 5
       [ OpFrame; OpLine 1 (head_line "I. A"); OpLine 2 (body_line "x");
         OpFooter 1 4; OpShowPage;
         OpFrame; OpLine 3 (body_line "y"); OpFooter 2 4; OpShowPage;
         OpFrame; OpFrame; OpTitleLines [("T":str)]; OpFooter 3 4; OpShowPage;
         OpFrame; OpLine 5 (head_line "II. B"); OpFooter 4 4; OpShowPage ]
       [ ("I. A":str, 1, 1, false); ("II. B":str, 4, 5, false) ]).
Proof. reflexivity. Qed.

Example heading_pattern_ex :
  heading_pattern_match "1.2. Damages"
  = Some (("1.2." : str), ("Damages" : str))
  /\ heading_pattern_match "IV.  Relief sought "
     = Some (("IV." : str), ("Relief sought " : str))
  /\ heading_pattern_match "1.2.3 Sub" = None
  /\ heading_pattern_match "1.Intro" = None
  /\ heading_pattern_match " 1. Intro" = None
  /\ bare_number_match "12." = true
  /\ bare_number_match "12" = false.
Proof. repeat split; reflexivity. Qed.

Example parse_sections_ex :
  parse_header_and_sections
    (Py.join [Py.nl] [ ("Filed by x":str); ("1. Intro":str); ("body a":str);
                       ("FACTS":str); ("body b":str); ("1. Intro":str);
                       ("body c":str) ])
  = ( [ (("content":str), ("Filed by x":str)) ],
      [ (("1 Intro":str), ("body c":str)); (("FACTS":str), ("body b":str)) ] ).
Proof. vm_compute. reflexivity. Qed.

Example exhibit_pattern_ex :
  exhibit_pattern_match "  Exhibit 12 :  A photo"
  = Some (("12" : str), ("A photo" : str))
  /\ exhibit_pattern_match "EXHIBIT12: x" = None
  /\ exhibit_pattern_match "EXHIBIT 3:" = Some (("3":str), [])
  /\ sorted_by Py.int
       [ ("10" : str); ("9" : str); ("09" : str); ("1" : str) ]
     = Some [ ("1" : str); ("9" : str); ("09" : str); ("10" : str) ]
  /\ sorted_by Py.int [ ("10" : str); ("x" : str) ] = None.
Proof. repeat split; reflexivity. Qed.

(** ** Facts about [split] *)

Definition nospace (w : str) : Prop :=
  forallb (fun c => negb (Py.isspace c)) w = true.

Definition word_ok (w : str) : Prop := w <> [] /\ nospace w.

Lemma isempty_true (s : str) : Py.isempty s = true -> s = [].
Proof. destruct s; simpl; congruence. Qed.

(** A whitespace character cuts the string into two independent halves. *)
Lemma split_from_sep (a : str) :
  forall (cur : str) (c : ascii) (b : str),
    Py.isspace c = true ->
    Py.split_from cur (a ++ c :: b) = Py.split_from cur a ++ Py.split b.
Proof.
  induction a as [|x a IH]; intros cur c b Hc; simpl.
  - rewrite Hc. destruct (Py.isempty cur); reflexivity.
  - destruct (Py.isspace x).
    + destruct (Py.isempty cur); simpl; rewrite (IH [] c b Hc); reflexivity.
    + apply IH; assumption.
Qed.

Lemma split_from_word (w : str) :
  forall cur : str,
    nospace w -> rev cur ++ w <> [] ->
    Py.split_from cur w = [rev cur ++ w].
Proof.
  induction w as [|x w IH]; intros cur Hw Hne; simpl.
  - rewrite app_nil_r in *. destruct cur as [|y cur]; simpl in *.
    + congruence.
    + reflexivity.
  - unfold nospace in Hw. simpl in Hw. apply andb_prop in Hw as [Hx Hw].
    apply negb_true_iff in Hx. rewrite Hx.
    rewrite (IH (x :: cur) Hw); simpl; rewrite <- app_assoc; simpl.
    + reflexivity.
    + destruct (rev cur); discriminate.
Qed.

Lemma split_word (w : str) : word_ok w -> Py.split w = [w].
Proof.
  intros [Hne Hw]. unfold Py.split. rewrite split_from_word; auto.
Qed.

Lemma nospace_cons (c : ascii) (w : str) :
  Py.isspace c = false -> nospace w -> nospace (c :: w).
Proof.
  intros Hc Hw. unfold nospace in *. simpl. rewrite Hc, Hw. reflexivity.
Qed.

Lemma nospace_rev (w : str) : nospace w -> nospace (rev w).
Proof.
  unfold nospace. rewrite !forallb_forall. intros H x Hx.
  apply H. apply in_rev. assumption.
Qed.

(** Every word returned by [split] is non-empty and free of whitespace. *)
Lemma split_from_words_ok (s : str) :
  forall cur : str, nospace cur -> Forall word_ok (Py.split_from cur s).
Proof.
  induction s as [|c s IH]; intros cur Hcur; simpl.
  - destruct cur as [|y cur]; simpl; constructor; [|constructor].
    split; [destruct (rev cur); discriminate|].
    change (nospace (rev (y :: cur))). apply nospace_rev; assumption.
  - destruct (Py.isspace c) eqn:Hc.
    + destruct cur as [|y cur]; simpl.
      * apply IH. reflexivity.
      * constructor; [|apply IH; reflexivity].
        split; [destruct (rev cur); discriminate|].
        change (nospace (rev (y :: cur))). apply nospace_rev; assumption.
    + apply IH. apply nospace_cons; assumption.
Qed.

Lemma split_words_ok (s : str) : Forall word_ok (Py.split s).
Proof. apply split_from_words_ok. reflexivity. Qed.

Lemma isspace_nl : Py.isspace Py.nl = true.
Proof. reflexivity. Qed.

Lemma isspace_sp : Py.isspace " "%char = true.
Proof. reflexivity. Qed.

(** Splitting at newlines first and into words next gives the words of the
    whole text. *)
Lemma split_paragraphs (s : str) :
  forall cur : str,
    Py.split (rev cur ++ s)
    = concat (map Py.split (Py.split_char_from Py.nl cur s)).
Proof.
  induction s as [|c s IH]; intros cur; simpl.
  - rewrite !app_nil_r. reflexivity.
  - destruct (Ascii.eqb c Py.nl) eqn:Hc.
    + apply Ascii.eqb_eq in Hc. subst c. simpl.
      rewrite <- (IH []). simpl.
      unfold Py.split at 1. rewrite split_from_sep by apply isspace_nl.
      reflexivity.
    + rewrite <- (IH (c :: cur)). simpl. rewrite <- app_assoc. reflexivity.
Qed.

(** ** The wrapper keeps every word *)

(** The words of a list of output lines. *)
Definition words_of (out : list (str * bool)) : list str :=
  concat (map (fun l => Py.split (fst l)) out).

Lemma words_of_app (a b : list (str * bool)) :
  words_of (a ++ b) = words_of a ++ words_of b.
Proof. unfold words_of. rewrite map_app, concat_app. reflexivity. Qed.

Section WrapperFacts.
Variable stringWidth : str -> str -> nat -> Q.
Variables (font_name : str) (font_size : nat) (max_width : Q).

Local Abbreviation wword :=
  (wrap_word stringWidth font_name font_size max_width).
Local Abbreviation wparagraph :=
  (wrap_paragraph stringWidth font_name font_size max_width).
Local Abbreviation wtext :=
  (wrap_text_to_lines stringWidth font_name font_size max_width).

(** The words placed so far: those of the finished lines, then those of
    the line being filled. *)
Definition placed_words (st : list (str * bool) * str) : list str :=
  words_of (fst st) ++ Py.split (snd st).

Lemma wrap_word_words (st : list (str * bool) * str) (w : str) :
  word_ok w -> placed_words (wword st w) = placed_words st ++ [w].
Proof.
  intros Hw. destruct st as [all_lines current_line].
  unfold wrap_word, placed_words.
  destruct (Qle_bool _ _); simpl.
  - rewrite <- app_assoc. f_equal.
    destruct current_line as [|c cl]; simpl.
    + apply split_word; assumption.
    + change (c :: cl ++ " "%char :: w) with ((c :: cl) ++ " "%char :: w).
      unfold Py.split at 1.
      rewrite split_from_sep by apply isspace_sp.
      rewrite (split_word Hw). reflexivity.
  - rewrite words_of_app, <- !app_assoc. f_equal.
    unfold words_of. simpl.
    rewrite app_nil_r, (split_word Hw). reflexivity.
Qed.

Lemma wrap_words_fold (ws : list str) :
  forall st, Forall word_ok ws ->
    placed_words (fold_left wword ws st) = placed_words st ++ ws.
Proof.
  induction ws as [|w ws IH]; intros st Hws; simpl.
  - rewrite app_nil_r. reflexivity.
  - inversion Hws; subst. rewrite IH by assumption.
    rewrite wrap_word_words by assumption.
    rewrite <- app_assoc. reflexivity.
Qed.

Lemma wrap_paragraph_words (all_lines : list (str * bool)) (p : str) :
  words_of (wparagraph all_lines p) = words_of all_lines ++ Py.split p.
Proof.
  unfold wrap_paragraph.
  destruct (Py.split p) as [|w ws] eqn:Hp.
  - rewrite words_of_app. reflexivity.
  - pose proof (split_words_ok p) as Hok. rewrite Hp in Hok.
    pose proof (wrap_words_fold (all_lines, []) Hok) as H.
    destruct (fold_left wword (w :: ws) (all_lines, [])) as [a c].
    unfold placed_words in H. simpl in H.
    rewrite app_nil_r in H.
    destruct (Py.isempty c) eqn:Hc.
    + apply isempty_true in Hc. subst c. simpl in H.
      rewrite app_nil_r in H. assumption.
    + rewrite words_of_app. unfold words_of at 2. simpl.
      rewrite app_nil_r. assumption.
Qed.

Lemma wrap_paragraphs_words (ps : list str) :
  forall acc,
    words_of (fold_left wparagraph ps acc)
    = words_of acc ++ concat (map Py.split ps).
Proof.
  induction ps as [|p ps IH]; intros acc; simpl.
  - rewrite app_nil_r. reflexivity.
  - rewrite IH, wrap_paragraph_words, <- app_assoc. reflexivity.
Qed.

(** C7 (wrap coverage): whatever the width measure and the maximal width,
    so for every positive one, the whitespace-separated words of the lines
    returned by [wrap_text_to_lines], taken in output order, are exactly
    the whitespace-separated words of the input text. *)
Theorem wrap_coverage (full_text : str) :
  concat (map (fun l => Py.split (fst l)) (wtext full_text))
  = Py.split full_text.
Proof.
  change (words_of (wtext full_text) = Py.split full_text).
  unfold wrap_text_to_lines.
  rewrite wrap_paragraphs_words. simpl.
  unfold Py.split_char. rewrite <- split_paragraphs. reflexivity.
Qed.

(** *** An over-wide first word *)

Lemma wrap_fold_acc (ws : list str) :
  forall (pre a : list (str * bool)) (c : str),
    fold_left wword ws (pre ++ a, c)
    = (pre ++ fst (fold_left wword ws (a, c)),
       snd (fold_left wword ws (a, c))).
Proof.
  induction ws as [|w ws IH]; intros pre a c; cbn [fold_left].
  - reflexivity.
  - replace (wword (pre ++ a, c) w)
      with (pre ++ fst (wword (a, c) w), snd (wword (a, c) w)).
    + destruct (wword (a, c) w) as [a2 c2]. apply IH.
    + unfold wrap_word. destruct (Qle_bool _ _); simpl.
      * reflexivity.
      * rewrite <- app_assoc. reflexivity.
Qed.

Lemma wrap_paragraph_acc (all_lines : list (str * bool)) (p : str) :
  wparagraph all_lines p = all_lines ++ wparagraph [] p.
Proof.
  unfold wrap_paragraph. destruct (Py.split p) as [|w ws]; [reflexivity|].
  pose proof (wrap_fold_acc (w :: ws) all_lines [] []) as H.
  rewrite app_nil_r in H. rewrite H.
  destruct (fold_left wword (w :: ws) ([], [])) as [a c]. simpl.
  destruct (Py.isempty c); [reflexivity|].
  rewrite app_assoc. reflexivity.
Qed.

Lemma wrap_text_concat (ps : list str) :
  forall acc,
    fold_left wparagraph ps acc = acc ++ concat (map (wparagraph []) ps).
Proof.
  induction ps as [|p ps IH]; intros acc; simpl.
  - rewrite app_nil_r. reflexivity.
  - rewrite IH, wrap_paragraph_acc, <- app_assoc. reflexivity.
Qed.

(** The lines start with the empty wrapped line, and the line after it
    starts with the word [w]; [c] is the line being filled. *)
Definition carries (w : str) (a : list (str * bool)) (c : str) : Prop :=
  c <> [] /\
  exists a', a = ([], true) :: a' /\
    match a' with
    | [] => exists t, c = w ++ t
    | (l, _) :: _ => exists t, l = w ++ t
    end.

Lemma carries_step (w : str) (a : list (str * bool)) (c x : str) :
  carries w a c -> word_ok x ->
  carries w (fst (wword (a, c) x)) (snd (wword (a, c) x)).
Proof.
  intros [Hc [a' [Ha Hl]]] [Hx _]. subst a. unfold wrap_word.
  destruct c as [|c0 c]; [congruence|]. simpl Py.isempty. cbv iota.
  destruct (Qle_bool _ _); simpl.
  - split; [discriminate|]. exists a'. split; [reflexivity|].
    destruct a' as [|[l b] a']; [|assumption].
    destruct Hl as [t Ht]. exists (t ++ " "%char :: x).
    change (c0 :: c ++ " "%char :: x) with ((c0 :: c) ++ " "%char :: x).
    rewrite Ht, <- app_assoc. reflexivity.
  - split; [assumption|]. exists (a' ++ [(c0 :: c, true)]).
    split; [reflexivity|].
    destruct a' as [|[l b] a']; simpl; assumption.
Qed.

Lemma carries_fold (w : str) (ws : list str) :
  forall (a : list (str * bool)) (c : str),
    carries w a c -> Forall word_ok ws ->
    carries w (fst (fold_left wword ws (a, c)))
              (snd (fold_left wword ws (a, c))).
Proof.
  induction ws as [|x ws IH]; intros a c Hc Hws; cbn [fold_left].
  - assumption.
  - inversion Hws; subst.
    pose proof (carries_step Hc H1) as Hstep.
    destruct (wword (a, c) x) as [a2 c2]. apply IH; assumption.
Qed.

Lemma wrap_paragraph_wide_first (p w : str) (ws : list str) :
  Py.split p = w :: ws ->
  Qle_bool (stringWidth w font_name font_size) max_width = false ->
  exists l b rest,
    wparagraph [] p = ([], true) :: (l, b) :: rest
    /\ exists t, l = w ++ t.
Proof.
  intros Hp Hwide. pose proof (split_words_ok p) as Hok.
  rewrite Hp in Hok. inversion Hok as [|? ? Hw Hws]; subst.
  unfold wrap_paragraph. rewrite Hp. cbn [fold_left].
  replace (wword ([], []) w) with ([(([] : str), true)], w)
    by (unfold wrap_word; simpl; rewrite Hwide; reflexivity).
  assert (Hinit : carries w [([], true)] w).
  { split; [apply Hw|]. exists []. split; [reflexivity|].
    exists []. rewrite app_nil_r. reflexivity. }
  pose proof (carries_fold Hinit Hws) as [Hc [a' [Ha Hl]]].
  destruct (fold_left wword ws ([([], true)], w)) as [a c].
  simpl in *. subst a.
  destruct c as [|c0 c]; [congruence|]. simpl.
  destruct a' as [|[l b] a']; simpl.
  - exists (c0 :: c), false, []. split; [reflexivity|assumption].
  - exists l, b, (a' ++ [(c0 :: c, false)]). split; [reflexivity|assumption].
Qed.

(** C10 (over-wide first word): when the first word of a paragraph of the
    text measures wider than [max_width], the output holds the empty line
    flagged as wrapped and, right after it, a line that starts with that
    word; and a text that is one paragraph of one such word is wrapped
    into exactly the two entries [("", True)] and [(word, False)]. *)
Theorem wrap_wide_first_word (full_text p w : str) (ws : list str) :
  In p (Py.split_char Py.nl full_text) ->
  Py.split p = w :: ws ->
  Qle_bool (stringWidth w font_name font_size) max_width = false ->
  (exists pre l b post,
      wtext full_text = pre ++ ([], true) :: (l, b) :: post
      /\ exists t, l = w ++ t)
  /\ (ws = [] -> Py.split_char Py.nl full_text = [p] ->
      wtext full_text = [([], true); (w, false)]).
Proof.
  intros Hin Hp Hwide. split.
  - unfold wrap_text_to_lines. rewrite wrap_text_concat. simpl.
    apply in_split in Hin as [ps1 [ps2 Hps]]. rewrite Hps.
    rewrite map_app, concat_app. simpl.
    destruct (wrap_paragraph_wide_first p Hp Hwide)
      as [l [b [rest [Hwrap Hl]]]].
    rewrite Hwrap.
    exists (concat (map (wparagraph []) ps1)), l, b,
      (rest ++ concat (map (wparagraph []) ps2)).
    split; [reflexivity|assumption].
  - intros Hws Hone. subst ws.
    unfold wrap_text_to_lines. rewrite Hone. simpl.
    unfold wrap_paragraph. rewrite Hp. simpl.
    unfold wrap_word. simpl Py.isempty. cbv iota. rewrite Hwide.
    pose proof (split_words_ok p) as Hok. rewrite Hp in Hok.
    inversion Hok as [|? ? [Hne _] _]; subst.
    destruct w; [congruence|reflexivity].
Qed.

End WrapperFacts.

(** A paragraph of one word of ten characters against a width of seven. *)
Lemma wrap_wide_first_word_witness :
  wrap_text_to_lines unit_width "Helvetica" 10 (inject_Z 7) "dddddddddd"
  = [([], true); (("dddddddddd" : str), false)].
Proof.
  refine (proj2 (@wrap_wide_first_word unit_width "Helvetica" 10 (inject_Z 7)
                   "dddddddddd" "dddddddddd" "dddddddddd" [] _ _ _) _ _).
  - vm_compute. left. reflexivity.
  - vm_compute. reflexivity.
  - vm_compute. reflexivity.
  - reflexivity.
  - vm_compute. reflexivity.
Defined.

(** ** Facts about loops and indices *)

Lemma while_loop_continue {S R : Type} (body : S -> option (ctl S R))
  (s s' : S) (fuel : nat) :
  body s = Some (Continue s') ->
  while_loop (Datatypes.S fuel) body s = while_loop fuel body s'.
Proof. intros H. simpl. rewrite H. reflexivity. Qed.

Lemma while_loop_break {S R : Type} (body : S -> option (ctl S R))
  (s : S) (r : R) (fuel : nat) :
  body s = Some (Break r) ->
  while_loop (Datatypes.S fuel) body s = Some r.
Proof. intros H. simpl. rewrite H. reflexivity. Qed.

(** More fuel never changes a result. *)
Lemma while_loop_mono {S R : Type} (body : S -> option (ctl S R)) (fuel : nat) :
  forall (s : S) (r : R) (fuel' : nat),
    while_loop fuel body s = Some r -> fuel <= fuel' ->
    while_loop fuel' body s = Some r.
Proof.
  induction fuel as [|fuel IH]; intros s r fuel' H Hle; simpl in H.
  - discriminate.
  - destruct fuel' as [|fuel']; [lia|]. simpl.
    destruct (body s) as [[s'|r']|]; try assumption.
    apply IH; [assumption|lia].
Qed.

(** So two runs that both end agree, whatever their fuel. *)
Lemma while_loop_fuel_irrelevant {S R : Type} (body : S -> option (ctl S R))
  (s : S) (f1 f2 : nat) (r1 r2 : R) :
  while_loop f1 body s = Some r1 -> while_loop f2 body s = Some r2 -> r1 = r2.
Proof.
  intros H1 H2.
  apply while_loop_mono with (fuel' := Nat.max f1 f2) in H1; [|lia].
  apply while_loop_mono with (fuel' := Nat.max f1 f2) in H2; [|lia].
  congruence.
Qed.

Lemma skipn_cons_inv {A : Type} (l : list A) :
  forall (i : nat) (x : A) (r : list A),
    skipn i l = x :: r ->
    nth_error l i = Some x /\ skipn (i + 1) l = r /\ i < length l.
Proof.
  induction l as [|y l IH]; intros i x r H.
  - rewrite skipn_nil in H. discriminate.
  - destruct i as [|i]; simpl in *.
    + inversion H; subst. repeat split. lia.
    + destruct (IH i x r H) as [H1 [H2 H3]]. repeat split; try assumption. lia.
Qed.

Lemma skipn_nil_inv {A : Type} (l : list A) (i : nat) :
  skipn i l = [] -> length l <= i.
Proof.
  intros H. pose proof (length_skipn i l) as Hl. rewrite H in Hl.
  simpl in Hl. lia.
Qed.

Lemma skipn_lt_cons {A : Type} (l : list A) (i : nat) :
  i < length l -> exists x r, skipn i l = x :: r.
Proof.
  intros H. destruct (skipn i l) as [|x r] eqn:E.
  - apply skipn_nil_inv in E. lia.
  - eauto.
Qed.

Lemma skipn_app_length {A : Type} (a b : list A) :
  skipn (length a) (a ++ b) = b.
Proof.
  rewrite skipn_app, skipn_all, Nat.sub_diag. reflexivity.
Qed.

(** ** One page of the paginator *)

(** The numbered lines a page takes from what is left of the segments: at
    most [n], and none from a title block on. *)
Fixpoint take_lines (n : nat) (rest : list segment) : list segment :=
  match n, rest with
  | S n', s :: rest' =>
      if page_always_new s then [] else s :: take_lines n' rest'
  | _, _ => []
  end.

(** The entry recorded for a segment drawn as line [n] of page [p]. *)
Definition heading_of (p n : nat) (seg : segment) : list heading_position :=
  match seg with
  | TextLine text _ _ _ is_heading is_subheading =>
      if is_heading || is_subheading then [(text, p, n, is_subheading)]
      else []
  | _ => []
  end.

(** What is drawn, and what is recorded, for the lines [segs] that follow
    segment index [i]. *)
Fixpoint line_ops (i : nat) (segs : list segment) : list draw_op :=
  match segs with
  | [] => []
  | s :: segs' => OpLine (i + 1) s :: line_ops (i + 1) segs'
  end.

Fixpoint line_heads (p i : nat) (segs : list segment)
  : list heading_position :=
  match segs with
  | [] => []
  | s :: segs' => heading_of p (i + 1) s ++ line_heads p (i + 1) segs'
  end.

Lemma take_lines_length (n : nat) :
  forall rest, length (take_lines n rest) <= length rest.
Proof.
  induction n as [|n IH]; intros [|s rest]; simpl; try lia.
  destruct (page_always_new s); simpl; [lia|]. specialize (IH rest). lia.
Qed.

Lemma take_lines_prefix (n : nat) :
  forall rest, take_lines n rest = firstn (length (take_lines n rest)) rest.
Proof.
  induction n as [|n IH]; intros [|s rest]; simpl; try reflexivity.
  destruct (page_always_new s); simpl; [reflexivity|].
  f_equal. apply IH.
Qed.

Lemma take_lines_no_title (n : nat) :
  forall rest s, In s (take_lines n rest) -> page_always_new s = false.
Proof.
  induction n as [|n IH]; intros [|x rest] s; simpl; try tauto.
  destruct (page_always_new x) eqn:E; simpl; [tauto|].
  intros [H|H]; [subst; assumption|eauto].
Qed.

Section PageFacts.
Variable segments : list segment.
Variable max_lines_per_page : nat.
Hypothesis max_positive : 0 < max_lines_per_page.

Section OnePage.
Variables p t : nat.

Local Abbreviation body := (draw_page_body segments max_lines_per_page p t).
Local Abbreviation dline := (draw_line p).

Lemma draw_lines_state (taken : list segment) :
  forall st,
    fold_left dline taken st
    = mkPageState
        (end_index st + length taken)
        (current_line_count st + length taken)
        (canvas st ++ line_ops (end_index st) taken)
        (heading_positions st ++ line_heads p (end_index st) taken).
Proof.
  induction taken as [|s taken IH]; intros st; simpl.
  - rewrite !Nat.add_0_r, !app_nil_r. destruct st; reflexivity.
  - rewrite IH. unfold draw_line at 1 2 3 4. simpl.
    f_equal; try lia.
    + rewrite <- app_assoc. reflexivity.
    + destruct s as [text fn fs al h sh| |]; simpl; try reflexivity.
      destruct (h || sh); simpl; [rewrite <- app_assoc|]; reflexivity.
Qed.

(** The loop of [draw_page_of_segments] from a state that is not in front of
    a title block at the top of a page: it draws the lines the page can
    take and is left through its guard or its [break]. *)
Lemma draw_loop_lines (rest : list segment) :
  forall (st : page_state) (fuel : nat),
    skipn (end_index st) segments = rest ->
    (current_line_count st = 0 ->
     match rest with s :: _ => page_always_new s = false | [] => True end) ->
    length (take_lines (max_lines_per_page - current_line_count st) rest)
      < fuel ->
    while_loop fuel body st
    = Some (LoopLeft
              (fold_left dline
                 (take_lines (max_lines_per_page - current_line_count st) rest)
                 st)).
Proof.
  induction rest as [|s rest IH]; intros st fuel Hrest Htop Hfuel.
  - destruct fuel as [|fuel]; [lia|].
    apply skipn_nil_inv in Hrest.
    replace (take_lines _ []) with (@nil segment)
      by (destruct (max_lines_per_page - current_line_count st); reflexivity).
    apply while_loop_break. unfold draw_page_body.
    replace (end_index st <? length segments) with false
      by (symmetry; apply Nat.ltb_ge; assumption).
    reflexivity.
  - apply skipn_cons_inv in Hrest as [Hnth [Hskip Hlt]].
    destruct (current_line_count st <? max_lines_per_page) eqn:Hcount.
    + apply Nat.ltb_lt in Hcount.
      destruct (max_lines_per_page - current_line_count st) as [|m] eqn:Hm;
        [lia|].
      simpl take_lines in *.
      destruct (page_always_new s) eqn:Hs.
      * destruct fuel as [|fuel]; [simpl in Hfuel; lia|].
        apply while_loop_break. unfold draw_page_body.
        rewrite (proj2 (Nat.ltb_lt _ _) Hlt), (proj2 (Nat.ltb_lt _ _) Hcount).
        simpl. rewrite Hnth.
        destruct s as [| |block_lines]; try discriminate.
        destruct (current_line_count st) as [|c] eqn:Hc.
        -- specialize (Htop eq_refl). simpl in Htop. discriminate.
        -- reflexivity.
      * destruct fuel as [|fuel]; [simpl in Hfuel; lia|].
        rewrite while_loop_continue with (s' := dline st s).
        -- simpl fold_left.
           replace m with
             (max_lines_per_page - current_line_count (dline st s))
             by (simpl; lia).
           apply IH.
           ++ simpl. assumption.
           ++ simpl. lia.
           ++ replace (max_lines_per_page - current_line_count (dline st s))
                with m by (simpl; lia).
              simpl in Hfuel. lia.
        -- unfold draw_page_body.
           rewrite (proj2 (Nat.ltb_lt _ _) Hlt),
             (proj2 (Nat.ltb_lt _ _) Hcount).
           simpl. rewrite Hnth.
           destruct s; try reflexivity. discriminate.
    + destruct fuel as [|fuel]; [lia|].
      apply Nat.ltb_ge in Hcount.
      replace (max_lines_per_page - current_line_count st) with 0 by lia.
      apply while_loop_break. unfold draw_page_body.
      replace (current_line_count st <? max_lines_per_page) with false
        by (symmetry; apply Nat.ltb_ge; assumption).
      rewrite andb_false_r. reflexivity.
Qed.

(** The segments of the page that starts at [rest]: a title block alone, or
    the lines the page can take. *)
Definition page_of (rest : list segment) : list segment :=
  match rest with
  | ForcedTitleBlock block_lines :: _ => [ForcedTitleBlock block_lines]
  | _ => take_lines max_lines_per_page rest
  end.

(** What a call for the page at index [i] draws and records. *)
Definition page_log (i : nat) (rest : list segment) : list draw_op :=
  match rest with
  | ForcedTitleBlock block_lines :: _ =>
      [OpFrame; OpFrame; OpTitleLines block_lines; OpFooter p t]
  | _ => OpFrame :: line_ops i (take_lines max_lines_per_page rest)
           ++ [OpFooter p t]
  end.

Definition page_heads (i : nat) (rest : list segment)
  : list heading_position :=
  match rest with
  | ForcedTitleBlock _ :: _ => []
  | _ => line_heads p i (take_lines max_lines_per_page rest)
  end.

Lemma page_of_length (rest : list segment) :
  length (page_of rest) <= length rest.
Proof.
  clear max_positive.
  destruct rest as [|[| |] rest]; try apply take_lines_length. simpl. lia.
Qed.

Lemma page_of_nonempty (rest : list segment) :
  rest <> [] -> 0 < length (page_of rest).
Proof.
  destruct rest as [|s rest]; [congruence|]. intros _.
  destruct max_lines_per_page as [|m] eqn:Hm; [lia|].
  destruct s; simpl; try rewrite Hm; simpl; lia.
Qed.

Lemma page_of_prefix (rest : list segment) :
  page_of rest = firstn (length (page_of rest)) rest.
Proof.
  destruct rest as [|[| |] rest]; try apply take_lines_prefix. reflexivity.
Qed.

(** A call of [draw_page_of_segments] in closed form. *)
Lemma draw_page_closed (i fuel : nat) (cv : list draw_op)
  (hp : list heading_position) :
  length (page_of (skipn i segments)) < fuel ->
  draw_page_of_segments segments max_lines_per_page p t fuel i cv hp
  = Some (i + length (page_of (skipn i segments)),
          cv ++ page_log i (skipn i segments),
          hp ++ page_heads i (skipn i segments)).
Proof.
  intros Hfuel. unfold draw_page_of_segments.
  set (st0 := mkPageState i 0 (cv ++ [OpFrame]) hp).
  assert (Hlines :
    match skipn i segments with
    | s :: _ => page_always_new s = false
    | [] => True
    end ->
    page_of (skipn i segments) = take_lines max_lines_per_page (skipn i segments) ->
    page_log i (skipn i segments)
      = OpFrame :: line_ops i (take_lines max_lines_per_page (skipn i segments))
          ++ [OpFooter p t] ->
    page_heads i (skipn i segments)
      = line_heads p i (take_lines max_lines_per_page (skipn i segments)) ->
    match while_loop fuel body st0 with
    | Some (LoopLeft st) =>
        Some (end_index st, canvas st ++ [OpFooter p t], heading_positions st)
    | Some (Returned st) => Some (end_index st, canvas st, heading_positions st)
    | None => None
    end
    = Some (i + length (page_of (skipn i segments)),
            cv ++ page_log i (skipn i segments),
            hp ++ page_heads i (skipn i segments))).
  { intros Hnt Hof Hlog Hheads.
    rewrite (@draw_loop_lines (skipn i segments) st0 fuel eq_refl).
    - rewrite draw_lines_state. simpl.
      rewrite Nat.sub_0_r, Hof, Hlog, Hheads, <- !app_assoc. reflexivity.
    - intros _. assumption.
    - simpl. rewrite Nat.sub_0_r, <- Hof. assumption. }
  destruct (skipn i segments) as [|s rest] eqn:Hrest.
  - apply Hlines; auto.
  - destruct s as [| |block_lines]; try (apply Hlines; auto; fail).
    apply skipn_cons_inv in Hrest as [Hnth [_ Hlt]].
    destruct fuel as [|fuel]; [lia|].
    rewrite while_loop_break with
      (r := Returned (mkPageState (i + 1) 0
              (draw_legal_page_title_block (cv ++ [OpFrame]) block_lines p t)
              hp)).
    + unfold draw_legal_page_title_block. simpl.
      rewrite <- app_assoc, app_nil_r. reflexivity.
    + unfold draw_page_body. simpl.
      rewrite (proj2 (Nat.ltb_lt _ _) Hlt),
        (proj2 (Nat.ltb_lt _ _) max_positive).
      simpl. rewrite Hnth. reflexivity.
Qed.

End OnePage.

(** *** The estimate *)

Lemma estimate_loop_lines (rest : list segment) :
  forall (lines_used local_i fuel : nat),
    skipn local_i segments = rest ->
    length (take_lines (max_lines_per_page - lines_used) rest) < fuel ->
    while_loop fuel (estimate_page_body segments max_lines_per_page)
      (lines_used, local_i)
    = Some (lines_used
              + length (take_lines (max_lines_per_page - lines_used) rest),
            local_i
              + length (take_lines (max_lines_per_page - lines_used) rest)).
Proof.
  induction rest as [|s rest IH]; intros lines_used local_i fuel Hrest Hfuel.
  - destruct fuel as [|fuel]; [lia|].
    apply skipn_nil_inv in Hrest.
    replace (take_lines _ []) with (@nil segment)
      by (destruct (max_lines_per_page - lines_used); reflexivity).
    simpl length. rewrite !Nat.add_0_r.
    apply while_loop_break. unfold estimate_page_body.
    replace (local_i <? length segments) with false
      by (symmetry; apply Nat.ltb_ge; assumption).
    reflexivity.
  - apply skipn_cons_inv in Hrest as [Hnth [Hskip Hlt]].
    destruct (lines_used <? max_lines_per_page) eqn:Hcount.
    + apply Nat.ltb_lt in Hcount.
      destruct (max_lines_per_page - lines_used) as [|m] eqn:Hm; [lia|].
      simpl take_lines in *.
      destruct (page_always_new s) eqn:Hs.
      * destruct fuel as [|fuel]; [simpl in Hfuel; lia|].
        simpl length. rewrite !Nat.add_0_r.
        apply while_loop_break. unfold estimate_page_body.
        rewrite (proj2 (Nat.ltb_lt _ _) Hlt), (proj2 (Nat.ltb_lt _ _) Hcount).
        simpl. rewrite Hnth, Hs. reflexivity.
      * destruct fuel as [|fuel]; [simpl in Hfuel; lia|].
        rewrite while_loop_continue with (s' := (lines_used + 1, local_i + 1)).
        -- assert (Hm' : max_lines_per_page - (lines_used + 1) = m) by lia.
           rewrite (IH (lines_used + 1) (local_i + 1) fuel Hskip);
             rewrite Hm'.
           ++ simpl length. f_equal; f_equal; lia.
           ++ simpl in Hfuel. lia.
        -- unfold estimate_page_body.
           rewrite (proj2 (Nat.ltb_lt _ _) Hlt),
             (proj2 (Nat.ltb_lt _ _) Hcount).
           simpl. rewrite Hnth, Hs. reflexivity.
    + destruct fuel as [|fuel]; [lia|].
      apply Nat.ltb_ge in Hcount.
      replace (max_lines_per_page - lines_used) with 0 by lia.
      simpl length. rewrite !Nat.add_0_r.
      apply while_loop_break. unfold estimate_page_body.
      replace (lines_used <? max_lines_per_page) with false
        by (symmetry; apply Nat.ltb_ge; assumption).
      rewrite andb_false_r. reflexivity.
Qed.

Lemma estimate_body_next (i tp fuel : nat) :
  i < length segments ->
  length (page_of (skipn i segments)) < fuel ->
  estimate_body segments max_lines_per_page fuel (i, tp)
  = Some (Continue (i + length (page_of (skipn i segments)), tp + 1)).
Proof.
  intros Hlt Hfuel. unfold estimate_body.
  rewrite (proj2 (Nat.ltb_lt _ _) Hlt).
  destruct (skipn_lt_cons segments Hlt) as [s [rest Hrest]].
  rewrite Hrest in *.
  destruct (skipn_cons_inv _ _ Hrest) as [Hnth _]. rewrite Hnth.
  destruct (page_always_new s) eqn:Hs.
  - destruct s; try discriminate. reflexivity.
  - assert (Hof : page_of (s :: rest) = take_lines max_lines_per_page (s :: rest))
      by (destruct s; try reflexivity; discriminate).
    rewrite Hof in *.
    rewrite (@estimate_loop_lines (s :: rest) 0 i fuel Hrest);
      rewrite Nat.sub_0_r; [reflexivity|assumption].
Qed.

Lemma estimate_body_done (i tp fuel : nat) :
  length segments <= i ->
  estimate_body segments max_lines_per_page fuel (i, tp) = Some (Break tp).
Proof.
  intros Hge. unfold estimate_body.
  replace (i <? length segments) with false
    by (symmetry; apply Nat.ltb_ge; assumption).
  reflexivity.
Qed.

(** *** The placement loop *)

(** The number of [showPage()] calls logged by a canvas. *)
Definition shown_pages (cv : list draw_op) : nat :=
  length (filter (fun op => match op with OpShowPage => true | _ => false end)
            cv).

Lemma shown_pages_app (a b : list draw_op) :
  shown_pages (a ++ b) = shown_pages a + shown_pages b.
Proof. unfold shown_pages. rewrite filter_app, length_app. reflexivity. Qed.

Lemma shown_pages_line_ops (i : nat) (segs : list segment) :
  shown_pages (line_ops i segs) = 0.
Proof.
  revert i. induction segs as [|s segs IH]; intros i; [reflexivity|].
  simpl. apply IH.
Qed.

Lemma shown_pages_page_log (p t i : nat) (rest : list segment) :
  shown_pages (page_log p t i rest) = 0.
Proof.
  assert (H : shown_pages
                (OpFrame :: line_ops i (take_lines max_lines_per_page rest)
                   ++ [OpFooter p t]) = 0).
  { change (OpFrame :: ?l) with ([OpFrame] ++ l).
    rewrite !shown_pages_app, shown_pages_line_ops. reflexivity. }
  destruct rest as [|[| |] rest]; try exact H. reflexivity.
Qed.

(** One turn of the placement loop in closed form. *)
Definition next_page (t : nat) (st : place_state) : place_state :=
  let rest := skipn (current_index st) segments in
  mkPlaceState
    (page_number st + 1)
    (current_index st + length (page_of rest))
    ((pdf_canvas st ++ page_log (page_number st) t (current_index st) rest)
       ++ [OpShowPage])
    (headings st ++ page_heads (page_number st) (current_index st) rest).

Lemma place_body_next (t fuel : nat) (st : place_state) :
  current_index st < length segments ->
  length segments < fuel ->
  place_body segments max_lines_per_page fuel t st
  = Some (Continue (next_page t st)).
Proof.
  intros Hlt Hfuel. unfold place_body.
  rewrite (proj2 (Nat.ltb_lt _ _) Hlt).
  rewrite draw_page_closed; [reflexivity|].
  pose proof (page_of_length (skipn (current_index st) segments)) as H.
  rewrite length_skipn in H. lia.
Qed.

Lemma place_body_done (t fuel : nat) (st : place_state) :
  length segments <= current_index st ->
  place_body segments max_lines_per_page fuel t st = Some (Break st).
Proof.
  intros Hge. unfold place_body.
  replace (current_index st <? length segments) with false
    by (symmetry; apply Nat.ltb_ge; assumption).
  reflexivity.
Qed.

Lemma next_page_index (t : nat) (st : place_state) :
  current_index st < length segments ->
  current_index st < current_index (next_page t st)
  /\ current_index (next_page t st) <= length segments.
Proof.
  intros Hlt. simpl.
  pose proof (page_of_length (skipn (current_index st) segments)) as Hle.
  rewrite length_skipn in Hle.
  destruct (skipn_lt_cons segments Hlt) as [s [rest Hrest]].
  assert (Hpos : 0 < length (page_of (skipn (current_index st) segments)))
    by (apply page_of_nonempty; rewrite Hrest; discriminate).
  lia.
Qed.

(** The loop rule of the placement pass: the loop ends with every segment
    placed, and what each page preserves holds at the end. *)
Lemma place_loop_rule (t : nat) (I : place_state -> Prop) :
  (forall st, I st -> current_index st < length segments ->
              I (next_page t st)) ->
  forall (n : nat) (st : place_state) (f1 f2 : nat),
    I st ->
    current_index st <= length segments ->
    length segments - current_index st <= n ->
    n < f1 -> length segments < f2 ->
    exists st',
      while_loop f1 (place_body segments max_lines_per_page f2 t) st = Some st'
      /\ I st' /\ current_index st' = length segments.
Proof.
  intros Hstep. induction n as [|n IH]; intros st f1 f2 HI Hle Hn Hf1 Hf2.
  - destruct f1 as [|f1]; [lia|]. exists st.
    split; [|split; [assumption|lia]].
    apply while_loop_break. apply place_body_done. lia.
  - destruct f1 as [|f1]; [lia|].
    destruct (Nat.lt_ge_cases (current_index st) (length segments))
      as [Hlt|Hge].
    + rewrite while_loop_continue with (s' := next_page t st)
        by (apply place_body_next; assumption).
      destruct (next_page_index t st Hlt) as [Hgt Hle2].
      apply IH; try assumption; try lia.
      apply Hstep; assumption.
    + exists st. split; [|split; [assumption|lia]].
      apply while_loop_break. apply place_body_done. assumption.
Qed.

(** The two loops of [generate_legal_document] walk the same pages. *)
Lemma loops_agree (t : nat) :
  forall (n : nat) (st : place_state) (tp f1 f2 : nat),
    current_index st <= length segments ->
    length segments - current_index st <= n ->
    n < f1 -> length segments < f2 ->
    exists (k : nat) (st' : place_state),
      while_loop f1 (estimate_body segments max_lines_per_page f2)
        (current_index st, tp) = Some (tp + k)
      /\ while_loop f1 (place_body segments max_lines_per_page f2 t) st
         = Some st'
      /\ page_number st' = page_number st + k
      /\ shown_pages (pdf_canvas st') = shown_pages (pdf_canvas st) + k
      /\ current_index st' = length segments.
Proof.
  induction n as [|n IH]; intros st tp f1 f2 Hle Hn Hf1 Hf2.
  - destruct f1 as [|f1]; [lia|]. exists 0, st.
    rewrite !Nat.add_0_r. repeat split; try lia.
    + apply while_loop_break. apply estimate_body_done. lia.
    + apply while_loop_break. apply place_body_done. lia.
  - destruct f1 as [|f1]; [lia|].
    destruct (Nat.lt_ge_cases (current_index st) (length segments))
      as [Hlt|Hge].
    + destruct (next_page_index t st Hlt) as [Hgt Hle2].
      destruct (IH (next_page t st) (tp + 1) f1 f2) as [k [st' H]];
        try assumption; try lia.
      destruct H as [Hest [Hplace [Hpn [Hshown Hidx]]]].
      exists (1 + k), st'.
      rewrite while_loop_continue with
        (s' := (current_index (next_page t st), tp + 1)).
      * rewrite while_loop_continue with (s' := next_page t st)
          by (apply place_body_next; assumption).
        repeat split; try assumption.
        -- rewrite Hest. f_equal. lia.
        -- rewrite Hpn. simpl. lia.
        -- rewrite Hshown. simpl.
           rewrite !shown_pages_app, shown_pages_page_log.
           change (shown_pages [OpShowPage]) with 1. lia.
      * apply estimate_body_next; [assumption|].
        pose proof (page_of_length (skipn (current_index st) segments)) as H.
        rewrite length_skipn in H. lia.
    + exists 0, st. rewrite !Nat.add_0_r. repeat split; try lia.
      * apply while_loop_break. apply estimate_body_done. assumption.
      * apply while_loop_break. apply place_body_done. assumption.
Qed.

End PageFacts.

(** C1 (the two passes agree): for every segment sequence and every positive
    [max_lines_per_page], with fuel for one turn per segment, the estimation
    loop of [generate_legal_document] ends with a page count, the placement
    loop ends with every segment placed, and that count is the number of
    calls of [draw_page_of_segments] the placement made: [page_number],
    which starts at 1 and grows by one with each call, ends one above the
    count, and the canvas has one [showPage()] for each counted page. *)
Theorem passes_agree (segments : list segment)
  (max_lines_per_page fuel n_exhibits : nat) (hp : list heading_position) :
  0 < max_lines_per_page ->
  length segments < fuel ->
  exists (text_pages : nat) (st : place_state),
    estimate_text_pages segments max_lines_per_page fuel = Some text_pages
    /\ generate_legal_document segments max_lines_per_page fuel n_exhibits hp
       = Some (text_pages, st)
    /\ page_number st = 1 + text_pages
    /\ shown_pages (pdf_canvas st) = text_pages
    /\ current_index st = length segments.
Proof.
  intros Hmax Hfuel.
  unfold generate_legal_document, estimate_text_pages.
  set (st0 := mkPlaceState 1 0 [] hp).
  destruct (@loops_agree segments max_lines_per_page Hmax 0
              (length segments) st0 0 fuel fuel)
    as [k [st' [Hest [_ [_ [_ _]]]]]]; simpl; try lia.
  simpl in Hest. rewrite Hest.
  destruct (@loops_agree segments max_lines_per_page Hmax (k + n_exhibits * 2)
              (length segments) st0 0 fuel fuel)
    as [k' [st'' [Hest' [Hplace [Hpn [Hshown Hidx]]]]]]; simpl; try lia.
  simpl in Hest'. rewrite Hest in Hest'. inversion Hest'; subst k'.
  unfold place_segments. fold st0. rewrite Hplace.
  exists k, st''. simpl in *. repeat split; try assumption; lia.
Qed.

(** Five segments, two lines to a page: four pages in both passes. *)
Lemma passes_agree_witness :
  exists (text_pages : nat) (st : place_state),
    estimate_text_pages
      [ head_line "I. A"; body_line "x"; body_line "y";
        ForcedTitleBlock [("T" : str)]; head_line "II. B" ] 2 10
    = Some text_pages
    /\ generate_legal_document
         [ head_line "I. A"; body_line "x"; body_line "y";
           ForcedTitleBlock [("T" : str)]; head_line "II. B" ] 2 10 0 []
       = Some (text_pages, st)
    /\ page_number st = 1 + text_pages
    /\ shown_pages (pdf_canvas st) = text_pages
    /\ current_index st = 5.
Proof.
  apply (@passes_agree
           [ head_line "I. A"; body_line "x"; body_line "y";
             ForcedTitleBlock [("T" : str)]; head_line "II. B" ] 2 10 0 []).
  - lia.
  - simpl. lia.
Defined.

(** ** Heading coordinates come out in page order *)

Lemma strongly_sorted_app (l1 l2 : list nat) :
  StronglySorted le l1 -> StronglySorted le l2 ->
  (forall x y, In x l1 -> In y l2 -> x <= y) ->
  StronglySorted le (l1 ++ l2).
Proof.
  intros H1 H2 H12. induction H1 as [|a l1 Hs IH Ha]; simpl.
  - assumption.
  - constructor.
    + apply IH. intros x y Hx Hy. apply H12; [right|]; assumption.
    + apply Forall_app. split; [assumption|].
      apply Forall_forall. intros y Hy. apply H12; [left; reflexivity|assumption].
Qed.

Lemma strongly_sorted_const (p : nat) (l : list nat) :
  Forall (fun x => x = p) l -> StronglySorted le l.
Proof.
  induction 1 as [|x l Hx Hl IH]; constructor; [assumption|].
  subst x. apply Forall_impl with (P := fun x => x = p); [lia|assumption].
Qed.

Lemma strongly_sorted_nth (l : list nat) :
  StronglySorted le l ->
  forall i j a b, i <= j -> nth_error l i = Some a -> nth_error l j = Some b ->
                  a <= b.
Proof.
  induction 1 as [|x l Hs IH Hx]; intros i j a b Hij Ha Hb.
  - destruct i; discriminate.
  - destruct i as [|i], j as [|j]; simpl in *; try lia.
    + inversion Ha; inversion Hb; subst. lia.
    + inversion Ha; subst. apply nth_error_In in Hb.
      rewrite Forall_forall in Hx. apply Hx. assumption.
    + apply (IH i j); try assumption. lia.
Qed.

Lemma line_heads_page (p : nat) (segs : list segment) :
  forall i, Forall (fun h => heading_page h = p) (line_heads p i segs).
Proof.
  induction segs as [|s segs IH]; intros i; simpl.
  - constructor.
  - apply Forall_app. split; [|apply IH].
    destruct s as [text fn fs al h sh| |]; simpl; try constructor.
    destruct (h || sh); constructor; [reflexivity|constructor].
Qed.

Lemma page_heads_page (max_lines_per_page p i : nat) (rest : list segment) :
  Forall (fun h => heading_page h = p)
    (page_heads max_lines_per_page p i rest).
Proof.
  destruct rest as [|[| |] rest]; simpl; try apply line_heads_page.
  constructor.
Qed.

(** What every page preserves: the recorded pages are in order and none is
    beyond the current page. *)
Definition pages_in_order (st : place_state) : Prop :=
  StronglySorted le (map heading_page (headings st))
  /\ Forall (fun x => x <= page_number st) (map heading_page (headings st)).

Lemma pages_in_order_next (segments : list segment)
  (max_lines_per_page t : nat) (st : place_state) :
  pages_in_order st ->
  pages_in_order (next_page segments max_lines_per_page t st).
Proof.
  intros [Hs Hb]. unfold pages_in_order. simpl.
  pose proof (page_heads_page max_lines_per_page (page_number st)
                (current_index st) (skipn (current_index st) segments)) as Hp.
  set (new := page_heads _ _ _ _) in *.
  assert (Hnew : Forall (fun x => x = page_number st) (map heading_page new)).
  { apply Forall_map. assumption. }
  rewrite map_app. split.
  - apply strongly_sorted_app; [assumption| |].
    + apply strongly_sorted_const with (p := page_number st). assumption.
    + intros x y Hx Hy. rewrite Forall_forall in Hb, Hnew.
      rewrite (Hnew y Hy). apply Hb. assumption.
  - apply Forall_app. split.
    + apply Forall_impl with (P := fun x => x <= page_number st);
        [intros; lia|assumption].
    + apply Forall_impl with (P := fun x => x = page_number st);
        [intros; lia|assumption].
Qed.

(** C8 (heading order): for every segment sequence and every positive
    [max_lines_per_page], the placement loop started on an empty
    [heading_positions] list, as [main] starts it, ends, and in the list it
    leaves an earlier entry never has a larger page number than a later
    one. *)
Theorem heading_pages_monotone (segments : list segment)
  (max_lines_per_page fuel total_pages_est : nat) :
  0 < max_lines_per_page ->
  length segments < fuel ->
  exists st : place_state,
    place_segments segments max_lines_per_page fuel total_pages_est []
    = Some st
    /\ forall (i j : nat) (h1 h2 : heading_position),
         i <= j ->
         nth_error (headings st) i = Some h1 ->
         nth_error (headings st) j = Some h2 ->
         heading_page h1 <= heading_page h2.
Proof.
  intros Hmax Hfuel. unfold place_segments.
  destruct (@place_loop_rule segments max_lines_per_page Hmax total_pages_est
              pages_in_order
              (fun st HI _ => pages_in_order_next segments max_lines_per_page
                                total_pages_est HI)
              (length segments) (mkPlaceState 1 0 [] []) fuel fuel)
    as [st [Hrun [[Hsorted _] _]]]; simpl; try lia.
  - split; constructor.
  - exists st. split; [assumption|].
    intros i j h1 h2 Hij H1 H2.
    apply (strongly_sorted_nth Hsorted Hij);
      apply map_nth_error; assumption.
Qed.

Lemma heading_pages_monotone_witness :
  exists st : place_state,
    place_segments
      [ head_line "I. A"; body_line "x"; body_line "y";
        ForcedTitleBlock [("T" : str)]; head_line "II. B" ] 2 10 4 []
    = Some st
    /\ forall (i j : nat) (h1 h2 : heading_position),
         i <= j ->
         nth_error (headings st) i = Some h1 ->
         nth_error (headings st) j = Some h2 ->
         heading_page h1 <= heading_page h2.
Proof.
  apply (@heading_pages_monotone
           [ head_line "I. A"; body_line "x"; body_line "y";
             ForcedTitleBlock [("T" : str)]; head_line "II. B" ] 2 10 4).
  - lia.
  - simpl. lia.
Defined.

(** ** Reading the canvas *)

(** The segment an operation places, if it places one. *)
Definition op_segment (op : draw_op) : list segment :=
  match op with
  | OpLine _ seg => [seg]
  | OpTitleLines block_lines => [ForcedTitleBlock block_lines]
  | _ => []
  end.

(** The segments a log places, in order. *)
Definition placed_segments (cv : list draw_op) : list segment :=
  flat_map op_segment cv.

(** The numbered lines among them: every placed segment except the title
    blocks. *)
Definition placed_lines (cv : list draw_op) : list segment :=
  filter (fun seg => negb (page_always_new seg)) (placed_segments cv).

Lemma placed_segments_app (a b : list draw_op) :
  placed_segments (a ++ b) = placed_segments a ++ placed_segments b.
Proof. apply flat_map_app. Qed.

Lemma placed_line_ops (segs : list segment) :
  forall i, placed_segments (line_ops i segs) = segs.
Proof.
  induction segs as [|s segs IH]; intros i; simpl; [reflexivity|].
  f_equal. apply IH.
Qed.

Lemma placed_page_log (max_lines_per_page p t i : nat) (rest : list segment) :
  placed_segments (page_log max_lines_per_page p t i rest)
  = page_of max_lines_per_page rest.
Proof.
  assert (H : placed_segments
                (OpFrame :: line_ops i (take_lines max_lines_per_page rest)
                   ++ [OpFooter p t])
              = take_lines max_lines_per_page rest).
  { change (OpFrame :: ?l) with ([OpFrame] ++ l).
    rewrite !placed_segments_app, placed_line_ops. simpl.
    apply app_nil_r. }
  destruct rest as [|[| |] rest]; try exact H. reflexivity.
Qed.

Lemma firstn_skipn_add {A : Type} (l : list A) :
  forall i k, firstn i l ++ firstn k (skipn i l) = firstn (i + k) l.
Proof.
  induction l as [|x l IH]; intros i k.
  - rewrite skipn_nil, !firstn_nil. reflexivity.
  - destruct i as [|i]; simpl; [reflexivity|]. f_equal. apply IH.
Qed.

(** What every page preserves: the canvas places the segments up to
    [current_index], each once and in order. *)
Definition places_prefix (segments : list segment) (st : place_state) : Prop :=
  placed_segments (pdf_canvas st) = firstn (current_index st) segments.

Lemma places_prefix_next (segments : list segment)
  (max_lines_per_page t : nat) (st : place_state) :
  places_prefix segments st ->
  places_prefix segments (next_page segments max_lines_per_page t st).
Proof.
  unfold places_prefix. intros H. simpl.
  rewrite !placed_segments_app, placed_page_log, H. simpl.
  rewrite app_nil_r.
  rewrite (page_of_prefix max_lines_per_page
             (skipn (current_index st) segments)) at 1.
  apply firstn_skipn_add.
Qed.

(** ** Gutter numbers *)

(** Every gutter number of the log is one more than the number of segments
    placed before it, [k] of them before the log. *)
Fixpoint gutters_from (k : nat) (cv : list draw_op) : Prop :=
  match cv with
  | [] => True
  | op :: cv' =>
      match op with OpLine n _ => n = k + 1 | _ => True end
      /\ gutters_from (k + length (op_segment op)) cv'
  end.

Lemma gutters_from_app (a : list draw_op) :
  forall k b,
    gutters_from k (a ++ b)
    <-> gutters_from k a
        /\ gutters_from (k + length (placed_segments a)) b.
Proof.
  induction a as [|op a IH]; intros k b; simpl.
  - rewrite Nat.add_0_r. tauto.
  - rewrite IH, length_app, Nat.add_assoc. tauto.
Qed.

Lemma gutters_line_ops (segs : list segment) :
  forall i, gutters_from i (line_ops i segs).
Proof.
  induction segs as [|s segs IH]; intros i; simpl; [exact I|].
  split; [reflexivity|apply IH].
Qed.

Lemma gutters_page_log (max_lines_per_page p t i : nat)
  (rest : list segment) :
  gutters_from i (page_log max_lines_per_page p t i rest).
Proof.
  assert (H : gutters_from i
                (OpFrame :: line_ops i (take_lines max_lines_per_page rest)
                   ++ [OpFooter p t])).
  { simpl. split; [exact I|]. rewrite Nat.add_0_r.
    apply gutters_from_app. split; [apply gutters_line_ops|].
    simpl. tauto. }
  destruct rest as [|[| |] rest]; try exact H. simpl. tauto.
Qed.

(** The heading entry [h] is the entry of a line the log draws with the
    gutter number [heading_line h]. *)
Definition heading_drawn (cv : list draw_op) (h : heading_position) : Prop :=
  exists text fn fs al is_heading is_subheading,
    In (OpLine (heading_line h)
          (TextLine text fn fs al is_heading is_subheading)) cv
    /\ is_heading || is_subheading = true
    /\ heading_text h = text.

Lemma heading_drawn_app (a b : list draw_op) (h : heading_position) :
  heading_drawn a h \/ heading_drawn b h -> heading_drawn (a ++ b) h.
Proof.
  intros [H|H]; destruct H as [text [fn [fs [al [hd [sh [Hin Hrest]]]]]]];
    exists text, fn, fs, al, hd, sh; (split; [|assumption]);
    apply in_or_app; auto.
Qed.

Lemma line_heads_drawn (p : nat) (segs : list segment) :
  forall i h, In h (line_heads p i segs) -> heading_drawn (line_ops i segs) h.
Proof.
  induction segs as [|s segs IH]; intros i h Hin; simpl in Hin; [tauto|].
  apply in_app_or in Hin as [Hin|Hin].
  - destruct s as [text fn fs al hd sh| |]; simpl in Hin; try tauto.
    destruct (hd || sh) eqn:Hflag; simpl in Hin; [|tauto].
    destruct Hin as [Hin|[]]. subst h.
    exists text, fn, fs, al, hd, sh. simpl. auto.
  - change (line_ops i (s :: segs))
      with ([OpLine (i + 1) s] ++ line_ops (i + 1) segs).
    apply heading_drawn_app. right. apply IH. assumption.
Qed.

Lemma page_heads_drawn (max_lines_per_page p t i : nat)
  (rest : list segment) (h : heading_position) :
  In h (page_heads max_lines_per_page p i rest) ->
  heading_drawn (page_log max_lines_per_page p t i rest) h.
Proof.
  assert (H : In h (line_heads p i (take_lines max_lines_per_page rest)) ->
              heading_drawn
                (OpFrame :: line_ops i (take_lines max_lines_per_page rest)
                   ++ [OpFooter p t]) h).
  { intros Hin. change (OpFrame :: ?l) with ([OpFrame] ++ l).
    apply heading_drawn_app. right. apply heading_drawn_app. left.
    apply line_heads_drawn with (p := p). assumption. }
  destruct rest as [|[| |] rest]; try exact H. simpl. tauto.
Qed.

(** What every page preserves for the gutter numbers. *)
Definition gutters_ok (segments : list segment) (hp : list heading_position)
  (st : place_state) : Prop :=
  places_prefix segments st
  /\ gutters_from 0 (pdf_canvas st)
  /\ forall h, In h (headings st) ->
               In h hp \/ heading_drawn (pdf_canvas st) h.

Lemma gutters_ok_next (segments : list segment)
  (hp : list heading_position) (max_lines_per_page t : nat)
  (st : place_state) :
  gutters_ok segments hp st ->
  gutters_ok segments hp (next_page segments max_lines_per_page t st).
Proof.
  intros [Hpre [Hg Hh]]. split; [|split].
  - apply places_prefix_next. assumption.
  - simpl. apply gutters_from_app. split.
    + apply gutters_from_app. split; [assumption|].
      unfold places_prefix in Hpre. rewrite Hpre. simpl.
      pose proof (page_of_length max_lines_per_page
                    (skipn (current_index st) segments)) as Hlen.
      destruct (Nat.le_gt_cases (current_index st) (length segments))
        as [Hle|Hgt].
      * rewrite length_firstn, Nat.min_l by assumption.
        apply gutters_page_log.
      * rewrite skipn_all2 by lia. simpl.
        destruct max_lines_per_page; simpl; tauto.
    + simpl. tauto.
  - simpl. intros h Hin. apply in_app_or in Hin as [Hin|Hin].
    + destruct (Hh h Hin) as [H|H]; [left; assumption|right].
      apply heading_drawn_app. left. apply heading_drawn_app. left.
      assumption.
    + right. apply heading_drawn_app. left. apply heading_drawn_app. right.
      apply page_heads_drawn. assumption.
Qed.

Lemma gutters_from_split (cv : list draw_op) :
  gutters_from 0 cv ->
  forall pre n seg post,
    cv = pre ++ OpLine n seg :: post ->
    n = length (placed_segments pre) + 1.
Proof.
  intros Hg pre n seg post Hcv. subst cv.
  apply gutters_from_app in Hg as [_ Hg]. simpl in Hg. tauto.
Qed.

(** The title blocks among the placed segments. *)
Definition placed_title_blocks (cv : list draw_op) : list segment :=
  filter page_always_new (placed_segments cv).

Lemma placed_count (cv : list draw_op) :
  length (placed_segments cv)
  = length (placed_lines cv) + length (placed_title_blocks cv).
Proof.
  unfold placed_lines, placed_title_blocks.
  induction (placed_segments cv) as [|s l IH]; simpl; [reflexivity|].
  destruct (page_always_new s); simpl; lia.
Qed.

(** The placed segments that carry a text of their own: the text lines,
    without the delimiter rules and the title blocks. *)
Definition placed_text_lines (cv : list draw_op) : list segment :=
  filter (fun seg => match seg with
                     | TextLine _ _ _ _ _ _ => true
                     | _ => false
                     end)
    (placed_segments cv).

(** C4 as stated fails: a text line that follows a title block and a
    delimiter rule is the second numbered line and the first text line of
    the document, yet its gutter number is 3. *)
Lemma gutter_counts_title_blocks :
  exists (st : place_state) (pre post : list draw_op) (seg : segment),
    place_segments
      [ ForcedTitleBlock [("CAPTION" : str)]; Delimiter "Helvetica" 10;
        body_line "x" ]
      letter_max_lines_per_page 4 2 []
    = Some st
    /\ pdf_canvas st = pre ++ OpLine 3 seg :: post
    /\ length (placed_lines pre) + 1 = 2
    /\ length (placed_text_lines pre) + 1 = 1.
Proof.
  eexists.
  exists [ OpFrame; OpFrame; OpTitleLines [("CAPTION" : str)]; OpFooter 1 2;
           OpShowPage; OpFrame; OpLine 2 (Delimiter "Helvetica" 10) ].
  eexists. eexists. split; [|split; [|split]].
  - vm_compute. reflexivity.
  - reflexivity.
  - reflexivity.
  - reflexivity.
Qed.

(** C4, amended (gutter numbers): for every segment sequence and every
    positive [max_lines_per_page] the placement loop ends, and every gutter
    number it has drawn is one more than the number of segments placed
    before that line, the title blocks among them counted like the lines:
    it is the position of the segment in the whole sequence, counted
    from 1.  Every heading entry the loop has added records the gutter
    number of the line drawn for its text. *)
Theorem gutter_numbers (segments : list segment)
  (max_lines_per_page fuel total_pages_est : nat)
  (hp : list heading_position) :
  0 < max_lines_per_page ->
  length segments < fuel ->
  exists st : place_state,
    place_segments segments max_lines_per_page fuel total_pages_est hp
    = Some st
    /\ (forall pre n seg post,
           pdf_canvas st = pre ++ OpLine n seg :: post ->
           n = length (placed_lines pre) + length (placed_title_blocks pre) + 1
           /\ nth_error segments (n - 1) = Some seg)
    /\ (forall h, In h (headings st) ->
                  In h hp \/ heading_drawn (pdf_canvas st) h).
Proof.
  intros Hmax Hfuel. unfold place_segments.
  destruct (@place_loop_rule segments max_lines_per_page Hmax total_pages_est
              (gutters_ok segments hp)
              (fun st HI _ => gutters_ok_next max_lines_per_page
                                total_pages_est HI)
              (length segments) (mkPlaceState 1 0 [] hp) fuel fuel)
    as [st [Hrun [[Hpre [Hg Hh]] Hidx]]]; simpl; try lia.
  - split; [reflexivity|]. split; [exact I|]. intros h Hin. left. assumption.
  - exists st. split; [assumption|]. split; [|assumption].
    intros pre n seg post Hcv.
    pose proof (@gutters_from_split _ Hg pre n seg post Hcv) as Hn.
    rewrite <- placed_count. split; [assumption|].
    unfold places_prefix in Hpre.
    rewrite Hidx, firstn_all, Hcv, placed_segments_app in Hpre. simpl in Hpre.
    rewrite <- Hpre, Hn, Nat.add_sub.
    rewrite nth_error_app2, Nat.sub_diag by lia. reflexivity.
Qed.

Lemma gutter_numbers_witness :
  exists st : place_state,
    place_segments [ForcedTitleBlock [("CAPTION" : str)]; body_line "x"]
      letter_max_lines_per_page 3 2 []
    = Some st
    /\ (forall pre n seg post,
           pdf_canvas st = pre ++ OpLine n seg :: post ->
           n = length (placed_lines pre) + length (placed_title_blocks pre) + 1
           /\ nth_error
                [ForcedTitleBlock [("CAPTION" : str)]; body_line "x"] (n - 1)
              = Some seg)
    /\ (forall h, In h (headings st) ->
                  In h [] \/ heading_drawn (pdf_canvas st) h).
Proof.
  apply (@gutter_numbers
           [ForcedTitleBlock [("CAPTION" : str)]; body_line "x"]
           letter_max_lines_per_page 3 2 []).
  - vm_compute. lia.
  - simpl. lia.
Defined.

(** ** The pages of the canvas *)

(** The finished pages of a log: what is drawn up to each [showPage()];
    [cur] is the page being drawn. *)
Fixpoint pages_from (cur : list draw_op) (cv : list draw_op)
  : list (list draw_op) :=
  match cv with
  | [] => []
  | OpShowPage :: cv' => cur :: pages_from [] cv'
  | op :: cv' => pages_from (cur ++ [op]) cv'
  end.

Definition pages_of (cv : list draw_op) : list (list draw_op) :=
  pages_from [] cv.

(** Nothing is drawn after the last [showPage()]. *)
Definition all_pages_shown (cv : list draw_op) : Prop :=
  cv = [] \/ exists cv', cv = cv' ++ [OpShowPage].

Lemma pages_from_shown (a : list draw_op) :
  forall cur b,
    pages_from cur (a ++ OpShowPage :: b)
    = pages_from cur (a ++ [OpShowPage]) ++ pages_from [] b.
Proof.
  induction a as [|op a IH]; intros cur b; simpl.
  - reflexivity.
  - destruct op; simpl; rewrite IH; reflexivity.
Qed.

Lemma pages_from_one (log : list draw_op) :
  shown_pages log = 0 ->
  forall cur, pages_from cur (log ++ [OpShowPage]) = [cur ++ log].
Proof.
  induction log as [|op log IH]; intros Hlog cur; simpl.
  - rewrite app_nil_r. reflexivity.
  - destruct op; try discriminate;
      (rewrite IH by exact Hlog; rewrite <- app_assoc; reflexivity).
Qed.

Lemma pages_of_next (cv log : list draw_op) :
  all_pages_shown cv -> shown_pages log = 0 ->
  pages_of ((cv ++ log) ++ [OpShowPage]) = pages_of cv ++ [log].
Proof.
  intros [Hcv|[cv' Hcv]] Hlog; subst cv; unfold pages_of.
  - simpl. apply (pages_from_one log Hlog).
  - rewrite <- !app_assoc. simpl.
    rewrite pages_from_shown. f_equal. apply (pages_from_one log Hlog).
Qed.

(** A page that holds a title block holds nothing else. *)
Definition title_alone (pg : list segment) : Prop :=
  forall s, In s pg -> page_always_new s = true -> pg = [s].

Lemma page_of_title_alone (max_lines_per_page : nat) (rest : list segment) :
  title_alone (page_of max_lines_per_page rest).
Proof.
  assert (H : title_alone (take_lines max_lines_per_page rest)).
  { intros s Hin Hs. apply take_lines_no_title in Hin. congruence. }
  destruct rest as [|[| |] rest]; try exact H.
  intros s [Hin|[]] _. subst s. reflexivity.
Qed.

(** What every page preserves: the finished pages hold the segments up to
    [current_index], in order, and a title block is alone on its page. *)
Definition pages_ok (segments : list segment) (st : place_state) : Prop :=
  all_pages_shown (pdf_canvas st)
  /\ concat (map placed_segments (pages_of (pdf_canvas st)))
     = firstn (current_index st) segments
  /\ Forall title_alone (map placed_segments (pages_of (pdf_canvas st))).

Lemma pages_ok_next (segments : list segment) (max_lines_per_page t : nat)
  (st : place_state) :
  0 < max_lines_per_page ->
  pages_ok segments st ->
  pages_ok segments (next_page segments max_lines_per_page t st).
Proof.
  intros Hmax [Hshown [Hcat Halone]]. unfold pages_ok. simpl.
  rewrite (@pages_of_next (pdf_canvas st) _ Hshown)
    by (apply shown_pages_page_log; assumption).
  rewrite map_app, concat_app. simpl.
  rewrite placed_page_log, app_nil_r, Hcat. split; [|split].
  - right. eexists. reflexivity.
  - rewrite (page_of_prefix max_lines_per_page
               (skipn (current_index st) segments)) at 1.
    apply firstn_skipn_add.
  - apply Forall_app. split; [assumption|].
    constructor; [apply page_of_title_alone|constructor].
Qed.

(** C2 (title-block atomicity): for every segment sequence and every
    positive [max_lines_per_page] the placement loop ends with every
    segment on a finished page, each once and in order, so that a title
    block is drawn whole on one page; and a page that holds a title block
    holds no other segment. *)
Theorem title_block_alone (segments : list segment)
  (max_lines_per_page fuel total_pages_est : nat)
  (hp : list heading_position) :
  0 < max_lines_per_page ->
  length segments < fuel ->
  exists st : place_state,
    place_segments segments max_lines_per_page fuel total_pages_est hp
    = Some st
    /\ concat (map placed_segments (pages_of (pdf_canvas st))) = segments
    /\ forall pg block_lines s,
         In pg (map placed_segments (pages_of (pdf_canvas st))) ->
         In (ForcedTitleBlock block_lines) pg ->
         In s pg ->
         pg = [ForcedTitleBlock block_lines] /\ s = ForcedTitleBlock block_lines.
Proof.
  intros Hmax Hfuel. unfold place_segments.
  destruct (@place_loop_rule segments max_lines_per_page Hmax total_pages_est
              (pages_ok segments)
              (fun st HI _ => @pages_ok_next segments max_lines_per_page
                                total_pages_est st Hmax HI)
              (length segments) (mkPlaceState 1 0 [] hp) fuel fuel)
    as [st [Hrun [[_ [Hcat Halone]] Hidx]]]; simpl; try lia.
  - split; [left; reflexivity|]. split; [reflexivity|constructor].
  - exists st. split; [assumption|]. split.
    + rewrite Hcat, Hidx. apply firstn_all.
    + intros pg block_lines s Hpg Hblock Hs.
      rewrite Forall_forall in Halone.
      pose proof (Halone pg Hpg _ Hblock eq_refl) as Hpage.
      split; [assumption|]. rewrite Hpage in Hs.
      destruct Hs as [Hs|[]]. symmetry. assumption.
Qed.

Lemma title_block_alone_witness :
  exists st : place_state,
    place_segments
      [ head_line "I. A"; ForcedTitleBlock [("T" : str)]; body_line "y" ]
      letter_max_lines_per_page 4 3 []
    = Some st
    /\ concat (map placed_segments (pages_of (pdf_canvas st)))
       = [ head_line "I. A"; ForcedTitleBlock [("T" : str)]; body_line "y" ]
    /\ forall pg block_lines s,
         In pg (map placed_segments (pages_of (pdf_canvas st))) ->
         In (ForcedTitleBlock block_lines) pg ->
         In s pg ->
         pg = [ForcedTitleBlock block_lines] /\ s = ForcedTitleBlock block_lines.
Proof.
  apply (@title_block_alone
           [ head_line "I. A"; ForcedTitleBlock [("T" : str)]; body_line "y" ]
           letter_max_lines_per_page 4 3 []).
  - vm_compute. lia.
  - simpl. lia.
Defined.

Example pages_of_ex :
  option_map (fun st => map placed_segments (pages_of (pdf_canvas st)))
    (place_segments
       [ head_line "I. A"; ForcedTitleBlock [("T" : str)]; body_line "y" ]
       letter_max_lines_per_page 4 3 [])
  = Some [ [head_line "I. A"]; [ForcedTitleBlock [("T" : str)]];
           [body_line "y"] ].
Proof. vm_compute. reflexivity. Qed.

(** ** The title-block scanner *)

(** How the scanner classifies a line that is no [=]-rule. *)
Definition classify_plain (l : str) : scan_item :=
  if is_line_of_dashes l then delimiter_line l else normal_line l.

Definition no_equals (ls : list str) : Prop :=
  Forall (fun l => is_line_of_equals l = false) ls.

Section ScannerFacts.
Variable lines : list str.

Lemma line_at_skipn (k : nat) (l : str) (rest : list str) :
  skipn k lines = l :: rest -> line_at lines k = l.
Proof.
  intros H. apply skipn_cons_inv in H as [Hnth _].
  unfold line_at. apply nth_error_nth. assumption.
Qed.

(** The look-ahead over lines without an [=]-rule runs to the end of the
    range and reports that no bottom rule was found. *)
Lemma scan_block_unterminated (rest : list str) :
  forall (j : nat) (inner_lines : list str) (fuel : nat),
    skipn j lines = rest ->
    no_equals rest ->
    length rest < fuel ->
    while_loop fuel (scan_block_body lines) (j, inner_lines)
    = Some (j + length rest, inner_lines ++ rest, false).
Proof.
  induction rest as [|l rest IH]; intros j inner_lines fuel Hrest Hno Hfuel;
    (destruct fuel as [|fuel]; [simpl in Hfuel; lia|]).
  - apply skipn_nil_inv in Hrest.
    rewrite Nat.add_0_r, app_nil_r.
    apply while_loop_break. unfold scan_block_body.
    replace (j <? length lines) with false
      by (symmetry; apply Nat.ltb_ge; assumption).
    reflexivity.
  - pose proof (line_at_skipn _ Hrest) as Hline.
    apply skipn_cons_inv in Hrest as [_ [Hskip Hlt]].
    apply Forall_cons_iff in Hno as [Hl Hno'].
    rewrite while_loop_continue with (s' := (j + 1, inner_lines ++ [l])).
    + rewrite (IH (j + 1) (inner_lines ++ [l]) fuel Hskip Hno')
        by (simpl in Hfuel; lia).
      simpl length.
      replace (j + S (length rest)) with (j + 1 + length rest) by lia.
      rewrite <- app_assoc. reflexivity.
    + unfold scan_block_body.
      rewrite (proj2 (Nat.ltb_lt _ _) Hlt), Hline, Hl. reflexivity.
Qed.

(** Over lines without an [=]-rule the scanner yields one item a line. *)
Lemma scan_plain_lines (rest : list str) (f2 : nat) :
  forall (i : nat) (yielded : list scan_item) (f1 : nat),
    skipn i lines = rest ->
    no_equals rest ->
    length rest < f1 ->
    while_loop f1 (scan_body lines f2) (i, yielded)
    = Some (yielded ++ map classify_plain rest).
Proof.
  induction rest as [|l rest IH]; intros i yielded f1 Hrest Hno Hfuel;
    (destruct f1 as [|f1]; [simpl in Hfuel; lia|]).
  - apply skipn_nil_inv in Hrest. rewrite app_nil_r.
    apply while_loop_break. unfold scan_body.
    replace (i <? length lines) with false
      by (symmetry; apply Nat.ltb_ge; assumption).
    reflexivity.
  - pose proof (line_at_skipn _ Hrest) as Hline.
    apply skipn_cons_inv in Hrest as [_ [Hskip Hlt]].
    apply Forall_cons_iff in Hno as [Hl Hno'].
    rewrite while_loop_continue
      with (s' := (i + 1, yielded ++ [classify_plain l])).
    + rewrite (IH (i + 1) (yielded ++ [classify_plain l]) f1 Hskip Hno')
        by (simpl in Hfuel; lia).
      simpl. rewrite <- app_assoc. reflexivity.
    + unfold scan_body, classify_plain.
      rewrite (proj2 (Nat.ltb_lt _ _) Hlt), Hline, Hl.
      destruct (is_line_of_dashes l); reflexivity.
Qed.

(** The look-ahead that meets an [=]-rule stops behind it with the lines in
    between. *)
Lemma scan_block_terminated (a : list str) :
  forall (j : nat) (inner_lines : list str) (fuel : nat) (e : str)
         (b : list str),
    skipn j lines = a ++ e :: b ->
    no_equals a ->
    is_line_of_equals e = true ->
    length a < fuel ->
    while_loop fuel (scan_block_body lines) (j, inner_lines)
    = Some (j + length a + 1, inner_lines ++ a, true).
Proof.
  induction a as [|l a IH]; intros j inner_lines fuel e b Hrest Hno He Hfuel;
    (destruct fuel as [|fuel]; [simpl in Hfuel; lia|]).
  - simpl in Hrest. pose proof (line_at_skipn _ Hrest) as Hline.
    apply skipn_cons_inv in Hrest as [_ [_ Hlt]].
    rewrite Nat.add_0_r, app_nil_r.
    apply while_loop_break. unfold scan_block_body.
    rewrite (proj2 (Nat.ltb_lt _ _) Hlt), Hline, He. reflexivity.
  - simpl in Hrest. pose proof (line_at_skipn _ Hrest) as Hline.
    apply skipn_cons_inv in Hrest as [_ [Hskip Hlt]].
    apply Forall_cons_iff in Hno as [Hl Hno'].
    rewrite while_loop_continue with (s' := (j + 1, inner_lines ++ [l])).
    + rewrite (IH (j + 1) (inner_lines ++ [l]) fuel e b Hskip Hno' He)
        by (simpl in Hfuel; lia).
      simpl length.
      replace (j + S (length a) + 1) with (j + 1 + length a + 1) by lia.
      rewrite <- app_assoc. reflexivity.
    + unfold scan_block_body.
      rewrite (proj2 (Nat.ltb_lt _ _) Hlt), Hline, Hl. reflexivity.
Qed.

(** A turn of the scanner at an [=]-rule that nothing closes. *)
Lemma scan_unterminated_turn (i f2 : nat) (yielded : list scan_item) :
  i < length lines ->
  is_line_of_equals (line_at lines i) = true ->
  no_equals (skipn (i + 1) lines) ->
  length lines < f2 ->
  scan_body lines f2 (i, yielded)
  = Some (Continue (i + 1, yielded ++ [delimiter_line (line_at lines i)])).
Proof.
  intros Hlt Heq Hno Hfuel.
  pose proof (length_skipn (i + 1) lines) as Hlen.
  unfold scan_body.
  rewrite (proj2 (Nat.ltb_lt _ _) Hlt), Heq.
  rewrite (@scan_block_unterminated (skipn (i + 1) lines) (i + 1) [] f2
             eq_refl Hno) by lia.
  reflexivity.
Qed.

Lemma scan_unterminated_run (i f1 f2 : nat) (yielded : list scan_item) :
  i < length lines ->
  is_line_of_equals (line_at lines i) = true ->
  no_equals (skipn (i + 1) lines) ->
  length lines - i < f1 ->
  length lines < f2 ->
  while_loop f1 (scan_body lines f2) (i, yielded)
  = Some (yielded ++ delimiter_line (line_at lines i)
            :: map classify_plain (skipn (i + 1) lines)).
Proof.
  intros Hlt Heq Hno Hf1 Hf2.
  pose proof (length_skipn (i + 1) lines) as Hlen.
  destruct f1 as [|f1]; [lia|].
  rewrite while_loop_continue
    with (s' := (i + 1, yielded ++ [delimiter_line (line_at lines i)]))
    by (apply scan_unterminated_turn; assumption).
  rewrite (@scan_plain_lines (skipn (i + 1) lines) f2 (i + 1)
             (yielded ++ [delimiter_line (line_at lines i)]) f1
             eq_refl Hno) by lia.
  rewrite <- app_assoc. reflexivity.
Qed.

End ScannerFacts.

(** *** Lines in which every title block is closed *)

Definition count_equals (ls : list str) : nat :=
  length (filter is_line_of_equals ls).

(** What the scanner yields for lines in which every [=]-rule has its
    partner; [open] holds the lines read since an opening rule. *)
Fixpoint scan_closed (open : option (list str)) (ls : list str)
  : list scan_item :=
  match ls with
  | [] => []
  | l :: ls' =>
      match open with
      | None =>
          if is_line_of_equals l then scan_closed (Some []) ls'
          else classify_plain l :: scan_closed None ls'
      | Some inner_lines =>
          if is_line_of_equals l
          then legal_page_title_block inner_lines :: scan_closed None ls'
          else scan_closed (Some (inner_lines ++ [l])) ls'
      end
  end.

Lemma count_equals_app (a b : list str) :
  count_equals (a ++ b) = count_equals a + count_equals b.
Proof. unfold count_equals. rewrite filter_app, length_app. reflexivity. Qed.

Lemma count_equals_none (a : list str) : no_equals a -> count_equals a = 0.
Proof.
  unfold count_equals. induction 1 as [|l a Hl Ha IH]; simpl; [reflexivity|].
  rewrite Hl. assumption.
Qed.

Lemma first_equals (ls : list str) :
  count_equals ls <> 0 ->
  exists a e b,
    ls = a ++ e :: b /\ no_equals a /\ is_line_of_equals e = true.
Proof.
  induction ls as [|l ls IH]; intros Hc; [exfalso; apply Hc; reflexivity|].
  destruct (is_line_of_equals l) eqn:Hl.
  - exists [], l, ls. repeat split; [constructor|assumption].
  - destruct IH as [a [e [b [Hls [Hno He]]]]].
    + unfold count_equals in *. simpl in Hc. rewrite Hl in Hc. assumption.
    + exists (l :: a), e, b. subst ls. repeat split; try assumption.
      constructor; assumption.
Qed.

Lemma scan_closed_block (a : list str) :
  forall (inner_lines : list str) (e : str) (b : list str),
    no_equals a -> is_line_of_equals e = true ->
    scan_closed (Some inner_lines) (a ++ e :: b)
    = legal_page_title_block (inner_lines ++ a) :: scan_closed None b.
Proof.
  induction a as [|l a IH]; intros inner_lines e b Hno He; simpl.
  - rewrite He, app_nil_r. reflexivity.
  - apply Forall_cons_iff in Hno as [Hl Hno]. rewrite Hl.
    rewrite IH by assumption. rewrite <- app_assoc. reflexivity.
Qed.

(** Over lines [mid] in which every title block is closed, the scanner goes
    from the first of them to the line behind them in at most one turn a
    line, whatever follows them. *)
Lemma scan_balanced (lines : list str) (f2 : nat) :
  length lines < f2 ->
  forall (n : nat) (mid tail : list str) (i : nat)
         (yielded : list scan_item),
    length mid <= n ->
    Nat.even (count_equals mid) = true ->
    skipn i lines = mid ++ tail ->
    exists k,
      k <= length mid
      /\ forall f1,
           while_loop (k + f1) (scan_body lines f2) (i, yielded)
           = while_loop f1 (scan_body lines f2)
               (i + length mid, yielded ++ scan_closed None mid).
Proof.
  intros Hf2. induction n as [|n IH]; intros mid tail i yielded Hn Heven Hrest.
  - destruct mid; [|simpl in Hn; lia]. exists 0. split; [lia|].
    intros f1. simpl. rewrite Nat.add_0_r, app_nil_r. reflexivity.
  - destruct mid as [|l mid].
    { exists 0. split; [lia|]. intros f1. simpl.
      rewrite Nat.add_0_r, app_nil_r. reflexivity. }
    simpl in Hrest. pose proof (line_at_skipn _ _ Hrest) as Hline.
    destruct (skipn_cons_inv _ _ Hrest) as [_ [Hskip Hlt]].
    destruct (is_line_of_equals l) eqn:Hl.
    + assert (Hcount : count_equals (l :: mid) = S (count_equals mid)).
      { unfold count_equals. simpl. rewrite Hl. reflexivity. }
      rewrite Hcount in Heven.
      destruct (@first_equals mid) as [a [e [b [Hmid [Hno He]]]]].
      { intros H0. rewrite H0 in Heven. discriminate. }
      subst mid. rewrite <- app_assoc in Hskip. simpl in Hskip.
      assert (Hb : Nat.even (count_equals b) = true).
      { rewrite count_equals_app, (count_equals_none Hno) in Heven.
        replace (count_equals (e :: b)) with (S (count_equals b)) in Heven
          by (unfold count_equals; simpl; rewrite He; reflexivity).
        exact Heven. }
      assert (Hskipb : skipn (i + 1 + length a + 1) lines = b ++ tail).
      { replace (i + 1 + length a + 1) with (length (a ++ [e]) + (i + 1))
          by (rewrite length_app; simpl; lia).
        rewrite <- skipn_skipn, Hskip.
        replace (a ++ e :: b ++ tail) with ((a ++ [e]) ++ b ++ tail)
          by (rewrite <- app_assoc; reflexivity).
        apply skipn_app_length. }
      destruct (IH b tail (i + 1 + length a + 1)
                  (yielded ++ [legal_page_title_block a]))
        as [k [Hk Hrun]]; try assumption.
      { simpl in Hn. rewrite length_app in Hn. simpl in Hn. lia. }
      exists (S k). split; [simpl; rewrite length_app; simpl; lia|].
      intros f1. simpl Nat.add.
      rewrite while_loop_continue
        with (s' := (i + 1 + length a + 1,
                     yielded ++ [legal_page_title_block a])).
      * rewrite Hrun. simpl scan_closed. rewrite Hl.
        rewrite (@scan_closed_block a [] e b Hno He).
        f_equal. f_equal.
        -- simpl. rewrite length_app. simpl. lia.
        -- rewrite <- app_assoc. reflexivity.
      * unfold scan_body.
        rewrite (proj2 (Nat.ltb_lt _ _) Hlt), Hline, Hl.
        pose proof (f_equal (@length str) Hskip) as Hlen.
        rewrite length_skipn, !length_app in Hlen. simpl in Hlen.
        rewrite (@scan_block_terminated lines a (i + 1) [] f2 e (b ++ tail)
                   Hskip Hno He) by lia.
        reflexivity.
    + assert (Hmid : Nat.even (count_equals mid) = true).
      { replace (count_equals (l :: mid)) with (count_equals mid) in Heven
          by (unfold count_equals; simpl; rewrite Hl; reflexivity).
        exact Heven. }
      destruct (IH mid tail (i + 1) (yielded ++ [classify_plain l]))
        as [k [Hk Hrun]]; try assumption.
      { simpl in Hn. lia. }
      exists (S k). split; [simpl; lia|].
      intros f1. simpl Nat.add.
      rewrite while_loop_continue
        with (s' := (i + 1, yielded ++ [classify_plain l])).
      * rewrite Hrun. simpl scan_closed. rewrite Hl.
        f_equal. f_equal.
        -- simpl. lia.
        -- rewrite <- app_assoc. reflexivity.
      * unfold scan_body, classify_plain.
        rewrite (proj2 (Nat.ltb_lt _ _) Hlt), Hline, Hl.
        destruct (is_line_of_dashes l); reflexivity.
Qed.

(** C9 (unterminated title block): take a line range in which an [=]-rule
    line [l] is followed by no [=]-rule line, and in which every title
    block opened before [l] is closed before it, so that the scanner meets
    [l] as an opening line.  The scan of the range ends without an error,
    and it yields what the lines before [l] yield by themselves, then [l]
    as a bare delimiter, no title block, then one item for each following
    line: a delimiter for a line of dashes and a normal line otherwise. *)
Theorem unterminated_title_block (before after : list str) (l : str)
  (fuel : nat) :
  Nat.even (count_equals before) = true ->
  is_line_of_equals l = true ->
  no_equals after ->
  length (before ++ l :: after) < fuel ->
  exists yielded,
    detect_legal_title_blocks fuel before = Some yielded
    /\ detect_legal_title_blocks fuel (before ++ l :: after)
       = Some (yielded ++ delimiter_line l :: map classify_plain after).
Proof.
  intros Heven Hl Hno Hfuel. rewrite length_app in Hfuel. simpl in Hfuel.
  exists (scan_closed None before).
  unfold detect_legal_title_blocks, scan_from. split.
  - destruct (@scan_balanced before fuel ltac:(lia) (length before)
                before [] 0 [] (le_n _) Heven)
      as [k [Hk Hrun]].
    { rewrite app_nil_r. reflexivity. }
    replace fuel with (k + (fuel - k)) at 1 by lia.
    rewrite Hrun. simpl.
    destruct (fuel - k) as [|f] eqn:Hf; [lia|].
    apply while_loop_break. unfold scan_body.
    rewrite Nat.ltb_irrefl. reflexivity.
  - set (lines := before ++ l :: after).
    assert (Hlen : length lines = length before + S (length after)).
    { unfold lines. rewrite length_app. reflexivity. }
    destruct (@scan_balanced lines fuel ltac:(lia) (length before)
                before (l :: after) 0 [] (le_n _) Heven eq_refl)
      as [k [Hk Hrun]].
    replace fuel with (k + (fuel - k)) at 1 by lia.
    rewrite Hrun. simpl.
    assert (Hat : line_at lines (length before) = l).
    { unfold line_at, lines. rewrite app_nth2, Nat.sub_diag by lia.
      reflexivity. }
    assert (Hskip : skipn (length before + 1) lines = after).
    { unfold lines.
      replace (before ++ l :: after) with ((before ++ [l]) ++ after)
        by (rewrite <- app_assoc; reflexivity).
      replace (length before + 1) with (length (before ++ [l]))
        by (rewrite length_app; reflexivity).
      apply skipn_app_length. }
    rewrite (@scan_unterminated_run lines (length before) (fuel - k) fuel);
      rewrite ?Hat, ?Hskip; try assumption; try lia.
    reflexivity.
Qed.

(** A closed block, then a rule that nothing closes, then two more lines. *)
Lemma unterminated_title_block_witness :
  exists yielded,
    detect_legal_title_blocks 7
      [ ("=====":str); ("TITLE":str); ("=====":str) ]
    = Some yielded
    /\ detect_legal_title_blocks 7
         ([ ("=====":str); ("TITLE":str); ("=====":str) ]
            ++ ("=======":str) :: [ ("tail":str); ("-----":str) ])
       = Some (yielded ++ delimiter_line "======="
                 :: map classify_plain [ ("tail":str); ("-----":str) ]).
Proof.
  apply (@unterminated_title_block
           [ ("=====":str); ("TITLE":str); ("=====":str) ]
           [ ("tail":str); ("-----":str) ] ("=======":str) 7).
  - vm_compute. reflexivity.
  - vm_compute. reflexivity.
  - repeat constructor.
  - simpl. lia.
Defined.

(** ** The table-of-contents filter *)

Definition is_reference (h : heading_position) : bool :=
  is_exhibit_reference (heading_text h).

Definition is_special (h : heading_position) : bool :=
  special_exhibits_match (Py.strip (heading_text h)).

(** Before the first exhibit reference every heading is kept. *)
Lemma toc_before_reference (pre : list heading_position) :
  forall acc,
    Forall (fun h => is_reference h = false) pre ->
    fold_left toc_step pre (mkTocState acc false false)
    = mkTocState (acc ++ pre) false false.
Proof.
  induction pre as [|h pre IH]; intros acc Hpre; simpl.
  - rewrite app_nil_r. reflexivity.
  - apply Forall_cons_iff in Hpre as [Hh Hpre].
    unfold toc_step at 2. simpl. unfold is_reference in Hh. rewrite Hh.
    rewrite IH by assumption. rewrite <- app_assoc. reflexivity.
Qed.

(** After it, and before the special section, every heading is dropped. *)
Lemma toc_suppressed (mid : list heading_position) :
  forall acc,
    Forall (fun h => is_special h = false) mid ->
    fold_left toc_step mid (mkTocState acc true false)
    = mkTocState acc true false.
Proof.
  induction mid as [|h mid IH]; intros acc Hmid; simpl.
  - reflexivity.
  - apply Forall_cons_iff in Hmid as [Hh Hmid].
    unfold toc_step at 2. simpl. unfold is_special in Hh. rewrite Hh.
    apply IH. assumption.
Qed.

(** In the special section every heading is kept. *)
Lemma toc_special_section (rest : list heading_position) :
  forall acc found,
    fold_left toc_step rest (mkTocState acc found true)
    = mkTocState (acc ++ rest) found true.
Proof.
  induction rest as [|h rest IH]; intros acc found; simpl.
  - rewrite app_nil_r. reflexivity.
  - unfold toc_step at 2. simpl. rewrite IH, <- app_assoc. reflexivity.
Qed.

(** The headings of the example, with coordinates. *)
Definition toc_example : list heading_position :=
  [ (("I. Intro" : str), 1, 1, false);
    (("EXHIBIT 1: Photo" : str), 2, 40, false);
    (("II. Random" : str), 2, 60, true);
    (("SPECIAL EXHIBITS" : str), 3, 75, false);
    (("III. Ledger" : str), 4, 110, false) ].

(** C6 (TOC filtering): let [pre] hold no exhibit reference, let [e] be one
    and let [mid] hold no heading that is "SPECIAL EXHIBITS" once trimmed
    and compared without case.  Then [pre] alone is kept as it is; of
    [pre ++ e :: mid] exactly [pre] and [e] are kept; and when [s] is such a
    special heading, of [pre ++ e :: mid ++ s :: rest] exactly [pre], [e],
    [s] and all of [rest] are kept.  The example list filters to itself
    without "II. Random". *)
Theorem toc_filtering (pre mid rest : list heading_position)
  (e s : heading_position) :
  Forall (fun h => is_reference h = false) pre ->
  is_reference e = true ->
  Forall (fun h => is_special h = false) mid ->
  is_special s = true ->
  filter_headings_for_toc pre = pre
  /\ filter_headings_for_toc (pre ++ e :: mid) = pre ++ [e]
  /\ filter_headings_for_toc (pre ++ e :: mid ++ s :: rest)
     = pre ++ e :: s :: rest
  /\ map heading_text (filter_headings_for_toc toc_example)
     = [ ("I. Intro" : str); ("EXHIBIT 1: Photo" : str);
         ("SPECIAL EXHIBITS" : str); ("III. Ledger" : str) ].
Proof.
  intros Hpre He Hmid Hs. unfold filter_headings_for_toc.
  assert (Hafter : fold_left toc_step [e] (mkTocState pre false false)
                   = mkTocState (pre ++ [e]) true false).
  { simpl. unfold toc_step. simpl. unfold is_reference in He. rewrite He.
    reflexivity. }
  split; [|split; [|split]].
  - rewrite (toc_before_reference [] Hpre). reflexivity.
  - rewrite fold_left_app, (toc_before_reference [] Hpre).
    change (e :: mid) with ([e] ++ mid).
    rewrite fold_left_app. simpl app at 1. rewrite Hafter.
    rewrite (toc_suppressed _ Hmid). reflexivity.
  - rewrite fold_left_app, (toc_before_reference [] Hpre).
    change (e :: mid ++ s :: rest) with ([e] ++ mid ++ [s] ++ rest).
    rewrite !fold_left_app. simpl app at 1. rewrite Hafter.
    rewrite (toc_suppressed _ Hmid).
    assert (Hspecial :
      fold_left toc_step [s] (mkTocState (pre ++ [e]) true false)
      = mkTocState ((pre ++ [e]) ++ [s]) true true).
    { simpl. unfold toc_step. simpl. unfold is_special in Hs. rewrite Hs.
      reflexivity. }
    rewrite Hspecial, toc_special_section. simpl.
    rewrite <- !app_assoc. reflexivity.
  - vm_compute. reflexivity.
Qed.

(** The example, through the general statement. *)
Lemma toc_filtering_witness :
  filter_headings_for_toc toc_example
  = [ (("I. Intro" : str), 1, 1, false);
      (("EXHIBIT 1: Photo" : str), 2, 40, false);
      (("SPECIAL EXHIBITS" : str), 3, 75, false);
      (("III. Ledger" : str), 4, 110, false) ].
Proof.
  refine (proj1 (proj2 (proj2
    (@toc_filtering
       [ (("I. Intro" : str), 1, 1, false) ]
       [ (("II. Random" : str), 2, 60, true) ]
       [ (("III. Ledger" : str), 4, 110, false) ]
       (("EXHIBIT 1: Photo" : str), 2, 40, false)
       (("SPECIAL EXHIBITS" : str), 3, 75, false) _ _ _ _)))).
  - repeat constructor.
  - vm_compute. reflexivity.
  - repeat constructor.
  - vm_compute. reflexivity.
Defined.

(** ** Heading classification at the boundary *)

(** The sections and the styles obtained from a text. *)
Definition parse_and_classify (raw_text : str)
  : odict str * option (odict heading_style) :=
  let sections := snd (parse_header_and_sections raw_text) in
  (sections, classify_headings sections).

Definition boundary_text_as_claimed : str :=
  Py.join [Py.nl]
    [ ("1. Intro" : str); ("1.2. Damages" : str); ("1.2.3 Sub" : str) ].

Definition boundary_text_dotted : str :=
  Py.join [Py.nl]
    [ ("1. Intro" : str); ("1.2. Damages" : str); ("1.2.3. Sub" : str) ].

(** C5 as stated fails: the line "1.2.3 Sub" opens no section, so nothing
    is classified as a subsection; the line is body text of the section
    before it. *)
Lemma no_subsection_without_final_dot :
  parse_and_classify boundary_text_as_claimed
  = ( [ (("1 Intro" : str), []);
        (("1.2 Damages" : str), ("1.2.3 Sub" : str)) ],
      Some [ (("1 Intro" : str), section_style);
             (("1.2 Damages" : str), section_style) ] ).
Proof. vm_compute. reflexivity. Qed.

(** C5, amended (heading classification): the heading lines "1. Intro" and
    "1.2. Damages" give the keys "1 Intro" and "1.2 Damages", the final dot
    of the number stripped, both classified as sections; written with a
    dot after its last number, "1.2.3. Sub" gives the key "1.2.3 Sub"
    classified as a subsection.  A key is a subsection exactly when its
    first word holds more than one dot.  The line "1.2.3 Sub" matches none
    of the three heading triggers: in every state of the section loop it
    is appended to the body of the current section. *)
Theorem heading_classification_boundary :
  parse_and_classify boundary_text_dotted
  = ( [ (("1 Intro" : str), []); (("1.2 Damages" : str), []);
        (("1.2.3 Sub" : str), []) ],
      Some [ (("1 Intro" : str), section_style);
             (("1.2 Damages" : str), section_style);
             (("1.2.3 Sub" : str), subsection_style) ] )
  /\ (forall (styles : odict heading_style) (key number : str)
             (more : list str),
         Py.split_first key = number :: more ->
         classify_step (Some styles) key
         = Some (od_set key
                   (if 1 <? Py.count_char Py.dot number
                    then subsection_style else section_style)
                   styles))
  /\ (forall st : section_state,
         section_step st "1.2.3 Sub"
         = mkSectionState (sections_od st) (current_heading_key st)
             (current_body_lines st ++ [("1.2.3 Sub" : str)]))
  /\ (forall header_lines rest,
         header_loop (("1.2.3 Sub" : str) :: rest) header_lines
         = header_loop rest (header_lines ++ [("1.2.3 Sub" : str)])).
Proof.
  split; [vm_compute; reflexivity|]. split; [|split].
  - intros styles key number more Hkey. unfold classify_step.
    rewrite Hkey. destruct (1 <? Py.count_char Py.dot number); reflexivity.
  - intros st. reflexivity.
  - intros header_lines rest. reflexivity.
Qed.

Lemma heading_classification_boundary_witness :
  classify_step (Some []) "1.2.3 Sub"
  = Some [ (("1.2.3 Sub" : str), subsection_style) ].
Proof.
  refine (proj1 (proj2 heading_classification_boundary)
            [] ("1.2.3 Sub" : str) ("1.2.3" : str) [("Sub" : str)] _).
  vm_compute. reflexivity.
Defined.

(** ** Decimal strings *)

Lemma digits_value (s : str) :
  forall a : nat,
    fold_left (fun acc c => 10 * acc + (Py.code c - 48)) s a
    = a * 10 ^ length s + Py.value_of_digits s.
Proof.
  unfold Py.value_of_digits.
  induction s as [|c s IH]; intros a; cbn [fold_left length].
  - simpl. lia.
  - rewrite (IH (10 * a + (Py.code c - 48))).
    rewrite (IH (10 * 0 + (Py.code c - 48))).
    rewrite Nat.pow_succ_r'. nia.
Qed.

Lemma code_digit_char (d : nat) : d < 10 -> Py.code (Py.digit_char d) - 48 = d.
Proof.
  intros H. unfold Py.code, Py.digit_char.
  rewrite nat_ascii_embedding by lia. lia.
Qed.

Lemma str_of_nat_fuel_S (fuel n : nat) (acc : str) :
  Py.str_of_nat_fuel (S fuel) n acc
  = if n <? 10 then Py.digit_char (n mod 10) :: acc
    else Py.str_of_nat_fuel fuel (n / 10) (Py.digit_char (n mod 10) :: acc).
Proof. reflexivity. Qed.

Lemma int_of_str_fuel (fuel : nat) :
  forall (n : nat) (acc : str),
    n < fuel ->
    Py.value_of_digits (Py.str_of_nat_fuel fuel n acc)
    = n * 10 ^ length acc + Py.value_of_digits acc.
Proof.
  induction fuel as [|fuel IH]; intros n acc Hn; [lia|].
  rewrite str_of_nat_fuel_S.
  assert (Hcons : Py.value_of_digits (Py.digit_char (n mod 10) :: acc)
                  = (n mod 10) * 10 ^ length acc + Py.value_of_digits acc).
  { unfold Py.value_of_digits at 1. cbn [fold_left].
    rewrite digits_value, code_digit_char; [lia|].
    apply Nat.mod_upper_bound. lia. }
  destruct (n <? 10) eqn:Hlt.
  - apply Nat.ltb_lt in Hlt. rewrite Hcons, Nat.mod_small by assumption.
    reflexivity.
  - apply Nat.ltb_ge in Hlt.
    rewrite IH.
    + rewrite Hcons. simpl length. rewrite Nat.pow_succ_r'.
      pose proof (Nat.div_mod_eq n 10) as Hdm. nia.
    + pose proof (Nat.div_mod_eq n 10) as Hdm. lia.
Qed.

(** [int(str(n)) = n]. *)
Lemma int_of_str (n : nat) : Py.value_of_digits (Py.str_of_nat n) = n.
Proof.
  unfold Py.str_of_nat. rewrite int_of_str_fuel by lia.
  change (Py.value_of_digits []) with 0. cbn [length].
  rewrite Nat.pow_0_r. lia.
Qed.

Lemma str_of_nat_inj (n m : nat) : Py.str_of_nat n = Py.str_of_nat m -> n = m.
Proof.
  intros H. rewrite <- (int_of_str n), <- (int_of_str m), H. reflexivity.
Qed.

(** ** Ordered dictionaries *)

Lemma str_eqb_eq (a b : str) : Py.str_eqb a b = true <-> a = b.
Proof.
  unfold Py.str_eqb. destruct (list_eq_dec ascii_dec a b); split;
    congruence.
Qed.

Lemma str_eqb_neq (a b : str) : Py.str_eqb a b = false <-> a <> b.
Proof.
  unfold Py.str_eqb. destruct (list_eq_dec ascii_dec a b); split;
    congruence.
Qed.

Lemma od_set_fresh {V : Type} (k : str) (v : V) (od : odict V) :
  ~ In k (od_keys od) -> od_set k v od = od ++ [(k, v)].
Proof.
  induction od as [|[k' v'] od IH]; intros Hk; simpl in *.
  - reflexivity.
  - destruct (Py.str_eqb k k') eqn:E.
    + apply str_eqb_eq in E. subst. tauto.
    + rewrite IH by tauto. reflexivity.
Qed.

Lemma od_get_in {V : Type} (k : str) (od : odict V) :
  In k (od_keys od) -> exists v, od_get k od = Some v.
Proof.
  induction od as [|[k' v'] od IH]; intros Hk; simpl in *; [tauto|].
  destruct (Py.str_eqb k k') eqn:E; [eauto|].
  apply str_eqb_neq in E. destruct Hk as [Hk|Hk]; [congruence|auto].
Qed.

Lemma od_get_set {V : Type} (k k' : str) (v : V) (od : odict V) :
  od_get k (od_set k' v od)
  = if Py.str_eqb k k' then Some v else od_get k od.
Proof.
  induction od as [|[k2 v2] od IH]; simpl.
  - reflexivity.
  - destruct (Py.str_eqb k' k2) eqn:E2; simpl.
    + apply str_eqb_eq in E2. subst k2.
      destruct (Py.str_eqb k k'); reflexivity.
    + rewrite IH. destruct (Py.str_eqb k k2) eqn:E1; [|reflexivity].
      apply str_eqb_eq in E1. subst k2.
      destruct (Py.str_eqb k k') eqn:E3; [|reflexivity].
      apply str_eqb_eq in E3. subst k'.
      apply str_eqb_neq in E2. congruence.
Qed.

(** ** The stable sort *)

Lemma insert_by_in {A : Type} (key : A -> Z) (x y : A) (l : list A) :
  In y (insert_by key x l) <-> y = x \/ In y l.
Proof.
  induction l as [|z l IH]; simpl.
  - intuition.
  - destruct (Z.ltb (key x) (key z)); simpl; rewrite ?IH; intuition.
Qed.

Lemma insert_by_length {A : Type} (key : A -> Z) (x : A) (l : list A) :
  length (insert_by key x l) = S (length l).
Proof.
  induction l as [|z l IH]; simpl; [reflexivity|].
  destruct (Z.ltb (key x) (key z)); simpl; [reflexivity|].
  rewrite IH. reflexivity.
Qed.

Lemma insert_by_sorted {A : Type} (key : A -> Z) (x : A) (l : list A) :
  StronglySorted Z.le (map key l) ->
  StronglySorted Z.le (map key (insert_by key x l)).
Proof.
  induction l as [|z l IH]; intros Hs; simpl.
  - constructor; constructor.
  - inversion Hs as [|? ? Hs' Hz]; subst.
    destruct (Z.ltb (key x) (key z)) eqn:E.
    + apply Z.ltb_lt in E. simpl. constructor; [assumption|].
      constructor; [lia|].
      apply Forall_impl with (P := Z.le (key z)); [intros; lia|assumption].
    + apply Z.ltb_ge in E. simpl. constructor; [apply IH; assumption|].
      apply Forall_forall. intros k Hk. apply in_map_iff in Hk as [y [Hy Hin]].
      subst k. apply insert_by_in in Hin as [Hin|Hin]; [subst; assumption|].
      rewrite Forall_forall in Hz. apply Hz. apply in_map. assumption.
Qed.

Lemma filter_nothing {A : Type} (f : A -> bool) (l : list A) :
  (forall x, In x l -> f x = false) -> filter f l = [].
Proof.
  induction l as [|x l IH]; intros H; [reflexivity|].
  cbn [filter]. rewrite (H x (or_introl eq_refl)).
  apply IH. intros y Hy. apply H. right. assumption.
Qed.

(** The elements with the key [z], in their order. *)
Definition with_key {A : Type} (key : A -> Z) (z : Z) (l : list A)
  : list A :=
  filter (fun y => Z.eqb (key y) z) l.

Lemma with_key_app {A : Type} (key : A -> Z) (z : Z) (a b : list A) :
  with_key key z (a ++ b) = with_key key z a ++ with_key key z b.
Proof. apply filter_app. Qed.

(** The insertion is stable: the new element goes behind the elements of
    its own key. *)
Lemma insert_by_stable {A : Type} (key : A -> Z) (x : A) (z : Z)
  (l : list A) :
  StronglySorted Z.le (map key l) ->
  with_key key z (insert_by key x l) = with_key key z (l ++ [x]).
Proof.
  unfold with_key.
  induction l as [|y l IH]; intros Hs; [reflexivity|].
  inversion Hs as [|? ? Hs' Hy]; subst.
  cbn [insert_by]. destruct (Z.ltb (key x) (key y)) eqn:E.
  - apply Z.ltb_lt in E. rewrite filter_app. cbn [filter].
    destruct (Z.eqb (key x) z) eqn:Ex; [|rewrite app_nil_r; reflexivity].
    apply Z.eqb_eq in Ex.
    assert (Hnone : filter (fun y0 => Z.eqb (key y0) z) (y :: l) = []).
    { apply filter_nothing. intros y0 Hy0. apply Z.eqb_neq.
      destruct Hy0 as [Hy0|Hy0]; [subst y0; lia|].
      rewrite Forall_forall in Hy.
      pose proof (Hy (key y0) (in_map key _ _ Hy0)). lia. }
    cbn [filter] in Hnone. rewrite Hnone. reflexivity.
  - cbn [app filter]. rewrite (IH Hs'). reflexivity.
Qed.

Lemma sorted_by_facts {A : Type} (key : A -> Z) (l : list A) :
  forall acc,
    StronglySorted Z.le (map key acc) ->
    StronglySorted Z.le
      (map key (fold_left (fun a x => insert_by key x a) l acc))
    /\ (forall y, In y (fold_left (fun a x => insert_by key x a) l acc)
                  <-> In y acc \/ In y l)
    /\ length (fold_left (fun a x => insert_by key x a) l acc)
       = length acc + length l
    /\ (forall z,
           with_key key z (fold_left (fun a x => insert_by key x a) l acc)
           = with_key key z (acc ++ l)).
Proof.
  induction l as [|x l IH]; intros acc Hacc; cbn [fold_left].
  - rewrite app_nil_r. cbn [In length].
    repeat split; try assumption; try tauto; try lia.
  - destruct (IH (insert_by key x acc) (insert_by_sorted key x acc Hacc))
      as [Hs [Hin [Hlen Hst]]].
    split; [assumption|]. split; [|split].
    + intros y. rewrite Hin, insert_by_in. cbn [In]. intuition.
    + rewrite Hlen, insert_by_length. cbn [length]. lia.
    + intros z. rewrite Hst, with_key_app.
      rewrite (@insert_by_stable A key x z acc Hacc), <- with_key_app.
      rewrite <- app_assoc. reflexivity.
Qed.

(** The keys are computed, or the key function fails on an element. *)
Lemma keyed_some {A : Type} (key : A -> option Z) (xs : list A) :
  Forall (fun x => key x <> None) xs ->
  exists decorated,
    keyed key xs = Some decorated
    /\ map snd decorated = xs
    /\ Forall (fun p => key (snd p) = Some (fst p)) decorated.
Proof.
  induction 1 as [|x xs Hx Hxs [dec [Hk [Hsnd Hfst]]]].
  - exists []. repeat split. constructor.
  - destruct (key x) as [z|] eqn:Hz; [|congruence].
    exists ((z, x) :: dec). cbn [keyed]. rewrite Hz, Hk.
    split; [reflexivity|]. split.
    + cbn [map snd]. rewrite Hsnd. reflexivity.
    + constructor; assumption.
Qed.

Lemma keyed_none {A : Type} (key : A -> option Z) (xs : list A) :
  Exists (fun x => key x = None) xs -> keyed key xs = None.
Proof.
  induction 1 as [x xs Hx|x xs Hxs IH]; cbn [keyed].
  - rewrite Hx. reflexivity.
  - rewrite IH. destruct (key x); reflexivity.
Qed.

(** The elements whose key is the number [z], in their order. *)
Definition numbered {A : Type} (key : A -> option Z) (z : Z) (l : list A)
  : list A :=
  filter (fun x => match key x with
                   | Some z' => Z.eqb z' z
                   | None => false
                   end) l.

Lemma with_key_numbered {A : Type} (key : A -> option Z) (z : Z)
  (decorated : list (Z * A)) :
  Forall (fun p => key (snd p) = Some (fst p)) decorated ->
  map snd (with_key fst z decorated) = numbered key z (map snd decorated).
Proof.
  unfold with_key, numbered.
  induction 1 as [|[z' x] dec Hp Hdec IH]; [reflexivity|].
  cbn [filter map fst snd] in *. rewrite Hp.
  destruct (Z.eqb z' z); cbn [map snd]; rewrite IH; reflexivity.
Qed.

(** [sorted] with a key that fails nowhere: a rearrangement of the
    elements, ascending in the key, in which elements of the same key keep
    their order. *)
Lemma sorted_by_spec {A : Type} (key : A -> option Z) (xs : list A) :
  Forall (fun x => key x <> None) xs ->
  exists sorted,
    sorted_by key xs = Some sorted
    /\ (forall x, In x sorted <-> In x xs)
    /\ length sorted = length xs
    /\ (exists numbers,
           Forall2 (fun x z => key x = Some z) sorted numbers
           /\ StronglySorted Z.le numbers)
    /\ (forall z, numbered key z sorted = numbered key z xs).
Proof.
  intros Hall.
  destruct (@keyed_some A key xs Hall) as [dec [Hk [Hsnd Hfst]]].
  destruct (sorted_by_facts (@fst Z A) dec [] (SSorted_nil Z.le))
    as [Hs [Hin [Hlen Hst]]].
  set (out := fold_left (fun a p => insert_by fst p a) dec []) in *.
  assert (Hout : Forall (fun p => key (snd p) = Some (fst p)) out).
  { apply Forall_forall. intros p Hp. apply Hin in Hp as [[]|Hp].
    apply (proj1 (Forall_forall _ _) Hfst). assumption. }
  exists (map snd out). unfold sorted_by. rewrite Hk. fold out.
  split; [reflexivity|]. split; [|split; [|split]].
  - intros x. rewrite <- Hsnd, !in_map_iff. split.
    + intros [p [Hp Hpin]]. exists p. split; [assumption|].
      apply Hin in Hpin as [[]|Hpin]. assumption.
    + intros [p [Hp Hpin]]. exists p. split; [assumption|].
      apply Hin. right. assumption.
  - rewrite length_map, Hlen, <- Hsnd, length_map. reflexivity.
  - exists (map fst out). split; [|assumption].
    clear - Hout. induction Hout as [|p l Hp Hl IH]; constructor; assumption.
  - intros z. rewrite <- (@with_key_numbered A key z out Hout), Hst.
    cbn [app]. rewrite (@with_key_numbered A key z dec Hfst), Hsnd. reflexivity.
Qed.

Lemma sorted_by_none {A : Type} (key : A -> option Z) (xs : list A) :
  Exists (fun x => key x = None) xs -> sorted_by key xs = None.
Proof.
  intros H. unfold sorted_by. rewrite (@keyed_none A key xs H). reflexivity.
Qed.

(** ** Exhibits *)

(** The caption stored under each new key. *)
Definition captions (out : odict exhibit_entry) : list (option str) :=
  map (fun e => Some (caption (snd e))) out.

Lemma renumber_fold (text_exhibits_od : odict str) (keys : list str) :
  forall (out : odict exhibit_entry) (j : nat),
    (forall k, In k keys -> In k (od_keys text_exhibits_od)) ->
    od_keys out = map Py.str_of_nat (seq 1 j) ->
    exists out',
      fold_left (renumber_step text_exhibits_od) keys (Some (out, S j))
      = Some (out', S (j + length keys))
      /\ od_keys out' = map Py.str_of_nat (seq 1 (j + length keys))
      /\ captions out'
         = captions out ++ map (fun k => od_get k text_exhibits_od) keys.
Proof.
  induction keys as [|k keys IH]; intros out j Hin Hout; simpl.
  - exists out. rewrite Nat.add_0_r, app_nil_r. auto.
  - destruct (od_get_in k text_exhibits_od (Hin k (or_introl eq_refl)))
      as [text Htext].
    rewrite Htext.
    assert (Hfresh : ~ In (Py.str_of_nat (S j)) (od_keys out)).
    { rewrite Hout. intros H. apply in_map_iff in H as [m [Hm Hseq]].
      apply str_of_nat_inj in Hm. apply in_seq in Hseq. lia. }
    rewrite (od_set_fresh _ _ _ Hfresh).
    replace (j + 1) with (S j) by lia.
    destruct (IH (out ++ [(Py.str_of_nat (S j), mkExhibit text [])]) (S j))
      as [out' [Hfold [Hkeys Hcap]]].
    + intros k' Hk'. apply Hin. right. assumption.
    + unfold od_keys in *. rewrite map_app, Hout.
      rewrite seq_S, map_app. reflexivity.
    + exists out'. split; [|split].
      * rewrite Hfold. f_equal. f_equal. lia.
      * rewrite Hkeys. f_equal. f_equal. lia.
      * rewrite Hcap. unfold captions. rewrite map_app, <- app_assoc.
        simpl. reflexivity.
Qed.

(** What the exhibit loop preserves: a stored number is a seen number. *)
Definition stored_seen (st : exhibit_state) : Prop :=
  forall k v, od_get k (exhibits st) = Some v ->
              seen k (seen_exhibits st) = true.

Lemma seen_cons (k k' : str) (l : list str) :
  seen k (k' :: l) = Py.str_eqb k k' || seen k l.
Proof. reflexivity. Qed.

(** Closing the open exhibit leaves every stored exhibit as it is. *)
Lemma close_exhibit_keeps (st : exhibit_state) (k v : str) :
  stored_seen st ->
  od_get k (exhibits st) = Some v ->
  od_get k (fst (close_exhibit st)) = Some v.
Proof.
  intros Hinv Hk. unfold close_exhibit.
  destruct (current_exhibit_number st) as [c|]; [|assumption].
  destruct (seen c (seen_exhibits st)) eqn:Hc; simpl; [assumption|].
  rewrite od_get_set. destruct (Py.str_eqb k c) eqn:E; [|assumption].
  apply str_eqb_eq in E. subst c.
  rewrite (Hinv k v Hk) in Hc. discriminate.
Qed.

Lemma close_exhibit_stored_seen (st : exhibit_state) :
  stored_seen st ->
  forall k v, od_get k (fst (close_exhibit st)) = Some v ->
              seen k (snd (close_exhibit st)) = true.
Proof.
  intros Hinv k v. unfold close_exhibit.
  destruct (current_exhibit_number st) as [c|]; [|apply Hinv].
  destruct (seen c (seen_exhibits st)) eqn:Hc; cbn [negb fst snd];
    [apply Hinv|].
  rewrite od_get_set, seen_cons.
  destruct (Py.str_eqb k c); [reflexivity|]. simpl. apply Hinv.
Qed.

Lemma exhibit_step_keeps (st : exhibit_state) (line k v : str) :
  stored_seen st ->
  od_get k (exhibits st) = Some v ->
  stored_seen (exhibit_step st line)
  /\ od_get k (exhibits (exhibit_step st line)) = Some v.
Proof.
  intros Hinv Hk. unfold exhibit_step.
  destruct (exhibit_pattern_match line) as [[number start_text]|].
  - pose proof (@close_exhibit_keeps st k v Hinv Hk) as Hkeep.
    pose proof (@close_exhibit_stored_seen st Hinv) as Hseen.
    destruct (close_exhibit st) as [exhibits' seen']. simpl in *.
    destruct (seen number seen'); simpl; split; assumption.
  - destruct (current_exhibit_number st); simpl; split; assumption.
Qed.

Lemma exhibit_steps_keep (lines : list str) :
  forall (st : exhibit_state) (k v : str),
    stored_seen st ->
    od_get k (exhibits st) = Some v ->
    stored_seen (fold_left exhibit_step lines st)
    /\ od_get k (exhibits (fold_left exhibit_step lines st)) = Some v.
Proof.
  induction lines as [|l lines IH]; intros st k v Hinv Hk; simpl.
  - split; assumption.
  - destruct (@exhibit_step_keeps st l k v Hinv Hk) as [Hinv' Hk'].
    apply IH; assumption.
Qed.

Lemma exhibit_steps_stored_seen (lines : list str) :
  forall st, stored_seen st -> stored_seen (fold_left exhibit_step lines st).
Proof.
  induction lines as [|l lines IH]; intros st Hinv; simpl; [assumption|].
  apply IH. unfold exhibit_step.
  destruct (exhibit_pattern_match l) as [[number start_text]|].
  - pose proof (@close_exhibit_stored_seen st Hinv) as Hseen.
    destruct (close_exhibit st) as [exhibits' seen']. simpl in *.
    destruct (seen number seen'); assumption.
  - destruct (current_exhibit_number st); assumption.
Qed.

(** * Further properties of the code *)

(** ** The scanner as one pass *)

(** The scan as a single pass over the lines: [open] holds the opening rule
    and the lines read since; at the end of the range a block still open
    falls back to a delimiter and ordinary lines. *)
Fixpoint scan_pass (open : option (str * list str)) (ls : list str)
  : list scan_item :=
  match ls with
  | [] =>
      match open with
      | None => []
      | Some (opener, inner_lines) =>
          delimiter_line opener :: map classify_plain inner_lines
      end
  | l :: ls' =>
      match open with
      | None =>
          if is_line_of_equals l then scan_pass (Some (l, [])) ls'
          else classify_plain l :: scan_pass None ls'
      | Some (opener, inner_lines) =>
          if is_line_of_equals l
          then legal_page_title_block inner_lines :: scan_pass None ls'
          else scan_pass (Some (opener, inner_lines ++ [l])) ls'
      end
  end.

Lemma count_equals_cons (l : str) (ls : list str) :
  count_equals (l :: ls)
  = (if is_line_of_equals l then 1 else 0) + count_equals ls.
Proof.
  unfold count_equals. simpl. destruct (is_line_of_equals l); reflexivity.
Qed.

Lemma scan_pass_closed (a : list str) :
  forall b,
    (Nat.even (count_equals a) = true ->
     scan_pass None (a ++ b) = scan_closed None a ++ scan_pass None b)
    /\ (forall opener inner_lines,
           Nat.even (count_equals a) = false ->
           scan_pass (Some (opener, inner_lines)) (a ++ b)
           = scan_closed (Some inner_lines) a ++ scan_pass None b).
Proof.
  induction a as [|l a IH]; intros b.
  - split; [reflexivity|]. intros opener inner_lines H. discriminate.
  - destruct (IH b) as [IHeven IHodd].
    rewrite count_equals_cons. simpl app. simpl scan_pass. simpl scan_closed.
    destruct (is_line_of_equals l) eqn:Hl.
    + change (1 + count_equals a) with (S (count_equals a)).
      rewrite Nat.even_succ, <- Nat.negb_even. split.
      * intros H. apply negb_true_iff in H. apply IHodd. assumption.
      * intros opener inner_lines H. apply negb_false_iff in H.
        rewrite IHeven by assumption. reflexivity.
    + simpl Nat.add. split.
      * intros H. rewrite IHeven by assumption. reflexivity.
      * intros opener inner_lines H. apply IHodd. assumption.
Qed.

Lemma scan_pass_unterminated (after : list str) :
  forall opener inner_lines,
    no_equals after ->
    scan_pass (Some (opener, inner_lines)) after
    = delimiter_line opener :: map classify_plain (inner_lines ++ after).
Proof.
  induction after as [|l after IH]; intros opener inner_lines Hno; simpl.
  - rewrite app_nil_r. reflexivity.
  - apply Forall_cons_iff in Hno as [Hl Hno]. rewrite Hl.
    rewrite IH by assumption. rewrite <- app_assoc. reflexivity.
Qed.

Lemma count_equals_zero (ls : list str) : count_equals ls = 0 -> no_equals ls.
Proof.
  induction ls as [|l ls IH]; intros H; [constructor|].
  rewrite count_equals_cons in H.
  destruct (is_line_of_equals l) eqn:Hl; [discriminate|].
  constructor; [assumption|apply IH; assumption].
Qed.

(** The last [=]-rule of a range that has one. *)
Lemma last_equals (ls : list str) :
  count_equals ls <> 0 ->
  exists before l after,
    ls = before ++ l :: after
    /\ is_line_of_equals l = true /\ no_equals after.
Proof.
  induction ls as [|x ls IH]; intros Hc; [exfalso; apply Hc; reflexivity|].
  destruct (Nat.eq_dec (count_equals ls) 0) as [Hz|Hnz].
  - exists [], x, ls. split; [reflexivity|].
    split; [|apply count_equals_zero; assumption].
    rewrite count_equals_cons, Hz in Hc.
    destruct (is_line_of_equals x); [reflexivity|]. exfalso. apply Hc.
    reflexivity.
  - destruct (IH Hnz) as [before [l [after [Hls [Hl Hno]]]]].
    exists (x :: before), l, after. subst ls. auto.
Qed.

(** The scanner ends on every range, with the items of the single pass. *)
Lemma detect_is_scan_pass (lines : list str) (fuel : nat) :
  length lines < fuel ->
  detect_legal_title_blocks fuel lines = Some (scan_pass None lines).
Proof.
  intros Hfuel. unfold detect_legal_title_blocks, scan_from.
  destruct (Nat.even (count_equals lines)) eqn:Heven.
  - destruct (@scan_balanced lines fuel Hfuel (length lines) lines [] 0 []
                (le_n _) Heven) as [k [Hk Hrun]].
    { rewrite app_nil_r. reflexivity. }
    replace fuel with (k + (fuel - k)) at 1 by lia.
    rewrite Hrun. simpl.
    destruct (fuel - k) as [|f] eqn:Hf; [lia|].
    rewrite while_loop_break with (r := scan_closed None lines).
    + destruct (scan_pass_closed lines []) as [H _].
      rewrite app_nil_r in H. rewrite H by assumption.
      simpl. rewrite app_nil_r. reflexivity.
    + unfold scan_body. rewrite Nat.ltb_irrefl. reflexivity.
  - destruct (@last_equals lines) as [before [l [after [Hls [Hl Hno]]]]].
    { intros Hz. rewrite Hz in Heven. discriminate. }
    assert (Hbefore : Nat.even (count_equals before) = true).
    { rewrite Hls, count_equals_app, count_equals_cons, Hl in Heven.
      rewrite (count_equals_none Hno) in Heven.
      replace (count_equals before + (1 + 0)) with (S (count_equals before))
        in Heven by lia.
      rewrite Nat.even_succ, <- Nat.negb_even in Heven.
      apply negb_false_iff in Heven. assumption. }
    assert (Hlen : length lines = length before + S (length after)).
    { rewrite Hls, length_app. reflexivity. }
    destruct (@scan_balanced lines fuel Hfuel (length before) before
                (l :: after) 0 [] (le_n _) Hbefore)
      as [k [Hk Hrun]].
    { rewrite Hls. reflexivity. }
    replace fuel with (k + (fuel - k)) at 1 by lia.
    rewrite Hrun. simpl.
    assert (Hat : line_at lines (length before) = l).
    { unfold line_at. rewrite Hls, app_nth2, Nat.sub_diag by lia.
      reflexivity. }
    assert (Hskip : skipn (length before + 1) lines = after).
    { rewrite Hls.
      replace (before ++ l :: after) with ((before ++ [l]) ++ after)
        by (rewrite <- app_assoc; reflexivity).
      replace (length before + 1) with (length (before ++ [l]))
        by (rewrite length_app; reflexivity).
      apply skipn_app_length. }
    rewrite (@scan_unterminated_run lines (length before) (fuel - k) fuel);
      rewrite ?Hat, ?Hskip; try assumption; try lia.
    destruct (scan_pass_closed before (l :: after)) as [H _].
    rewrite Hls, H by assumption. simpl. rewrite Hl.
    rewrite scan_pass_unterminated by assumption. reflexivity.
Qed.

(** The lines an item carries. *)
Definition item_lines (it : scan_item) : list str :=
  match it with
  | legal_page_title_block inner_lines => inner_lines
  | delimiter_line l => [l]
  | normal_line l => [l]
  end.

Definition not_equals (l : str) : bool := negb (is_line_of_equals l).

Lemma item_lines_plain (ls : list str) :
  flat_map item_lines (map classify_plain ls) = ls.
Proof.
  induction ls as [|l ls IH]; simpl; [reflexivity|].
  unfold classify_plain at 1. destruct (is_line_of_dashes l); simpl;
    rewrite IH; reflexivity.
Qed.

Lemma item_lines_classify (l : str) : item_lines (classify_plain l) = [l].
Proof. unfold classify_plain. destruct (is_line_of_dashes l); reflexivity. Qed.

Lemma filter_not_equals_cons (l : str) (ls : list str) :
  filter not_equals (l :: ls)
  = if is_line_of_equals l then filter not_equals ls
    else l :: filter not_equals ls.
Proof.
  simpl. unfold not_equals at 1. destruct (is_line_of_equals l); reflexivity.
Qed.

Lemma scan_pass_content (ls : list str) :
  forall open,
    match open with
    | Some (opener, _) => is_line_of_equals opener = true
    | None => True
    end ->
    filter not_equals (flat_map item_lines (scan_pass open ls))
    = filter not_equals
        (match open with
         | Some (_, inner_lines) => inner_lines
         | None => []
         end ++ ls).
Proof.
  induction ls as [|l ls IH]; intros open Hopen.
  - destruct open as [[opener inner_lines]|]; [|reflexivity].
    cbn [scan_pass flat_map item_lines app].
    rewrite filter_not_equals_cons, Hopen, item_lines_plain, app_nil_r.
    reflexivity.
  - destruct open as [[opener inner_lines]|]; cbn [scan_pass].
    + destruct (is_line_of_equals l) eqn:Hl.
      * cbn [flat_map item_lines]. rewrite !filter_app, (IH None I).
        cbn [app]. rewrite filter_not_equals_cons, Hl. reflexivity.
      * rewrite (IH (Some (opener, inner_lines ++ [l])) Hopen).
        rewrite <- app_assoc. reflexivity.
    + destruct (is_line_of_equals l) eqn:Hl.
      * rewrite (IH (Some (l, [])) Hl). cbn [app].
        rewrite filter_not_equals_cons, Hl. reflexivity.
      * cbn [flat_map]. rewrite item_lines_classify. cbn [app].
        rewrite !filter_not_equals_cons, Hl, (IH None I). reflexivity.
Qed.

(** X1 (the scanner loses no content): on every line range the scanner ends,
    and the lines carried by the items it yields are, in order, the lines of
    the range; only [=]-rule lines that delimit a title block are left out.
    Compared without the [=]-rule lines, both sequences are equal. *)
Theorem scanner_keeps_content (lines : list str) (fuel : nat) :
  length lines < fuel ->
  exists items,
    detect_legal_title_blocks fuel lines = Some items
    /\ filter not_equals (flat_map item_lines items)
       = filter not_equals lines.
Proof.
  intros Hfuel. exists (scan_pass None lines).
  split; [apply detect_is_scan_pass; assumption|].
  apply (scan_pass_content lines None I).
Qed.

Lemma scanner_keeps_content_witness :
  exists items,
    detect_legal_title_blocks 7
      [ ("=====" : str); ("TITLE" : str); ("=====" : str);
        ("text" : str); ("=======" : str); ("tail" : str) ]
    = Some items
    /\ filter not_equals (flat_map item_lines items)
       = filter not_equals
           [ ("=====" : str); ("TITLE" : str); ("=====" : str);
             ("text" : str); ("=======" : str); ("tail" : str) ].
Proof.
  apply (@scanner_keeps_content
           [ ("=====" : str); ("TITLE" : str); ("=====" : str);
             ("text" : str); ("=======" : str); ("tail" : str) ] 7).
  simpl. lia.
Defined.

(** What the scanner may yield: a normal line is no rule line, a delimiter
    is a rule line, and no line inside a title block is an [=]-rule. *)
Definition item_sound (it : scan_item) : Prop :=
  match it with
  | legal_page_title_block inner_lines => no_equals inner_lines
  | delimiter_line l =>
      is_line_of_equals l = true \/ is_line_of_dashes l = true
  | normal_line l =>
      is_line_of_equals l = false /\ is_line_of_dashes l = false
  end.

Lemma classify_plain_sound (ls : list str) :
  no_equals ls -> Forall item_sound (map classify_plain ls).
Proof.
  induction 1 as [|l ls Hl Hls IH]; simpl; constructor; [|assumption].
  unfold classify_plain. destruct (is_line_of_dashes l) eqn:Hd; simpl; auto.
Qed.

Lemma scan_pass_sound (ls : list str) :
  forall open,
    match open with
    | Some (opener, inner_lines) =>
        is_line_of_equals opener = true /\ no_equals inner_lines
    | None => True
    end ->
    Forall item_sound (scan_pass open ls).
Proof.
  induction ls as [|l ls IH]; intros open Hopen.
  - destruct open as [[opener inner_lines]|]; simpl; [|constructor].
    destruct Hopen as [Ho Hi]. constructor; [left; assumption|].
    apply classify_plain_sound. assumption.
  - destruct open as [[opener inner_lines]|]; simpl scan_pass.
    + destruct Hopen as [Ho Hi]. destruct (is_line_of_equals l) eqn:Hl.
      * constructor; [exact Hi|apply (IH None I)].
      * apply (IH (Some (opener, inner_lines ++ [l]))). split; [assumption|].
        apply Forall_app. split; [assumption|]. constructor; [assumption|].
        constructor.
    + destruct (is_line_of_equals l) eqn:Hl.
      * apply (IH (Some (l, []))). split; [assumption|constructor].
      * constructor; [|apply (IH None I)].
        unfold classify_plain. destruct (is_line_of_dashes l) eqn:Hd; simpl;
          auto.
Qed.

(** X2 (the scanner classifies soundly): on every line range, each line
    yielded as a normal line is neither an [=]-rule nor a dash rule, each
    line yielded as a delimiter is one of the two, and the lines of a title
    block hold no [=]-rule. *)
Theorem scanner_classifies_soundly (lines : list str) (fuel : nat) :
  length lines < fuel ->
  exists items,
    detect_legal_title_blocks fuel lines = Some items
    /\ Forall item_sound items.
Proof.
  intros Hfuel. exists (scan_pass None lines).
  split; [apply detect_is_scan_pass; assumption|].
  apply (scan_pass_sound lines None I).
Qed.

Lemma scanner_classifies_soundly_witness :
  exists items,
    detect_legal_title_blocks 7
      [ ("=====" : str); ("TITLE" : str); ("=====" : str);
        ("text" : str); ("-------" : str); ("=======" : str) ]
    = Some items
    /\ Forall item_sound items.
Proof.
  apply (@scanner_classifies_soundly
           [ ("=====" : str); ("TITLE" : str); ("=====" : str);
             ("text" : str); ("-------" : str); ("=======" : str) ] 7).
  simpl. lia.
Defined.

Definition is_block (it : scan_item) : bool :=
  match it with legal_page_title_block _ => true | _ => false end.

Definition is_bare_equals (it : scan_item) : bool :=
  match it with delimiter_line l => is_line_of_equals l | _ => false end.

Lemma plain_no_block (ls : list str) :
  filter is_block (map classify_plain ls) = [].
Proof.
  induction ls as [|l ls IH]; simpl; [reflexivity|].
  unfold classify_plain at 1. destruct (is_line_of_dashes l); simpl; exact IH.
Qed.

Lemma plain_no_bare_equals (ls : list str) :
  no_equals ls -> filter is_bare_equals (map classify_plain ls) = [].
Proof.
  induction 1 as [|l ls Hl Hls IH]; simpl; [reflexivity|].
  unfold classify_plain at 1. destruct (is_line_of_dashes l); simpl;
    [rewrite Hl|]; exact IH.
Qed.

Lemma half_succ_succ (n : nat) : S (S n) / 2 = S (n / 2).
Proof.
  change (S (S n)) with (1 * 2 + n) at 1.
  rewrite Nat.add_comm, Nat.div_add by lia. lia.
Qed.

Lemma mod2_succ_succ (n : nat) : S (S n) mod 2 = n mod 2.
Proof.
  change (S (S n)) with (1 * 2 + n) at 1.
  rewrite Nat.add_comm, Nat.Div0.mod_add. reflexivity.
Qed.

Lemma scan_pass_counts (ls : list str) :
  forall open,
    match open with
    | Some (opener, inner_lines) =>
        is_line_of_equals opener = true /\ no_equals inner_lines
    | None => True
    end ->
    let pending := match open with Some _ => 1 | None => 0 end in
    length (filter is_block (scan_pass open ls))
    = (pending + count_equals ls) / 2
    /\ length (filter is_bare_equals (scan_pass open ls))
       = (pending + count_equals ls) mod 2.
Proof.
  induction ls as [|l ls IH]; intros open Hopen pending; subst pending.
  - destruct open as [[opener inner_lines]|]; simpl scan_pass.
    + destruct Hopen as [Ho Hi]. simpl filter. rewrite Ho.
      rewrite plain_no_block, (plain_no_bare_equals Hi). split; reflexivity.
    + split; reflexivity.
  - rewrite count_equals_cons.
    destruct open as [[opener inner_lines]|]; simpl scan_pass.
    + destruct Hopen as [Ho Hi]. destruct (is_line_of_equals l) eqn:Hl.
      * destruct (IH None I) as [H1 H2]. simpl in H1, H2. simpl filter.
        simpl length. rewrite H1, H2.
        change (1 + (1 + count_equals ls)) with (S (S (count_equals ls))).
        rewrite half_succ_succ, mod2_succ_succ. split; reflexivity.
      * apply (IH (Some (opener, inner_lines ++ [l]))). split; [assumption|].
        apply Forall_app. split; [assumption|]. constructor; [assumption|].
        constructor.
    + destruct (is_line_of_equals l) eqn:Hl.
      * destruct (IH (Some (l, []))) as [H1 H2];
          [split; [assumption|constructor]|].
        simpl in H1, H2. rewrite H1, H2. split; reflexivity.
      * destruct (IH None I) as [H1 H2]. simpl in H1, H2.
        assert (Hb : is_block (classify_plain l) = false)
          by (unfold classify_plain; destruct (is_line_of_dashes l);
              reflexivity).
        assert (He : is_bare_equals (classify_plain l) = false)
          by (unfold classify_plain; destruct (is_line_of_dashes l); simpl;
              [assumption|reflexivity]).
        simpl filter. rewrite Hb, He, H1, H2. split; reflexivity.
Qed.

(** X3 (title blocks pair the [=]-rules): on every line range the [=]-rule
    lines pair up in order of appearance: the scanner yields one title
    block for every two of them, and yields an [=]-rule as a bare delimiter
    only when their number is odd, and then exactly once. *)
Theorem scanner_pairs_rules (lines : list str) (fuel : nat) :
  length lines < fuel ->
  exists items,
    detect_legal_title_blocks fuel lines = Some items
    /\ length (filter is_block items) = count_equals lines / 2
    /\ length (filter is_bare_equals items) = count_equals lines mod 2.
Proof.
  intros Hfuel. exists (scan_pass None lines).
  split; [apply detect_is_scan_pass; assumption|].
  apply (scan_pass_counts lines None I).
Qed.

Lemma scanner_pairs_rules_witness :
  exists items,
    detect_legal_title_blocks 7
      [ ("=====" : str); ("TITLE" : str); ("=====" : str);
        ("text" : str); ("-------" : str); ("=======" : str) ]
    = Some items
    /\ length (filter is_block items) = 1
    /\ length (filter is_bare_equals items) = 1.
Proof.
  apply (@scanner_pairs_rules
           [ ("=====" : str); ("TITLE" : str); ("=====" : str);
             ("text" : str); ("-------" : str); ("=======" : str) ] 7).
  simpl. lia.
Defined.

(** ** The wrapper, line by line *)

Lemma split_char_length (sep : ascii) (s : str) :
  forall cur,
    length (Py.split_char_from sep cur s) = S (Py.count_char sep s).
Proof.
  unfold Py.count_char.
  induction s as [|c s IH]; intros cur; simpl; [reflexivity|].
  rewrite (Ascii.eqb_sym sep c).
  destruct (Ascii.eqb c sep); simpl; rewrite IH; reflexivity.
Qed.

Lemma join_single (sep w : str) : Py.join sep [w] = w.
Proof. reflexivity. Qed.

Lemma join_cons2 (sep w w' : str) (ws : list str) :
  Py.join sep (w :: w' :: ws) = w ++ sep ++ Py.join sep (w' :: ws).
Proof. reflexivity. Qed.

Lemma join_snoc (sep w : str) (ws : list str) :
  ws <> [] -> Py.join sep (ws ++ [w]) = Py.join sep ws ++ sep ++ w.
Proof.
  induction ws as [|x ws IH]; intros Hne; [congruence|].
  destruct ws as [|y ws].
  - reflexivity.
  - change ((x :: y :: ws) ++ [w]) with (x :: (y :: ws) ++ [w]).
    change ((y :: ws) ++ [w]) with (y :: ws ++ [w]) at 1.
    rewrite join_cons2.
    change (y :: ws ++ [w]) with ((y :: ws) ++ [w]).
    rewrite IH by discriminate. rewrite join_cons2.
    rewrite <- !app_assoc. reflexivity.
Qed.

Lemma join_nonempty (sep : str) (ws : list str) :
  ws <> [] -> Forall word_ok ws -> Py.join sep ws <> [].
Proof.
  destruct ws as [|w ws]; [congruence|]. intros _ Hok.
  apply Forall_cons_iff in Hok as [[Hw _] _].
  destruct ws; simpl; destruct w; simpl; congruence.
Qed.

(** Joining words with single spaces and splitting again gives the words. *)
Lemma split_join (ws : list str) :
  Forall word_ok ws -> Py.split (Py.join [Py.sp] ws) = ws.
Proof.
  induction ws as [|w ws IH]; intros Hok; [reflexivity|].
  apply Forall_cons_iff in Hok as [Hw Hok].
  destruct ws as [|w' ws].
  - apply split_word. assumption.
  - rewrite join_cons2.
    change ([Py.sp] ++ Py.join [Py.sp] (w' :: ws))
      with (Py.sp :: Py.join [Py.sp] (w' :: ws)).
    unfold Py.split at 1. rewrite split_from_sep by reflexivity.
    fold (Py.split w). rewrite (split_word Hw), IH by assumption.
    reflexivity.
Qed.

Section WrapperLines.
Variable stringWidth : str -> str -> nat -> Q.
Variables (font_name : str) (font_size : nat) (max_width : Q).

Local Abbreviation wword :=
  (wrap_word stringWidth font_name font_size max_width).
Local Abbreviation wparagraph :=
  (wrap_paragraph stringWidth font_name font_size max_width).
Local Abbreviation wtext :=
  (wrap_text_to_lines stringWidth font_name font_size max_width).

(** The width test of the wrapper. *)
Definition fits (l : str) : Prop :=
  Qle_bool (stringWidth l font_name font_size) max_width = true.

(** A line the wrapper may produce from [words]: empty, or some of the
    words joined by single spaces, and then within the width unless it is
    one word. *)
Definition wrapped_line (words : list str) (l : str) : Prop :=
  l = []
  \/ exists done,
       done <> [] /\ Forall word_ok done /\ incl done words
       /\ l = Py.join [Py.sp] done
       /\ (fits l \/ length done = 1).

Lemma wrapped_line_word (words : list str) (w : str) :
  word_ok w -> In w words -> wrapped_line words w.
Proof.
  intros Hw Hin. right. exists [w]. repeat split.
  - discriminate.
  - constructor; [assumption|constructor].
  - intros x [Hx|[]]. subst x. assumption.
  - right. reflexivity.
Qed.

Lemma wrap_word_lines (words : list str) (a : list (str * bool))
  (cur w : str) :
  Forall (fun e => wrapped_line words (fst e) /\ snd e = true) a ->
  wrapped_line words cur ->
  word_ok w -> In w words ->
  Forall (fun e => wrapped_line words (fst e) /\ snd e = true)
    (fst (wword (a, cur) w))
  /\ wrapped_line words (snd (wword (a, cur) w))
  /\ snd (wword (a, cur) w) <> [].
Proof.
  intros Ha Hcur Hw Hin. unfold wrap_word.
  destruct (Qle_bool _ _) eqn:Hfit; cbn [fst snd].
  - split; [assumption|].
    destruct Hcur as [Hcur|[done [Hne [Hok [Hincl [Hjoin _]]]]]].
    + subst cur. cbn [Py.isempty] in *. split; [|apply Hw].
      right. exists [w]. repeat split.
      * discriminate.
      * constructor; [assumption|constructor].
      * intros x [Hx|[]]. subst x. assumption.
      * left. exact Hfit.
    + assert (Hcne : cur <> [])
        by (rewrite Hjoin; apply join_nonempty; assumption).
      destruct cur as [|c cur]; [congruence|]. cbn [Py.isempty] in *.
      split; [|discriminate].
      right. exists (done ++ [w]). repeat split.
      * destruct done; discriminate.
      * apply Forall_app. split; [assumption|].
        constructor; [assumption|constructor].
      * apply incl_app; [assumption|]. intros x [Hx|[]]. subst x.
        assumption.
      * rewrite join_snoc by assumption. rewrite <- Hjoin. reflexivity.
      * left. exact Hfit.
  - split; [|split; [apply wrapped_line_word; assumption|apply Hw]].
    apply Forall_app. split; [assumption|].
    constructor; [|constructor]. split; [assumption|reflexivity].
Qed.

Lemma wrap_fold_lines (words ws : list str) :
  forall (a : list (str * bool)) (cur : str),
    Forall (fun e => wrapped_line words (fst e) /\ snd e = true) a ->
    wrapped_line words cur ->
    Forall word_ok ws -> incl ws words ->
    Forall (fun e => wrapped_line words (fst e) /\ snd e = true)
      (fst (fold_left wword ws (a, cur)))
    /\ wrapped_line words (snd (fold_left wword ws (a, cur)))
    /\ (ws <> [] -> snd (fold_left wword ws (a, cur)) <> []).
Proof.
  induction ws as [|w ws IH]; intros a cur Ha Hcur Hok Hincl;
    cbn [fold_left].
  - repeat split; try assumption. congruence.
  - apply Forall_cons_iff in Hok as [Hw Hok].
    destruct (@wrap_word_lines words a cur w Ha Hcur Hw
                (Hincl w (or_introl eq_refl))) as [Ha' [Hcur' Hne]].
    destruct (wword (a, cur) w) as [a' cur']. cbn [fst snd] in *.
    destruct (IH a' cur' Ha' Hcur' Hok) as [H1 [H2 H3]].
    { intros x Hx. apply Hincl. right. assumption. }
    repeat split; try assumption. intros _.
    destruct ws as [|w' ws]; [exact Hne|]. apply H3. discriminate.
Qed.

(** A paragraph gives wrapped lines flagged [True], then one last line
    flagged [False]. *)
Lemma wrap_paragraph_shape (p : str) :
  exists (init : list (str * bool)) (last : str),
    wparagraph [] p = init ++ [(last, false)]
    /\ Forall (fun e => wrapped_line (Py.split p) (fst e) /\ snd e = true)
         init
    /\ wrapped_line (Py.split p) last.
Proof.
  unfold wrap_paragraph.
  destruct (Py.split p) as [|w ws] eqn:Hp.
  - exists [], []. repeat split; [constructor|left; reflexivity].
  - pose proof (split_words_ok p) as Hok. rewrite Hp in Hok.
    destruct (@wrap_fold_lines (w :: ws) (w :: ws) [] []
                (Forall_nil _) (or_introl eq_refl) Hok (incl_refl _))
      as [Ha [Hcur Hne]].
    destruct (fold_left wword (w :: ws) ([], [])) as [a cur].
    cbn [fst snd] in *.
    destruct cur as [|c cur];
      [exfalso; apply Hne; [discriminate|reflexivity]|].
    exists a, (c :: cur). repeat split; assumption.
Qed.

Definition last_of_paragraph (e : str * bool) : bool := negb (snd e).

Lemma paragraph_ends (ps : list str) :
  length (filter last_of_paragraph (concat (map (wparagraph []) ps)))
  = length ps.
Proof.
  induction ps as [|p ps IH]; [reflexivity|].
  cbn [map concat]. rewrite filter_app, length_app, IH.
  destruct (wrap_paragraph_shape p) as [init [last [Hw [Hinit _]]]].
  rewrite Hw, filter_app.
  assert (Hnone : filter last_of_paragraph init = []).
  { clear Hw. induction Hinit as [|e init [_ He] _ IHi]; [reflexivity|].
    simpl. unfold last_of_paragraph at 1. rewrite He. exact IHi. }
  rewrite Hnone. reflexivity.
Qed.

(** X4 (one closing line a paragraph): [wrap_text_to_lines] never returns
    an empty list; the entries flagged [False] are the last lines of the
    paragraphs, one for each, so there is one more of them than newlines in
    the text. *)
Theorem wrap_marks_paragraph_ends (full_text : str) :
  wtext full_text <> []
  /\ length (filter last_of_paragraph (wtext full_text))
     = S (Py.count_char Py.nl full_text).
Proof.
  assert (H : length (filter last_of_paragraph (wtext full_text))
              = S (Py.count_char Py.nl full_text)).
  { unfold wrap_text_to_lines.
    rewrite (wrap_text_concat stringWidth font_name font_size max_width).
    cbn [app]. rewrite paragraph_ends. apply split_char_length. }
  split; [|exact H].
  intros Hnil. rewrite Hnil in H. discriminate.
Qed.

Lemma wrap_text_lines (full_text : str) :
  Forall (fun e => wrapped_line (Py.split full_text) (fst e))
    (wtext full_text).
Proof.
  unfold wrap_text_to_lines.
  rewrite (wrap_text_concat stringWidth font_name font_size max_width).
  cbn [app].
  assert (Hwords : forall p, In p (Py.split_char Py.nl full_text) ->
                             incl (Py.split p) (Py.split full_text)).
  { intros p Hp w Hw.
    pose proof (split_paragraphs full_text []) as H. cbn [rev app] in H.
    rewrite H. apply in_concat. exists (Py.split p). split; [|assumption].
    apply in_map. assumption. }
  induction (Py.split_char Py.nl full_text) as [|p ps IH]; [constructor|].
  cbn [map concat]. apply Forall_app. split.
  - destruct (wrap_paragraph_shape p) as [init [last [Hw [Hinit Hlast]]]].
    assert (Hincl : incl (Py.split p) (Py.split full_text))
      by (apply Hwords; left; reflexivity).
    assert (Hmono : forall l, wrapped_line (Py.split p) l ->
                              wrapped_line (Py.split full_text) l).
    { intros l [Hl|[done [H1 [H2 [H3 [H4 H5]]]]]]; [left; assumption|].
      right. exists done. repeat split; try assumption.
      intros x Hx. apply Hincl. apply H3. assumption. }
    rewrite Hw. apply Forall_app. split.
    + apply Forall_impl with (2 := Hinit). intros e [He _]. apply Hmono.
      assumption.
    + constructor; [apply Hmono; assumption|constructor].
  - apply IH. intros p' Hp'. apply Hwords. right. assumption.
Qed.

(** X5 (the width is a ceiling for every line of several words): each line
    returned by [wrap_text_to_lines] is empty, or passes the width test, or
    is one single word of the text. *)
Theorem wrap_respects_width (full_text : str) :
  Forall (fun e => fst e = []
                   \/ fits (fst e)
                   \/ In (fst e) (Py.split full_text))
    (wtext full_text).
Proof.
  apply Forall_impl with (2 := wrap_text_lines full_text).
  intros e [He|[done [Hne [Hok [Hincl [Hjoin [Hfit|Hone]]]]]]]; auto.
  right. right. destruct done as [|w [|w' done]]; try discriminate.
  rewrite Hjoin. apply Hincl. left. reflexivity.
Qed.

(** X6 (lines are normalised): in each line returned by
    [wrap_text_to_lines] the words are separated by exactly one space, with
    no whitespace before the first or after the last: joining its words
    with single spaces gives the line back. *)
Theorem wrap_lines_normalised (full_text : str) :
  Forall (fun e => Py.join [Py.sp] (Py.split (fst e)) = fst e)
    (wtext full_text).
Proof.
  apply Forall_impl with (2 := wrap_text_lines full_text).
  intros e [He|[done [Hne [Hok [Hincl [Hjoin _]]]]]].
  - rewrite He. reflexivity.
  - rewrite Hjoin, split_join by assumption. reflexivity.
Qed.

End WrapperLines.

Lemma split_char_no_sep (sep : ascii) (s : str) :
  forall cur,
    ~ In sep s -> Py.split_char_from sep cur s = [rev cur ++ s].
Proof.
  induction s as [|c s IH]; intros cur Hno; simpl.
  - rewrite app_nil_r. reflexivity.
  - destruct (Ascii.eqb c sep) eqn:Hc.
    + apply Ascii.eqb_eq in Hc. subst c. exfalso. apply Hno. left.
      reflexivity.
    + rewrite IH by (intros H; apply Hno; right; assumption).
      simpl. rewrite <- app_assoc. reflexivity.
Qed.

Section WrapperFits.
Variable stringWidth : str -> str -> nat -> Q.
Variables (font_name : str) (font_size : nat) (max_width : Q).

Local Abbreviation wword :=
  (wrap_word stringWidth font_name font_size max_width).
Local Abbreviation wtext :=
  (wrap_text_to_lines stringWidth font_name font_size max_width).
Local Abbreviation fit := (fits stringWidth font_name font_size max_width).

Lemma wrap_fold_fitting (rest : list str) :
  forall done : list str,
    Forall word_ok (done ++ rest) ->
    (forall k, length done < k <= length (done ++ rest) ->
               fit (Py.join [Py.sp] (firstn k (done ++ rest)))) ->
    fold_left wword rest ([], Py.join [Py.sp] done)
    = ([], Py.join [Py.sp] (done ++ rest)).
Proof.
  induction rest as [|w rest IH]; intros done Hok Hfit; cbn [fold_left].
  - rewrite app_nil_r. reflexivity.
  - assert (Hstep : wword ([], Py.join [Py.sp] done) w
                    = ([], Py.join [Py.sp] (done ++ [w]))).
    { unfold wrap_word.
      assert (Htest : (if Py.isempty (Py.join [Py.sp] done) then w
                       else Py.join [Py.sp] done ++ " " ++ w)
                      = Py.join [Py.sp] (done ++ [w])).
      { destruct done as [|d done]; [reflexivity|].
        rewrite join_snoc by discriminate.
        assert (Hne : Py.join [Py.sp] (d :: done) <> []).
        { apply join_nonempty; [discriminate|].
          apply Forall_app in Hok as [Hd _]. assumption. }
        destruct (Py.join [Py.sp] (d :: done)); [congruence|reflexivity]. }
      rewrite Htest.
      specialize (Hfit (S (length done))).
      replace (firstn (S (length done)) (done ++ w :: rest))
        with (done ++ [w]) in Hfit.
      - unfold fits in Hfit. rewrite Hfit; [reflexivity|].
        rewrite length_app. simpl. lia.
      - replace (done ++ w :: rest) with ((done ++ [w]) ++ rest)
          by (rewrite <- app_assoc; reflexivity).
        replace (S (length done)) with (length (done ++ [w]) + 0)
          by (rewrite length_app; simpl; lia).
        rewrite firstn_app_2. simpl. rewrite app_nil_r. reflexivity. }
    rewrite Hstep.
    replace (done ++ w :: rest) with ((done ++ [w]) ++ rest) in *
      by (rewrite <- app_assoc; reflexivity).
    apply IH; [assumption|].
    intros k Hk. apply Hfit. rewrite length_app in Hk. simpl in Hk. lia.
Qed.

(** X7 (a text that fits stays one line): when a text without a newline has
    at least one word and every run of its first words, joined by single
    spaces, passes the width test, [wrap_text_to_lines] returns exactly one
    line, not flagged as wrapped: the words joined by single spaces. *)
Theorem wrap_fitting_text (full_text : str) :
  ~ In Py.nl full_text ->
  Py.split full_text <> [] ->
  (forall k, 0 < k <= length (Py.split full_text) ->
             fit (Py.join [Py.sp] (firstn k (Py.split full_text)))) ->
  wtext full_text = [(Py.join [Py.sp] (Py.split full_text), false)].
Proof.
  intros Hnl Hne Hfit. unfold wrap_text_to_lines, Py.split_char.
  rewrite split_char_no_sep by assumption. cbn [rev app fold_left].
  unfold wrap_paragraph.
  pose proof (split_words_ok full_text) as Hok.
  destruct (Py.split full_text) as [|w ws] eqn:Hw; [congruence|].
  pose proof (@wrap_fold_fitting (w :: ws) [] Hok Hfit) as Hfold.
  change (Py.join [Py.sp] []) with (@nil ascii) in Hfold.
  rewrite Hfold. cbn [app].
  assert (Hj : Py.join [Py.sp] (w :: ws) <> [])
    by (apply join_nonempty; [discriminate|assumption]).
  destruct (Py.join [Py.sp] (w :: ws)); [congruence|reflexivity].
Qed.

End WrapperFits.

Lemma wrap_fitting_text_witness :
  wrap_text_to_lines unit_width "Helvetica" 10 (inject_Z 7) " aa   bb "
  = [(("aa bb" : str), false)].
Proof.
  refine (@wrap_fitting_text unit_width "Helvetica" 10 (inject_Z 7)
            " aa   bb " _ _ _).
  - vm_compute. intuition discriminate.
  - vm_compute. discriminate.
  - intros k Hk. vm_compute in Hk.
    destruct k as [|[|[|k]]]; [lia| | |lia]; vm_compute; reflexivity.
Defined.

(** ** The pages of the placement pass *)

Lemma take_lines_le (n : nat) :
  forall rest, length (take_lines n rest) <= n.
Proof.
  induction n as [|n IH]; intros [|s rest]; simpl; try lia.
  destruct (page_always_new s); simpl; [lia|]. specialize (IH rest). lia.
Qed.

Lemma page_of_le_max (max_lines_per_page : nat) (rest : list segment) :
  0 < max_lines_per_page ->
  length (page_of max_lines_per_page rest) <= max_lines_per_page.
Proof.
  intros Hmax. destruct rest as [|[| |] rest]; try apply take_lines_le.
  simpl. lia.
Qed.

Lemma concat_length_bounds {A B : Type} (f : A -> list B) (m : nat)
  (l : list A) :
  Forall (fun x => 1 <= length (f x) <= m) l ->
  length l <= length (concat (map f l)) <= length l * m.
Proof.
  induction 1 as [|x l Hx Hl IH]; simpl; [lia|].
  rewrite length_app. lia.
Qed.

(** What every page preserves: the finished pages are as many as the calls
    made, none is empty, none holds more than [max_lines_per_page]
    segments, and together they hold the segments placed. *)
Definition pages_sized (segments : list segment) (max_lines_per_page : nat)
  (st : place_state) : Prop :=
  all_pages_shown (pdf_canvas st)
  /\ Forall (fun pg => 1 <= length (placed_segments pg) <= max_lines_per_page)
       (pages_of (pdf_canvas st))
  /\ length (pages_of (pdf_canvas st)) + 1 = page_number st
  /\ concat (map placed_segments (pages_of (pdf_canvas st)))
     = firstn (current_index st) segments.

Lemma pages_sized_next (segments : list segment)
  (max_lines_per_page t : nat) (st : place_state) :
  0 < max_lines_per_page ->
  pages_sized segments max_lines_per_page st ->
  current_index st < length segments ->
  pages_sized segments max_lines_per_page
    (next_page segments max_lines_per_page t st).
Proof.
  intros Hmax [Hshown [Hsize [Hcount Hcat]]] Hlt. unfold pages_sized.
  cbn [pdf_canvas page_number current_index next_page].
  rewrite (@pages_of_next (pdf_canvas st) _ Hshown)
    by (apply shown_pages_page_log; assumption).
  split; [right; eexists; reflexivity|]. split; [|split].
  - apply Forall_app. split; [assumption|]. constructor; [|constructor].
    rewrite placed_page_log. split.
    + apply page_of_nonempty; [assumption|].
      destruct (skipn_lt_cons segments Hlt) as [s [rest Hrest]].
      rewrite Hrest. discriminate.
    + apply page_of_le_max. assumption.
  - rewrite length_app. simpl. lia.
  - rewrite map_app, concat_app. simpl.
    rewrite placed_page_log, app_nil_r, Hcat.
    rewrite (page_of_prefix max_lines_per_page
               (skipn (current_index st) segments)) at 1.
    apply firstn_skipn_add.
Qed.

Lemma place_pages_sized (segments : list segment)
  (max_lines_per_page fuel total_pages_est : nat)
  (hp : list heading_position) :
  0 < max_lines_per_page ->
  length segments < fuel ->
  exists st : place_state,
    place_segments segments max_lines_per_page fuel total_pages_est hp
    = Some st
    /\ pages_sized segments max_lines_per_page st
    /\ current_index st = length segments.
Proof.
  intros Hmax Hfuel. unfold place_segments.
  apply (@place_loop_rule segments max_lines_per_page Hmax total_pages_est
           (pages_sized segments max_lines_per_page)
           (fun st HI Hlt => @pages_sized_next segments max_lines_per_page
                               total_pages_est st Hmax HI Hlt)
           (length segments) (mkPlaceState 1 0 [] hp) fuel fuel);
    simpl; try lia.
  split; [left; reflexivity|]. split; [constructor|]. split; reflexivity.
Qed.

(** X8 (no page is empty or over-full): for every segment sequence and
    every positive [max_lines_per_page], each page finished by the
    placement loop holds at least one segment and at most
    [max_lines_per_page] of them, and the loop makes one call of
    [draw_page_of_segments] for each of these pages. *)
Theorem pages_within_budget (segments : list segment)
  (max_lines_per_page fuel total_pages_est : nat)
  (hp : list heading_position) :
  0 < max_lines_per_page ->
  length segments < fuel ->
  exists st : place_state,
    place_segments segments max_lines_per_page fuel total_pages_est hp
    = Some st
    /\ Forall (fun pg => 1 <= length (placed_segments pg)
                         <= max_lines_per_page)
         (pages_of (pdf_canvas st))
    /\ page_number st = length (pages_of (pdf_canvas st)) + 1.
Proof.
  intros Hmax Hfuel.
  destruct (@place_pages_sized segments max_lines_per_page fuel
              total_pages_est hp Hmax Hfuel)
    as [st [Hrun [[_ [Hsize [Hcount _]]] _]]].
  exists st. repeat split; try assumption. symmetry. assumption.
Qed.

Lemma pages_within_budget_witness :
  exists st : place_state,
    place_segments
      [ head_line "I. A"; body_line "x"; body_line "y";
        ForcedTitleBlock [("T" : str)]; head_line "II. B" ] 2 10 4 []
    = Some st
    /\ Forall (fun pg => 1 <= length (placed_segments pg) <= 2)
         (pages_of (pdf_canvas st))
    /\ page_number st = length (pages_of (pdf_canvas st)) + 1.
Proof.
  apply (@pages_within_budget
           [ head_line "I. A"; body_line "x"; body_line "y";
             ForcedTitleBlock [("T" : str)]; head_line "II. B" ] 2 10 4 []).
  - lia.
  - simpl. lia.
Defined.

(** X9 (bounds of the estimate): for every segment sequence and every
    positive [max_lines_per_page] the estimated number of text pages is at
    most the number of segments, and that many pages of
    [max_lines_per_page] lines are enough for all segments. *)
Theorem estimate_bounds (segments : list segment)
  (max_lines_per_page fuel : nat) :
  0 < max_lines_per_page ->
  length segments < fuel ->
  exists text_pages : nat,
    estimate_text_pages segments max_lines_per_page fuel = Some text_pages
    /\ text_pages <= length segments
    /\ length segments <= text_pages * max_lines_per_page.
Proof.
  intros Hmax Hfuel. unfold estimate_text_pages.
  destruct (@loops_agree segments max_lines_per_page Hmax 0
              (length segments) (mkPlaceState 1 0 [] []) 0 fuel fuel)
    as [k [st' [Hest [Hplace [Hpn _]]]]]; simpl; try lia.
  destruct (@place_pages_sized segments max_lines_per_page fuel 0 []
              Hmax Hfuel)
    as [st [Hrun [[_ [Hsize [Hcount Hcat]]] Hidx]]].
  unfold place_segments in Hrun. rewrite Hplace in Hrun.
  inversion Hrun; subst st'. simpl in Hest, Hpn.
  exists k. split; [exact Hest|].
  rewrite Hidx, firstn_all in Hcat.
  pose proof (concat_length_bounds placed_segments Hsize) as Hb.
  rewrite Hcat in Hb.
  replace (length (pages_of (pdf_canvas st))) with k in Hb by lia.
  exact Hb.
Qed.

Lemma estimate_bounds_witness :
  exists text_pages : nat,
    estimate_text_pages
      [ head_line "I. A"; body_line "x"; body_line "y";
        ForcedTitleBlock [("T" : str)]; head_line "II. B" ] 2 10
    = Some text_pages
    /\ text_pages <= 5
    /\ 5 <= text_pages * 2.
Proof.
  apply (@estimate_bounds
           [ head_line "I. A"; body_line "x"; body_line "y";
             ForcedTitleBlock [("T" : str)]; head_line "II. B" ] 2 10).
  - lia.
  - simpl. lia.
Defined.

Lemma take_lines_plain (n : nat) :
  forall rest,
    Forall (fun s => page_always_new s = false) rest ->
    take_lines n rest = firstn n rest.
Proof.
  induction n as [|n IH]; intros [|s rest] H; simpl; try reflexivity.
  apply Forall_cons_iff in H as [Hs H]. rewrite Hs, IH by assumption.
  reflexivity.
Qed.

Lemma Forall_skipn_keep {A : Type} (P : A -> Prop) (i : nat) (l : list A) :
  Forall P l -> Forall P (skipn i l).
Proof.
  intros H. rewrite <- (firstn_skipn i l) in H.
  apply Forall_app in H. tauto.
Qed.

(** What every page preserves when no title block forces a break: [k] calls
    have been made, and either [k] full pages are placed or everything is
    placed and the last page is not full. *)
Definition full_pages (segments : list segment) (max_lines_per_page : nat)
  (st : place_state) : Prop :=
  exists k,
    page_number st = S k
    /\ (current_index st = k * max_lines_per_page
        \/ (current_index st = length segments
            /\ length segments < k * max_lines_per_page
            /\ k * max_lines_per_page
               < length segments + max_lines_per_page)).

Lemma full_pages_next (segments : list segment)
  (max_lines_per_page t : nat) (st : place_state) :
  Forall (fun s => page_always_new s = false) segments ->
  full_pages segments max_lines_per_page st ->
  current_index st < length segments ->
  full_pages segments max_lines_per_page
    (next_page segments max_lines_per_page t st).
Proof.
  intros Hplain [k [Hpn Hidx]] Hlt. exists (S k).
  cbn [page_number current_index next_page].
  split; [lia|].
  destruct Hidx as [Hidx|[Hidx _]]; [|lia].
  assert (Hpage : length (page_of max_lines_per_page
                            (skipn (current_index st) segments))
                  = Nat.min max_lines_per_page
                      (length segments - current_index st)).
  { assert (Hrest : Forall (fun s => page_always_new s = false)
                      (skipn (current_index st) segments))
      by (apply Forall_skipn_keep; assumption).
    destruct (skipn (current_index st) segments) as [|s rest] eqn:Hs.
    - apply skipn_nil_inv in Hs. lia.
    - assert (Hof : page_of max_lines_per_page (s :: rest)
                    = take_lines max_lines_per_page (s :: rest)).
      { apply Forall_cons_iff in Hrest as [H _].
        destruct s; try reflexivity. discriminate. }
      rewrite Hof, take_lines_plain by assumption.
      rewrite length_firstn, <- Hs, length_skipn. reflexivity. }
  rewrite Hpage.
  destruct (Nat.le_gt_cases max_lines_per_page
              (length segments - current_index st)) as [Hfull|Hshort].
  - left. rewrite Nat.min_l by assumption. lia.
  - right. rewrite Nat.min_r by lia. lia.
Qed.

(** X10 (the estimate is the ceiling when nothing forces a break): for a
    segment sequence without title blocks and a positive
    [max_lines_per_page], the estimated number of text pages is the number
    of segments divided by [max_lines_per_page], rounded up. *)
Theorem estimate_is_ceiling (segments : list segment)
  (max_lines_per_page fuel : nat) :
  0 < max_lines_per_page ->
  length segments < fuel ->
  Forall (fun s => page_always_new s = false) segments ->
  estimate_text_pages segments max_lines_per_page fuel
  = Some ((length segments + max_lines_per_page - 1) / max_lines_per_page).
Proof.
  intros Hmax Hfuel Hplain. unfold estimate_text_pages.
  destruct (@loops_agree segments max_lines_per_page Hmax 0
              (length segments) (mkPlaceState 1 0 [] []) 0 fuel fuel)
    as [k [st' [Hest [Hplace [Hpn _]]]]]; simpl; try lia.
  destruct (@place_loop_rule segments max_lines_per_page Hmax 0
              (full_pages segments max_lines_per_page)
              (fun st HI Hlt => @full_pages_next segments max_lines_per_page
                                  0 st Hplain HI Hlt)
              (length segments) (mkPlaceState 1 0 [] []) fuel fuel)
    as [st [Hrun [[k' [Hk' Hidx']] Hidx]]]; simpl; try lia.
  { exists 0. simpl. auto. }
  rewrite Hplace in Hrun. inversion Hrun; subst st'.
  simpl in Hest, Hpn. rewrite Hest. f_equal.
  assert (k' = k) by lia. subst k'.
  apply Nat.div_unique
    with (r := length segments + max_lines_per_page - 1
               - max_lines_per_page * k).
  - destruct Hidx' as [H|[_ [H1 H2]]]; nia.
  - destruct Hidx' as [H|[_ [H1 H2]]]; nia.
Qed.

Lemma estimate_is_ceiling_witness :
  estimate_text_pages
    [ head_line "I. A"; body_line "x"; body_line "y"; body_line "z";
      head_line "II. B" ] 2 10
  = Some ((5 + 2 - 1) / 2).
Proof.
  apply (@estimate_is_ceiling
           [ head_line "I. A"; body_line "x"; body_line "y"; body_line "z";
             head_line "II. B" ] 2 10).
  - lia.
  - simpl. lia.
  - repeat constructor.
Defined.

(** ** The heading coordinates are complete *)

(** The entries due for the heading-flagged segments that follow index [i]:
    text, position in the sequence counted from 1, and subheading flag. *)
Fixpoint flagged_from (i : nat) (segs : list segment)
  : list (str * nat * bool) :=
  match segs with
  | [] => []
  | TextLine text _ _ _ is_heading is_subheading :: segs' =>
      if is_heading || is_subheading
      then (text, i + 1, is_subheading) :: flagged_from (i + 1) segs'
      else flagged_from (i + 1) segs'
  | _ :: segs' => flagged_from (i + 1) segs'
  end.

(** A heading coordinate without its page. *)
Definition unpaged (h : heading_position) : str * nat * bool :=
  let '(text, _, ln_num, is_sub) := h in (text, ln_num, is_sub).

Lemma unpaged_line_heads (p : nat) (segs : list segment) :
  forall i, map unpaged (line_heads p i segs) = flagged_from i segs.
Proof.
  induction segs as [|s segs IH]; intros i; [reflexivity|].
  cbn [line_heads flagged_from]. rewrite map_app, IH.
  destruct s as [text fn fs al h sh| |]; try reflexivity.
  simpl. destruct (h || sh); reflexivity.
Qed.

Lemma flagged_from_app (a : list segment) :
  forall i b,
    flagged_from i (a ++ b)
    = flagged_from i a ++ flagged_from (i + length a) b.
Proof.
  induction a as [|s a IH]; intros i b.
  - simpl. rewrite Nat.add_0_r. reflexivity.
  - cbn [app flagged_from length].
    replace (i + S (length a)) with (i + 1 + length a) by lia.
    destruct s as [text fn fs al h sh| |]; try apply IH.
    destruct (h || sh); [|apply IH].
    cbn [app]. f_equal. apply IH.
Qed.

Lemma unpaged_page_heads (max_lines_per_page p i : nat)
  (rest : list segment) :
  map unpaged (page_heads max_lines_per_page p i rest)
  = flagged_from i (page_of max_lines_per_page rest).
Proof.
  destruct rest as [|[| |] rest]; try apply unpaged_line_heads.
  reflexivity.
Qed.

Definition headings_complete (segments : list segment)
  (hp : list heading_position) (st : place_state) : Prop :=
  current_index st <= length segments
  /\ map unpaged (headings st)
     = map unpaged hp
         ++ flagged_from 0 (firstn (current_index st) segments).

Lemma headings_complete_next (segments : list segment)
  (hp : list heading_position) (max_lines_per_page t : nat)
  (st : place_state) :
  headings_complete segments hp st ->
  headings_complete segments hp
    (next_page segments max_lines_per_page t st).
Proof.
  intros [Hle Hmap]. unfold headings_complete.
  cbn [headings current_index next_page].
  pose proof (page_of_length max_lines_per_page
                (skipn (current_index st) segments)) as Hlen.
  rewrite length_skipn in Hlen.
  split; [lia|].
  rewrite map_app, Hmap, unpaged_page_heads, <- app_assoc. f_equal.
  rewrite <- firstn_skipn_add, flagged_from_app.
  rewrite length_firstn, Nat.min_l by assumption.
  rewrite <- page_of_prefix. reflexivity.
Qed.

(** X11 (every heading is recorded once): for every segment sequence and
    every positive [max_lines_per_page], the placement loop started on an
    empty list records one coordinate for each segment flagged as heading
    or subheading and none for any other; the entries stand in the order
    of the segments and carry the text, the position of the segment in the
    sequence counted from 1, and the subheading flag. *)
Theorem headings_recorded (segments : list segment)
  (max_lines_per_page fuel total_pages_est : nat) :
  0 < max_lines_per_page ->
  length segments < fuel ->
  exists st : place_state,
    place_segments segments max_lines_per_page fuel total_pages_est []
    = Some st
    /\ map unpaged (headings st) = flagged_from 0 segments.
Proof.
  intros Hmax Hfuel. unfold place_segments.
  destruct (@place_loop_rule segments max_lines_per_page Hmax total_pages_est
              (headings_complete segments [])
              (fun st HI _ => @headings_complete_next segments []
                                max_lines_per_page total_pages_est st HI)
              (length segments) (mkPlaceState 1 0 [] []) fuel fuel)
    as [st [Hrun [[_ Hmap] Hidx]]]; simpl; try lia.
  - split; simpl; [lia|reflexivity].
  - exists st. split; [assumption|].
    rewrite Hmap, Hidx, firstn_all. reflexivity.
Qed.

Lemma headings_recorded_witness :
  exists st : place_state,
    place_segments
      [ head_line "I. A"; body_line "x"; ForcedTitleBlock [("T" : str)];
        head_line "II. B" ] 2 10 3 []
    = Some st
    /\ map unpaged (headings st)
       = [ (("I. A" : str), 1, false); (("II. B" : str), 4, false) ].
Proof.
  apply (@headings_recorded
           [ head_line "I. A"; body_line "x"; ForcedTitleBlock [("T" : str)];
             head_line "II. B" ] 2 10 3).
  - lia.
  - simpl. lia.
Defined.

(** ** Footers *)

Definition footers (cv : list draw_op) : list draw_op :=
  filter (fun op => match op with OpFooter _ _ => true | _ => false end) cv.

Lemma footers_app (a b : list draw_op) :
  footers (a ++ b) = footers a ++ footers b.
Proof. apply filter_app. Qed.

Lemma footers_line_ops (segs : list segment) :
  forall i, footers (line_ops i segs) = [].
Proof.
  induction segs as [|s segs IH]; intros i; [reflexivity|]. simpl. apply IH.
Qed.

Lemma footers_page_log (max_lines_per_page p t i : nat)
  (rest : list segment) :
  footers (page_log max_lines_per_page p t i rest) = [OpFooter p t].
Proof.
  assert (H : footers
                (OpFrame :: line_ops i (take_lines max_lines_per_page rest)
                   ++ [OpFooter p t]) = [OpFooter p t]).
  { change (OpFrame :: ?l) with ([OpFrame] ++ l).
    rewrite !footers_app, footers_line_ops. reflexivity. }
  destruct rest as [|[| |] rest]; try exact H. reflexivity.
Qed.

Definition footers_numbered (t : nat) (st : place_state) : Prop :=
  1 <= page_number st
  /\ footers (pdf_canvas st)
     = map (fun k => OpFooter k t) (seq 1 (page_number st - 1)).

Lemma footers_numbered_next (segments : list segment)
  (max_lines_per_page t : nat) (st : place_state) :
  footers_numbered t st ->
  footers_numbered t (next_page segments max_lines_per_page t st).
Proof.
  intros [Hpn Hf]. unfold footers_numbered.
  cbn [pdf_canvas page_number next_page].
  split; [lia|].
  rewrite !footers_app, footers_page_log, Hf.
  change (footers [OpShowPage]) with (@nil draw_op). rewrite app_nil_r.
  replace (page_number st + 1 - 1) with (S (page_number st - 1)) by lia.
  rewrite seq_S, map_app. simpl. repeat f_equal. lia.
Qed.

(** X12 (footers count up to the estimate): for every segment sequence and
    every positive [max_lines_per_page], the text part of
    [generate_legal_document] draws exactly one footer on each page; the
    footers read page 1, 2, ... up to the estimated number of text pages,
    each "of" the estimated total, which is that number plus two for each
    exhibit.  Without exhibits the last footer reads "Page N of N". *)
Theorem footers_count_up (segments : list segment)
  (max_lines_per_page fuel n_exhibits : nat) (hp : list heading_position) :
  0 < max_lines_per_page ->
  length segments < fuel ->
  exists (text_pages : nat) (st : place_state),
    generate_legal_document segments max_lines_per_page fuel n_exhibits hp
    = Some (text_pages, st)
    /\ footers (pdf_canvas st)
       = map (fun k => OpFooter k (text_pages + n_exhibits * 2))
           (seq 1 text_pages).
Proof.
  intros Hmax Hfuel. unfold generate_legal_document, estimate_text_pages.
  destruct (@loops_agree segments max_lines_per_page Hmax 0
              (length segments) (mkPlaceState 1 0 [] hp) 0 fuel fuel)
    as [k [st0 [Hest _]]]; simpl; try lia.
  simpl in Hest. rewrite Hest.
  set (t := k + n_exhibits * 2).
  destruct (@loops_agree segments max_lines_per_page Hmax t
              (length segments) (mkPlaceState 1 0 [] hp) 0 fuel fuel)
    as [k' [st' [Hest' [Hplace [Hpn _]]]]]; simpl; try lia.
  simpl in Hest', Hpn. rewrite Hest in Hest'. inversion Hest'; subst k'.
  destruct (@place_loop_rule segments max_lines_per_page Hmax t
              (footers_numbered t)
              (fun st HI _ => @footers_numbered_next segments
                                max_lines_per_page t st HI)
              (length segments) (mkPlaceState 1 0 [] hp) fuel fuel)
    as [st [Hrun [[_ Hf] _]]]; simpl; try lia.
  { split; simpl; [lia|reflexivity]. }
  rewrite Hplace in Hrun. inversion Hrun; subst st'.
  unfold place_segments. rewrite Hplace.
  exists k, st. split; [reflexivity|].
  rewrite Hf. replace (page_number st - 1) with k by lia. reflexivity.
Qed.

Lemma footers_count_up_witness :
  exists (text_pages : nat) (st : place_state),
    generate_legal_document
      [ head_line "I. A"; body_line "x"; body_line "y";
        ForcedTitleBlock [("T" : str)]; head_line "II. B" ] 2 10 0 []
    = Some (text_pages, st)
    /\ footers (pdf_canvas st)
       = map (fun k => OpFooter k (text_pages + 0 * 2)) (seq 1 text_pages).
Proof.
  apply (@footers_count_up
           [ head_line "I. A"; body_line "x"; body_line "y";
             ForcedTitleBlock [("T" : str)]; head_line "II. B" ] 2 10 0 []).
  - lia.
  - simpl. lia.
Defined.

(** ** Section keys and their styles *)

Lemma od_set_present {V : Type} (k : str) (v : V) (od : odict V) :
  In k (od_keys od) -> od_keys (od_set k v od) = od_keys od.
Proof.
  induction od as [|[k' v'] od IH]; intros Hin; simpl in *; [tauto|].
  destruct (Py.str_eqb k k') eqn:E.
  - apply str_eqb_eq in E. subst k'. reflexivity.
  - apply str_eqb_neq in E. simpl. f_equal. apply IH.
    destruct Hin as [H|H]; [congruence|assumption].
Qed.

Lemma od_set_keys {V : Type} (k : str) (v : V) (od : odict V) :
  od_keys (od_set k v od) = od_keys od
  \/ (~ In k (od_keys od) /\ od_keys (od_set k v od) = od_keys od ++ [k]).
Proof.
  destruct (in_dec (list_eq_dec ascii_dec) k (od_keys od)) as [Hin|Hout].
  - left. apply od_set_present. assumption.
  - right. split; [assumption|]. rewrite od_set_fresh by assumption.
    unfold od_keys. rewrite map_app. reflexivity.
Qed.

Lemma nodup_snoc {A : Type} (l : list A) (x : A) :
  NoDup l -> ~ In x l -> NoDup (l ++ [x]).
Proof.
  intros Hl Hx. apply NoDup_app; [assumption|repeat constructor; auto|].
  intros y Hy [Hyx|[]]. subst y. contradiction.
Qed.

(** Assigning to a key keeps the keys distinct, and keeps a property that
    the old keys and the new one have. *)
Lemma od_set_keeps {V : Type} (P : str -> Prop) (k : str) (v : V)
  (od : odict V) :
  NoDup (od_keys od) -> Forall P (od_keys od) -> P k ->
  NoDup (od_keys (od_set k v od)) /\ Forall P (od_keys (od_set k v od)).
Proof.
  intros Hnd HP Hk.
  destruct (od_set_keys k v od) as [H|[Hout H]]; rewrite H.
  - split; assumption.
  - split; [apply nodup_snoc; assumption|].
    apply Forall_app. split; [assumption|]. constructor; [assumption|].
    constructor.
Qed.

(** A string with a character that is no whitespace. *)
Definition nonblank (s : str) : Prop :=
  existsb (fun c => negb (Py.isspace c)) s = true.

Lemma nonblank_head (c : ascii) (s : str) :
  Py.isspace c = false -> nonblank (c :: s).
Proof. intros Hc. unfold nonblank. simpl. rewrite Hc. reflexivity. Qed.

Lemma nonblank_lstrip (s : str) : nonblank s -> Py.lstrip s <> [].
Proof.
  unfold nonblank, Py.lstrip. induction s as [|c s IH]; simpl; intros H.
  - discriminate.
  - destruct (Py.isspace c); simpl in H; [apply IH; assumption|discriminate].
Qed.

Lemma nonblank_split_first (s : str) :
  nonblank s -> exists w more, Py.split_first s = w :: more.
Proof.
  intros H. apply nonblank_lstrip in H. unfold Py.split_first.
  destruct (Py.lstrip s) as [|c r]; [congruence|].
  destruct (Py.isempty _); eauto.
Qed.

Lemma upper_not_space (c : ascii) :
  Py.isupper c = true -> Py.isspace c = false.
Proof.
  destruct c as [[] [] [] [] [] [] [] []]; vm_compute; congruence.
Qed.

Lemma digit_not_space (c : ascii) :
  Py.isdigit c = true -> Py.isspace c = false.
Proof.
  destruct c as [[] [] [] [] [] [] [] []]; vm_compute; congruence.
Qed.

Lemma roman_not_space (c : ascii) :
  isroman c = true -> Py.isspace c = false.
Proof.
  destruct c as [[] [] [] [] [] [] [] []]; vm_compute; congruence.
Qed.

Lemma digit_not_dot (c : ascii) :
  Py.isdigit c = true -> Ascii.eqb c Py.dot = false.
Proof.
  destruct c as [[] [] [] [] [] [] [] []]; vm_compute; congruence.
Qed.

Lemma roman_not_dot (c : ascii) :
  isroman c = true -> Ascii.eqb c Py.dot = false.
Proof.
  destruct c as [[] [] [] [] [] [] [] []]; vm_compute; congruence.
Qed.

Lemma dropwhile_keeps_last (p : ascii -> bool) (l : str) (c : ascii) :
  p c = false -> Py.dropwhile p (l ++ [c]) = Py.dropwhile p l ++ [c].
Proof.
  intros Hc. induction l as [|x l IH]; simpl.
  - rewrite Hc. reflexivity.
  - destruct (p x); [assumption|reflexivity].
Qed.

(** Stripping keeps a first character that is no whitespace. *)
Lemma strip_keeps_head (c : ascii) (s : str) :
  Py.isspace c = false -> exists r, Py.strip (c :: s) = c :: r.
Proof.
  intros Hc. unfold Py.strip, Py.lstrip, Py.rstrip. simpl. rewrite Hc.
  simpl rev. rewrite dropwhile_keeps_last by assumption.
  rewrite rev_app_distr. simpl. eauto.
Qed.

Lemma strip_nonblank (s : str) : nonblank s -> nonblank (Py.strip s).
Proof.
  unfold nonblank. intros H.
  assert (Hl : exists c r, Py.lstrip s = c :: r /\ Py.isspace c = false).
  { unfold Py.lstrip. induction s as [|x s IH]; simpl in *; [discriminate|].
    destruct (Py.isspace x) eqn:Hx; simpl in H; [apply IH; assumption|].
    eauto. }
  destruct Hl as [c [r [Hl Hc]]]. unfold Py.strip. rewrite Hl.
  unfold Py.rstrip. simpl rev. rewrite dropwhile_keeps_last by assumption.
  rewrite rev_app_distr. simpl. rewrite Hc. reflexivity.
Qed.

Lemma heading_number_length_range (s : str) :
  forall st done pos,
    heading_number_length st done pos s = done
    \/ pos < heading_number_length st done pos s.
Proof.
  induction s as [|c s IH]; intros st done pos; simpl; [left; reflexivity|].
  destruct st.
  - destruct (isroman c);
      [destruct (IH InRoman done (pos + 1)); [auto|right; lia]|].
    destruct (Py.isdigit c);
      [destruct (IH InDigits done (pos + 1)); [auto|right; lia]|auto].
  - destruct (isroman c);
      [destruct (IH InRoman done (pos + 1)); [auto|right; lia]|].
    destruct (Ascii.eqb c Py.dot); [|auto].
    destruct (IH AtToken (pos + 1) (pos + 1)) as [H|H]; right; lia.
  - destruct (Py.isdigit c);
      [destruct (IH InDigits done (pos + 1)); [auto|right; lia]|].
    destruct (Ascii.eqb c Py.dot); [|auto].
    destruct (IH AtToken (pos + 1) (pos + 1)) as [H|H]; right; lia.
Qed.

(** A matched heading number starts the line with a numeral character. *)
Lemma heading_number_head (line : str) :
  heading_number_length AtToken 0 0 line <> 0 ->
  exists c rest,
    line = c :: rest /\ (isroman c = true \/ Py.isdigit c = true).
Proof.
  destruct line as [|c rest]; simpl;
    [intros H; exfalso; apply H; reflexivity|].
  destruct (isroman c) eqn:Hr; [intros _; exists c, rest; auto|].
  destruct (Py.isdigit c) eqn:Hd; [intros _; exists c, rest; auto|].
  intros H. exfalso. apply H. reflexivity.
Qed.

Lemma removelast_cons {A : Type} (x : A) (l : list A) :
  l <> [] -> removelast (x :: l) = x :: removelast l.
Proof. destruct l; [congruence|reflexivity]. Qed.

(** The key made from a matched heading line carries a word. *)
Lemma heading_key_nonblank (line g1 g2 : str) :
  heading_pattern_match line = Some (g1, g2) ->
  nonblank
    ((if Py.endswith_char Py.dot (Py.strip g1)
      then Py.drop_last (Py.strip g1) else Py.strip g1)
       ++ " " ++ Py.strip g2).
Proof.
  unfold heading_pattern_match.
  destruct (heading_number_length AtToken 0 0 line =? 0) eqn:Hk;
    [discriminate|].
  apply Nat.eqb_neq in Hk.
  destruct (Py.isempty _); [discriminate|].
  destruct (rest_of_line _); [|discriminate].
  intros H. inversion H; subst g1 g2. clear H.
  destruct (heading_number_head line Hk) as [c [rest [Hline Hc]]].
  assert (Hsp : Py.isspace c = false)
    by (destruct Hc; [apply roman_not_space|apply digit_not_space];
        assumption).
  assert (Hdot : Ascii.eqb c Py.dot = false)
    by (destruct Hc; [apply roman_not_dot|apply digit_not_dot]; assumption).
  subst line.
  destruct (heading_number_length AtToken 0 0 (c :: rest)) as [|k];
    [congruence|].
  cbn [firstn].
  destruct (@strip_keeps_head c (firstn k rest) Hsp) as [r Hr]. rewrite Hr.
  destruct (Py.endswith_char Py.dot (c :: r)) eqn:He.
  - assert (Hne : r <> []).
    { intros Hnil. subst r. unfold Py.endswith_char in He. simpl in He.
      congruence. }
    unfold Py.drop_last. rewrite removelast_cons by assumption.
    apply nonblank_head. assumption.
  - apply nonblank_head. assumption.
Qed.

Lemma all_caps_nonblank (s : str) : is_line_all_caps s = true -> nonblank s.
Proof.
  unfold is_line_all_caps, nonblank.
  destruct (existsb Py.isupper s) eqn:Hup; simpl; [|discriminate].
  intros _. apply existsb_exists in Hup as [c [Hin Hc]].
  apply existsb_exists. exists c. split; [assumption|].
  rewrite (upper_not_space c Hc). reflexivity.
Qed.

Lemma bare_number_nonblank (s : str) : bare_number_match s = true -> nonblank s.
Proof.
  unfold bare_number_match. destruct s as [|c s]; simpl; [discriminate|].
  destruct (Py.isdigit c) eqn:Hc; simpl; [|discriminate].
  intros _. apply nonblank_head. apply digit_not_space. assumption.
Qed.

(** What the section loop preserves: stored keys are distinct, and they and
    the open key carry a word. *)
Definition sections_ok (st : section_state) : Prop :=
  NoDup (od_keys (sections_od st))
  /\ Forall nonblank (od_keys (sections_od st))
  /\ match current_heading_key st with
     | Some key => nonblank key
     | None => True
     end.

Lemma commit_section_ok (st : section_state) :
  sections_ok st ->
  NoDup (od_keys (commit_section st))
  /\ Forall nonblank (od_keys (commit_section st)).
Proof.
  intros [Hnd [Hnb Hkey]]. unfold commit_section.
  destruct (current_heading_key st) as [key|]; [|split; assumption].
  apply od_set_keeps; assumption.
Qed.

Lemma section_step_ok (st : section_state) (l : str) :
  sections_ok st -> sections_ok (section_step st l).
Proof.
  intros Hst. pose proof (commit_section_ok Hst) as [Hnd Hnb].
  unfold section_step.
  destruct (heading_pattern_match (clean_line l)) as [[g1 g2]|] eqn:Hm.
  - split; [exact Hnd|]. split; [exact Hnb|].
    apply (heading_key_nonblank _ Hm).
  - destruct (is_line_all_caps (Py.strip (clean_line l))) eqn:Hcaps.
    + split; [exact Hnd|]. split; [exact Hnb|].
      apply all_caps_nonblank. assumption.
    + destruct (bare_number_match (Py.strip (clean_line l))) eqn:Hbare.
      * split; [exact Hnd|]. split; [exact Hnb|].
        apply bare_number_nonblank. assumption.
      * exact Hst.
Qed.

Lemma parsed_sections_ok (raw_text : str) :
  NoDup (od_keys (snd (parse_header_and_sections raw_text)))
  /\ Forall nonblank (od_keys (snd (parse_header_and_sections raw_text))).
Proof.
  unfold parse_header_and_sections.
  destruct (header_loop (Py.splitlines raw_text) []) as [header_lines rest].
  cbn [snd]. apply commit_section_ok.
  assert (H : forall ls st, sections_ok st ->
                            sections_ok (fold_left section_step ls st)).
  { induction ls as [|l ls IH]; intros st Hst; [assumption|].
    apply IH. apply section_step_ok. assumption. }
  apply H. split; [constructor|]. split; [constructor|exact I].
Qed.

Lemma classify_fold (keys : list str) :
  forall styles : odict heading_style,
    NoDup (od_keys styles ++ keys) -> Forall nonblank keys ->
    exists styles',
      fold_left classify_step keys (Some styles) = Some styles'
      /\ od_keys styles' = od_keys styles ++ keys.
Proof.
  induction keys as [|k keys IH]; intros styles Hnd Hnb; cbn [fold_left].
  - exists styles. rewrite app_nil_r. auto.
  - apply Forall_cons_iff in Hnb as [Hk Hnb].
    destruct (nonblank_split_first Hk) as [w [more Hw]].
    assert (Hfresh : ~ In k (od_keys styles)).
    { apply NoDup_remove_2 in Hnd. intros H. apply Hnd.
      apply in_or_app. left. assumption. }
    assert (Hstep : exists style,
               classify_step (Some styles) k
               = Some (styles ++ [(k, style)])).
    { unfold classify_step. rewrite Hw.
      destruct (1 <? Py.count_char Py.dot w);
        rewrite od_set_fresh by assumption; eauto. }
    destruct Hstep as [style Hstep]. rewrite Hstep.
    destruct (IH (styles ++ [(k, style)])) as [styles' [Hfold Hkeys]].
    + unfold od_keys. rewrite map_app, <- app_assoc. exact Hnd.
    + assumption.
    + exists styles'. split; [assumption|].
      rewrite Hkeys. unfold od_keys. rewrite map_app, <- app_assoc.
      reflexivity.
Qed.

(** X13 (every section gets one style): for every text, the keys of the
    parsed sections are distinct and each holds a word, so
    [classify_headings] never fails on them with an [IndexError]; it
    returns a style for each section key and for nothing else, in the order
    of the sections. *)
Theorem sections_classified (raw_text : str) :
  NoDup (od_keys (snd (parse_header_and_sections raw_text)))
  /\ exists styles,
       classify_headings (snd (parse_header_and_sections raw_text))
       = Some styles
       /\ od_keys styles
          = od_keys (snd (parse_header_and_sections raw_text)).
Proof.
  destruct (parsed_sections_ok raw_text) as [Hnd Hnb].
  split; [assumption|]. unfold classify_headings.
  destruct (@classify_fold
              (od_keys (snd (parse_header_and_sections raw_text))) []
              Hnd Hnb) as [styles [Hfold Hkeys]].
  exists styles. split; assumption.
Qed.

(** ** The header is what precedes the first heading *)

(** The three tests that end the header and open a section. *)
Definition heading_trigger (l : str) : bool :=
  match heading_pattern_match (clean_line l) with
  | Some _ => true
  | None => false
  end
  || is_line_all_caps (Py.strip (clean_line l))
  || bare_number_match (Py.strip (clean_line l)).

Lemma header_loop_prefix (pre : list str) :
  forall (rest header_lines : list str),
    Forall (fun l => heading_trigger l = false) pre ->
    match rest with
    | l :: _ => heading_trigger l = true
    | [] => True
    end ->
    header_loop (pre ++ rest) header_lines
    = (header_lines ++ map clean_line pre, rest).
Proof.
  induction pre as [|l pre IH]; intros rest header_lines Hpre Hrest.
  - rewrite app_nil_r. destruct rest as [|l rest]; [reflexivity|].
    cbn [app header_loop]. unfold heading_trigger in Hrest.
    destruct (heading_pattern_match (clean_line l)); [reflexivity|].
    destruct (is_line_all_caps (Py.strip (clean_line l))); [reflexivity|].
    simpl in Hrest. rewrite Hrest. reflexivity.
  - apply Forall_cons_iff in Hpre as [Hl Hpre].
    cbn [app header_loop map]. unfold heading_trigger in Hl.
    destruct (heading_pattern_match (clean_line l)); [discriminate|].
    destruct (is_line_all_caps (Py.strip (clean_line l))); [discriminate|].
    simpl in Hl. rewrite Hl.
    rewrite IH by assumption. rewrite <- app_assoc. reflexivity.
Qed.

(** X14 (the header): when the lines of a text are [pre] followed by
    [rest], no line of [pre] is a heading and [rest] is empty or starts
    with a heading, the header content is the lines of [pre], each without
    trailing line ends, joined by newlines; and a text without any heading
    has no section at all. *)
Theorem header_before_first_heading (raw_text : str) (pre rest : list str) :
  Py.splitlines raw_text = pre ++ rest ->
  Forall (fun l => heading_trigger l = false) pre ->
  match rest with
  | l :: _ => heading_trigger l = true
  | [] => True
  end ->
  fst (parse_header_and_sections raw_text)
  = [ (("content" : str), Py.join [Py.nl] (map clean_line pre)) ]
  /\ (rest = [] -> snd (parse_header_and_sections raw_text) = []).
Proof.
  intros Hlines Hpre Hrest. unfold parse_header_and_sections.
  rewrite Hlines, (@header_loop_prefix pre rest [] Hpre Hrest).
  cbn [app fst snd od_set]. split; [reflexivity|].
  intros Hnil. subst rest. reflexivity.
Qed.

Lemma header_before_first_heading_witness :
  fst (parse_header_and_sections
         (Py.join [Py.nl]
            [ ("Filed by x" : str); ("second line" : str);
              ("1. Intro" : str); ("body" : str) ]))
  = [ (("content" : str),
       Py.join [Py.nl] [ ("Filed by x" : str); ("second line" : str) ]) ].
Proof.
  refine (proj1 (@header_before_first_heading
                   (Py.join [Py.nl]
                      [ ("Filed by x" : str); ("second line" : str);
                        ("1. Intro" : str); ("body" : str) ])
                   [ ("Filed by x" : str); ("second line" : str) ]
                   [ ("1. Intro" : str); ("body" : str) ] _ _ _)).
  - vm_compute. reflexivity.
  - repeat constructor.
  - vm_compute. reflexivity.
Defined.

(** ** Exhibit numbers *)

(** A non-empty string of decimal digits: what [int] accepts in [main]. *)
Definition digit_string (k : str) : Prop :=
  k <> [] /\ forallb Py.isdigit k = true.

Lemma takewhile_all (p : ascii -> bool) (s : str) :
  forallb p (Py.takewhile p s) = true.
Proof.
  induction s as [|c s IH]; simpl; [reflexivity|].
  destruct (p c) eqn:Hc; simpl; [rewrite Hc; assumption|reflexivity].
Qed.

Lemma exhibit_number_digits (line number start_text : str) :
  exhibit_pattern_match line = Some (number, start_text) ->
  digit_string number.
Proof.
  unfold exhibit_pattern_match.
  destruct (strip_prefix_ci _ _) as [r|]; [|discriminate].
  destruct (Py.isempty (Py.takewhile Py.isspace r)); [discriminate|].
  destruct (Py.isempty (Py.takewhile Py.isdigit
                          (Py.dropwhile Py.isspace r))) eqn:Hn;
    [discriminate|].
  destruct (Py.dropwhile Py.isspace (Py.dropwhile Py.isdigit _))
    as [|c r2]; [discriminate|].
  destruct (Ascii.eqb c Py.colon); [|discriminate].
  destruct (rest_of_line _); [|discriminate].
  intros H. inversion H; subst. split.
  - destruct (Py.takewhile Py.isdigit _); [discriminate|discriminate].
  - apply takewhile_all.
Qed.

Definition exhibits_ok (st : exhibit_state) : Prop :=
  NoDup (od_keys (exhibits st))
  /\ Forall digit_string (od_keys (exhibits st))
  /\ match current_exhibit_number st with
     | Some k => digit_string k
     | None => True
     end.

Lemma close_exhibit_ok (st : exhibit_state) :
  exhibits_ok st ->
  NoDup (od_keys (fst (close_exhibit st)))
  /\ Forall digit_string (od_keys (fst (close_exhibit st))).
Proof.
  intros [Hnd [Hd Hcur]]. unfold close_exhibit.
  destruct (current_exhibit_number st) as [k|]; [|split; assumption].
  destruct (negb (seen k (seen_exhibits st))); [|split; assumption].
  cbn [fst]. apply od_set_keeps; assumption.
Qed.

Lemma exhibit_step_ok (st : exhibit_state) (line : str) :
  exhibits_ok st -> exhibits_ok (exhibit_step st line).
Proof.
  intros Hst. pose proof (close_exhibit_ok Hst) as [Hnd Hd].
  unfold exhibit_step.
  destruct (exhibit_pattern_match line) as [[number start_text]|] eqn:Hm.
  - pose proof (@exhibit_number_digits line number start_text Hm) as Hnum.
    destruct (close_exhibit st) as [exhibits' seen']. cbn [fst] in *.
    destruct (seen number seen'); (split; [|split]); cbn; auto.
  - destruct Hst as [H1 [H2 H3]].
    destruct (current_exhibit_number st) eqn:Hc; (split; [|split]); cbn;
      auto.
    rewrite Hc. assumption.
Qed.

Lemma parsed_exhibit_keys (raw_text : str) :
  NoDup (od_keys (parse_exhibits_from_text raw_text))
  /\ Forall digit_string (od_keys (parse_exhibits_from_text raw_text)).
Proof.
  unfold parse_exhibits_from_text. apply close_exhibit_ok.
  assert (H : forall ls st, exhibits_ok st ->
                            exhibits_ok (fold_left exhibit_step ls st)).
  { induction ls as [|l ls IH]; intros st Hst; [assumption|].
    apply IH. apply exhibit_step_ok. assumption. }
  apply H. split; [constructor|]. split; [constructor|exact I].
Qed.

(** *** [int] on a string of digits *)

Lemma digit_not_space_int (c : ascii) :
  Py.isdigit c = true -> Py.isspace_int c = false.
Proof.
  intros H. unfold Py.isspace_int. apply Bool.orb_false_iff. split.
  - revert H. unfold Py.isdigit, Py.between. generalize (Py.code c).
    intros n H. apply Bool.andb_true_iff in H as [H1 H2].
    apply Nat.leb_le in H1, H2.
    apply Bool.andb_false_iff. right. apply Nat.leb_gt. lia.
  - destruct (Ascii.eqb_spec c Py.sp) as [Heq|]; [|reflexivity].
    subst c. discriminate.
Qed.

Lemma digit_not_mark (c m : ascii) :
  Py.isdigit m = false -> Py.isdigit c = true -> Ascii.eqb c m = false.
Proof.
  intros Hm Hc. destruct (Ascii.eqb_spec c m) as [Heq|]; [|reflexivity].
  subst c. congruence.
Qed.

Lemma takewhile_whole (p : ascii -> bool) (s : str) :
  forallb p s = true -> Py.takewhile p s = s /\ Py.dropwhile p s = [].
Proof.
  induction s as [|c s IH]; cbn [forallb Py.takewhile Py.dropwhile];
    [split; reflexivity|].
  intros H. apply Bool.andb_true_iff in H as [Hc Hs]. rewrite Hc.
  destruct (IH Hs) as [H1 H2]. rewrite H1. split; [reflexivity|assumption].
Qed.

Lemma filter_whole (p : ascii -> bool) (s : str) :
  forallb p s = true -> filter p s = s.
Proof.
  induction s as [|c s IH]; cbn [forallb filter]; [reflexivity|].
  intros H. apply Bool.andb_true_iff in H as [Hc Hs]. rewrite Hc, (IH Hs).
  reflexivity.
Qed.

Lemma digits_no_double_underscore (s : str) :
  forallb Py.isdigit s = true -> Py.double_underscore s = false.
Proof.
  induction s as [|c s IH]; cbn [forallb Py.double_underscore];
    [reflexivity|].
  intros H. apply Bool.andb_true_iff in H as [Hc Hs].
  rewrite (@digit_not_mark c "_" eq_refl Hc), (IH Hs). reflexivity.
Qed.

(** On a non-empty string of digits [int] gives the number it denotes,
    unless the digits are more than [int_max_str_digits]. *)
Lemma int_digit_string (k : str) :
  digit_string k ->
  Py.int k
  = if Py.int_max_str_digits <? length k then None
    else Some (Z.of_nat (Py.value_of_digits k)).
Proof.
  intros [Hne Hall]. destruct k as [|c k]; [exfalso; apply Hne; reflexivity|].
  pose proof Hall as Hck. cbn [forallb] in Hck.
  apply Bool.andb_true_iff in Hck as [Hc Hk].
  assert (Hnum : forallb Py.isnumeral (c :: k) = true).
  { apply forallb_forall. intros x Hx. unfold Py.isnumeral.
    rewrite (proj1 (forallb_forall _ _) Hall x Hx). reflexivity. }
  destruct (takewhile_whole _ _ Hnum) as [Htake Hdrop].
  assert (Hend : Py.endswith_char "_" (c :: k) = false).
  { unfold Py.endswith_char. destruct (rev (c :: k)) as [|c' r] eqn:Hrev;
      [reflexivity|].
    apply (@digit_not_mark c' "_" eq_refl).
    apply (proj1 (forallb_forall _ _) Hall). apply in_rev. rewrite Hrev.
    left. reflexivity. }
  unfold Py.int.
  cbn [Py.dropwhile]. rewrite (digit_not_space_int _ Hc).
  cbn [Py.startswith_char].
  rewrite (@digit_not_mark c "+" eq_refl Hc).
  rewrite (@digit_not_mark c "-" eq_refl Hc).
  cbn [orb]. rewrite Htake, Hdrop, (filter_whole _ _ Hall), Hend.
  rewrite (digits_no_double_underscore _ Hall).
  cbn [Py.isempty Py.startswith_char Py.dropwhile orb negb].
  rewrite (@digit_not_mark c "_" eq_refl Hc). cbn [orb].
  rewrite Bool.orb_false_r.
  destruct (Py.int_max_str_digits <? length (c :: k)); reflexivity.
Qed.

(** X15 (exhibit keys are distinct numbers): for every text the keys of the
    parsed exhibits are distinct, non-empty strings of decimal digits; on
    such a key the [int] used for sorting in [main] gives the number the
    digits denote when the key has at most 4300 digits, and raises
    [ValueError] when it has more. *)
Theorem exhibit_keys_are_numbers (raw_text : str) :
  NoDup (od_keys (parse_exhibits_from_text raw_text))
  /\ Forall digit_string (od_keys (parse_exhibits_from_text raw_text))
  /\ Forall
       (fun k =>
          Py.int k
          = if 4300 <? length k then None
            else Some (Z.of_nat (Py.value_of_digits k)))
       (od_keys (parse_exhibits_from_text raw_text)).
Proof.
  destruct (parsed_exhibit_keys raw_text) as [Hnd Hd].
  split; [assumption|]. split; [assumption|].
  apply Forall_impl with (2 := Hd). intros k Hk.
  apply int_digit_string. assumption.
Qed.

(** X16 (no marker, no exhibit): a text in which no line matches the
    exhibit marker pattern gives the empty exhibit dictionary, whatever its
    lines hold. *)
Theorem no_marker_no_exhibit (raw_text : str) :
  Forall (fun l => exhibit_pattern_match l = None)
    (Py.splitlines raw_text) ->
  parse_exhibits_from_text raw_text = [].
Proof.
  intros Hno. unfold parse_exhibits_from_text.
  assert (H : fold_left exhibit_step (Py.splitlines raw_text)
                (mkExhibitState [] None [] [])
              = mkExhibitState [] None [] []).
  { induction Hno as [|l ls Hl Hls IH]; [reflexivity|].
    cbn [fold_left]. unfold exhibit_step at 2. rewrite Hl. exact IH. }
  rewrite H. reflexivity.
Qed.

Lemma no_marker_no_exhibit_witness :
  parse_exhibits_from_text
    (Py.join [Py.nl] [ ("see EXHIBIT 1: below" : str); ("text" : str) ])
  = [].
Proof.
  apply (@no_marker_no_exhibit
           (Py.join [Py.nl] [ ("see EXHIBIT 1: below" : str);
                              ("text" : str) ])).
  vm_compute. repeat constructor.
Defined.

(** ** The renumbering of exhibits *)

(** The renumbering of a dictionary on whose keys [int] succeeds: the keys
    become 1 to N and the captions follow the sorted source keys. *)
Lemma renumber_sorted (text_exhibits_od : odict str) :
  Forall (fun k => Py.int k <> None) (od_keys text_exhibits_od) ->
  exists out sorted,
    sorted_by Py.int (od_keys text_exhibits_od) = Some sorted
    /\ renumber_exhibits text_exhibits_od = Some out
    /\ od_keys out = map Py.str_of_nat (seq 1 (length text_exhibits_od))
    /\ captions out = map (fun k => od_get k text_exhibits_od) sorted
    /\ (forall k, In k sorted <-> In k (od_keys text_exhibits_od))
    /\ (exists numbers,
           Forall2 (fun k z => Py.int k = Some z) sorted numbers
           /\ StronglySorted Z.le numbers)
    /\ (forall z,
           numbered Py.int z sorted
           = numbered Py.int z (od_keys text_exhibits_od)).
Proof.
  intros Hall.
  destruct (@sorted_by_spec str Py.int (od_keys text_exhibits_od) Hall)
    as [sorted [Hsort [Hin [Hlen [Hnum Hstable]]]]].
  destruct (@renumber_fold text_exhibits_od sorted [] 0)
    as [out [Hfold [Hkeys Hcap]]].
  - intros k Hk. apply Hin. assumption.
  - reflexivity.
  - exists out, sorted. unfold renumber_exhibits. rewrite Hsort, Hfold.
    cbn [Nat.add] in Hkeys. rewrite Hlen in Hkeys.
    unfold od_keys in Hkeys at 2. rewrite length_map in Hkeys.
    repeat split; try assumption.
    + apply Hin.
    + apply Hin.
Qed.

Lemma renumber_value_error (text_exhibits_od : odict str) :
  Exists (fun k => Py.int k = None) (od_keys text_exhibits_od) ->
  renumber_exhibits text_exhibits_od = None.
Proof.
  intros H. unfold renumber_exhibits.
  rewrite (@sorted_by_none str Py.int (od_keys text_exhibits_od) H).
  reflexivity.
Qed.

(** *** A number met again *)

(** The number [k] has been met: it is stored or skipped already, or it is
    the number of the open exhibit. *)
Definition met (k : str) (st : exhibit_state) : Prop :=
  seen k (seen_exhibits st) = true \/ current_exhibit_number st = Some k.

Lemma close_exhibit_met (st : exhibit_state) (k : str) :
  met k st -> seen k (snd (close_exhibit st)) = true.
Proof.
  unfold close_exhibit. intros [Hseen|Hcur].
  - destruct (current_exhibit_number st) as [c|]; [|assumption].
    destruct (negb (seen c (seen_exhibits st))); cbn [snd]; [|assumption].
    rewrite seen_cons, Hseen. apply Bool.orb_true_r.
  - rewrite Hcur.
    destruct (seen k (seen_exhibits st)) eqn:Hk; cbn [negb snd];
      [assumption|].
    rewrite seen_cons, (proj2 (str_eqb_eq k k) eq_refl). reflexivity.
Qed.

Lemma exhibit_step_met (st : exhibit_state) (line k : str) :
  met k st -> met k (exhibit_step st line).
Proof.
  intros Hmet. unfold exhibit_step.
  destruct (exhibit_pattern_match line) as [[number start_text]|].
  - pose proof (@close_exhibit_met st k Hmet) as Hseen.
    destruct (close_exhibit st) as [exhibits' seen']. cbn [snd] in Hseen.
    destruct (seen number seen'); left; assumption.
  - destruct (current_exhibit_number st) eqn:Hc; [|assumption].
    destruct Hmet as [Hseen|Hcur]; [left; assumption|].
    right. cbn [current_exhibit_number]. congruence.
Qed.

Lemma exhibit_marker_met (st : exhibit_state) (line k start_text : str) :
  exhibit_pattern_match line = Some (k, start_text) ->
  met k (exhibit_step st line).
Proof.
  intros Hm. unfold exhibit_step. rewrite Hm.
  destruct (close_exhibit st) as [exhibits' seen'].
  destruct (seen k seen') eqn:Hk; [left; assumption|right; reflexivity].
Qed.

Lemma exhibit_steps_met (lines : list str) (k : str) :
  forall st, met k st -> met k (fold_left exhibit_step lines st).
Proof.
  induction lines as [|l lines IH]; intros st Hst; [assumption|].
  cbn [fold_left]. apply IH. apply exhibit_step_met. assumption.
Qed.

Lemma exhibit_marker_before (before : list str) (k : str) :
  Exists (fun l => exists s, exhibit_pattern_match l = Some (k, s)) before ->
  forall st, met k (fold_left exhibit_step before st).
Proof.
  induction 1 as [l ls [s Hl]|l ls Hls IH]; intros st; cbn [fold_left].
  - apply exhibit_steps_met. apply (@exhibit_marker_met st l k s Hl).
  - apply IH.
Qed.

(** The state in which no exhibit is open. *)
Definition closed_state (st : exhibit_state) : exhibit_state :=
  mkExhibitState (fst (close_exhibit st)) None [] (snd (close_exhibit st)).

Lemma exhibit_marker_dropped (st : exhibit_state)
  (line k start_text : str) :
  exhibit_pattern_match line = Some (k, start_text) ->
  met k st ->
  exhibit_step st line = closed_state st.
Proof.
  intros Hm Hmet. pose proof (@close_exhibit_met st k Hmet) as Hseen.
  unfold exhibit_step, closed_state. rewrite Hm.
  destruct (close_exhibit st) as [exhibits' seen']. cbn [snd] in Hseen.
  rewrite Hseen. reflexivity.
Qed.

Lemma closed_state_skips (body : list str) (st : exhibit_state) :
  Forall (fun l => exhibit_pattern_match l = None) body ->
  fold_left exhibit_step body (closed_state st) = closed_state st.
Proof.
  induction 1 as [|l ls Hl Hls IH]; [reflexivity|].
  cbn [fold_left]. unfold exhibit_step at 2. rewrite Hl. exact IH.
Qed.

Lemma closed_state_marker (st : exhibit_state) (line : str) :
  exhibit_pattern_match line <> None ->
  exhibit_step (closed_state st) line = exhibit_step st line.
Proof.
  intros Hm. unfold exhibit_step.
  destruct (exhibit_pattern_match line) as [[number start_text]|];
    [|exfalso; apply Hm; reflexivity].
  unfold closed_state, close_exhibit at 1.
  cbn [current_exhibit_number exhibits seen_exhibits].
  destruct (close_exhibit st) as [exhibits' seen']. reflexivity.
Qed.

(** A marker whose number has been met is dropped with the lines that
    follow it up to the next marker: without them the exhibits are the
    same. *)
Lemma exhibit_dropped (before body after : list str)
  (m k start_text : str) :
  exhibit_pattern_match m = Some (k, start_text) ->
  Exists (fun l => exists s, exhibit_pattern_match l = Some (k, s)) before ->
  Forall (fun l => exhibit_pattern_match l = None) body ->
  match after with
  | [] => True
  | a :: _ => exhibit_pattern_match a <> None
  end ->
  fst (close_exhibit
         (fold_left exhibit_step (before ++ m :: body ++ after)
            (mkExhibitState [] None [] [])))
  = fst (close_exhibit
           (fold_left exhibit_step (before ++ after)
              (mkExhibitState [] None [] []))).
Proof.
  intros Hm Hbefore Hbody Hafter.
  rewrite !fold_left_app. cbn [fold_left]. rewrite fold_left_app.
  pose proof (@exhibit_marker_before before k Hbefore
                (mkExhibitState [] None [] [])) as Hmet.
  set (st := fold_left exhibit_step before (mkExhibitState [] None [] []))
    in *.
  rewrite (@exhibit_marker_dropped st m k start_text Hm Hmet).
  rewrite (@closed_state_skips body st Hbody).
  destruct after as [|a after].
  - cbn [fold_left]. unfold closed_state, close_exhibit at 1.
    reflexivity.
  - cbn [fold_left]. rewrite (@closed_state_marker st a Hafter). reflexivity.
Qed.

Definition exhibits_as_claimed : str :=
  Py.join [Py.nl]
    [ ("EXHIBIT 3: C" : str); ("EXHIBIT 1: A" : str);
      ("EXHIBIT 1: A-dup" : str); ("EXHIBIT 5: E" : str) ].

Definition exhibits_rewritten : str :=
  Py.join [Py.nl]
    [ ("EXHIBIT 1: A" : str); ("EXHIBIT 01: A-dup" : str);
      ("EXHIBIT 5: E" : str) ].

(** C3 as stated fails: the source number 1 is met again, written 01, and
    is not dropped; its content becomes exhibit 2. *)
Lemma rewritten_number_kept :
  Py.int "1" = Some 1%Z
  /\ Py.int "01" = Some 1%Z
  /\ renumber_exhibits (parse_exhibits_from_text exhibits_rewritten)
     = Some [ (("1" : str), mkExhibit "A" []);
              (("2" : str), mkExhibit "A-dup" []);
              (("3" : str), mkExhibit "E" []) ].
Proof. repeat split; vm_compute; reflexivity. Qed.

(** C3, amended (exhibit renumbering): the exhibit text with the numbers 3
    ("C"), 1 ("A"), 1 again ("A-dup") and 5 ("E"), given to the parser as
    it stands, is parsed and renumbered into exactly the three exhibits
    "1", "2", "3" with the captions "A", "C", "E"; cut by [main] at the
    first line that opens exhibit 1, it gives "A" and "E" only.  When
    [int] accepts every key of a dictionary, the renumbering gives the keys
    "1" to "N" and the captions of the source keys in ascending order of
    their numbers, keys of the same number in the order of the dictionary;
    when [int] refuses a key it ends with that [ValueError].  The keys of
    the parser are distinct strings of digits, which [int] refuses exactly
    beyond 4300 digits.  The parser tells exhibits apart by the digits as
    written: a marker whose digits have been met before is dropped with
    the lines up to the next marker, and what is stored is never
    replaced. *)
Theorem exhibit_renumbering :
  renumber_exhibits (parse_exhibits_from_text exhibits_as_claimed)
  = Some [ (("1" : str), mkExhibit "A" []);
           (("2" : str), mkExhibit "C" []);
           (("3" : str), mkExhibit "E" []) ]
  /\ renumber_exhibits
       (parse_exhibits_from_text
          (snd (separate_after_exhibit_1 exhibits_as_claimed)))
     = Some [ (("1" : str), mkExhibit "A" []);
              (("2" : str), mkExhibit "E" []) ]
  /\ (forall text_exhibits_od : odict str,
         Forall (fun k => Py.int k <> None) (od_keys text_exhibits_od) ->
         exists out sorted,
           sorted_by Py.int (od_keys text_exhibits_od) = Some sorted
           /\ renumber_exhibits text_exhibits_od = Some out
           /\ od_keys out
              = map Py.str_of_nat (seq 1 (length text_exhibits_od))
           /\ captions out
              = map (fun k => od_get k text_exhibits_od) sorted
           /\ (forall k, In k sorted <-> In k (od_keys text_exhibits_od))
           /\ (exists numbers,
                  Forall2 (fun k z => Py.int k = Some z) sorted numbers
                  /\ StronglySorted Z.le numbers)
           /\ (forall z,
                  numbered Py.int z sorted
                  = numbered Py.int z (od_keys text_exhibits_od)))
  /\ (forall text_exhibits_od : odict str,
         Exists (fun k => Py.int k = None) (od_keys text_exhibits_od) ->
         renumber_exhibits text_exhibits_od = None)
  /\ (forall raw_text : str,
         NoDup (od_keys (parse_exhibits_from_text raw_text))
         /\ Forall
              (fun k =>
                 digit_string k
                 /\ Py.int k
                    = if 4300 <? length k then None
                      else Some (Z.of_nat (Py.value_of_digits k)))
              (od_keys (parse_exhibits_from_text raw_text)))
  /\ (forall (raw_text raw_text' : str) (before body after : list str)
        (m k start_text : str),
         Py.splitlines raw_text = before ++ m :: body ++ after ->
         Py.splitlines raw_text' = before ++ after ->
         exhibit_pattern_match m = Some (k, start_text) ->
         Exists (fun l => exists s, exhibit_pattern_match l = Some (k, s))
           before ->
         Forall (fun l => exhibit_pattern_match l = None) body ->
         match after with
         | [] => True
         | a :: _ => exhibit_pattern_match a <> None
         end ->
         parse_exhibits_from_text raw_text
         = parse_exhibits_from_text raw_text')
  /\ (forall (before after : list str) (k v : str),
         od_get k
           (exhibits (fold_left exhibit_step before
                        (mkExhibitState [] None [] []))) = Some v ->
         od_get k
           (fst (close_exhibit
                   (fold_left exhibit_step (before ++ after)
                      (mkExhibitState [] None [] [])))) = Some v).
Proof.
  split; [vm_compute; reflexivity|].
  split; [vm_compute; reflexivity|].
  split; [exact renumber_sorted|].
  split; [exact renumber_value_error|].
  split; [|split].
  - intros raw_text. destruct (parsed_exhibit_keys raw_text) as [Hnd Hd].
    split; [assumption|].
    apply Forall_impl with (2 := Hd). intros k Hk.
    split; [assumption|]. apply int_digit_string. assumption.
  - intros raw_text raw_text' before body after m k start_text
      Hlines Hlines' Hm Hbefore Hbody Hafter.
    unfold parse_exhibits_from_text. rewrite Hlines, Hlines'.
    apply (@exhibit_dropped before body after m k start_text);
      assumption.
  - intros before after k v Hk.
    assert (Hinit : stored_seen (mkExhibitState [] None [] [])).
    { intros k0 v0 H. discriminate. }
    rewrite fold_left_app.
    pose proof (@exhibit_steps_stored_seen before _ Hinit) as Hinv.
    destruct (@exhibit_steps_keep after _ k v Hinv Hk) as [Hinv' Hk'].
    apply close_exhibit_keeps; assumption.
Qed.

(** The rule that a number met again is dropped, on the example: without
    the second "EXHIBIT 1:" line the parsed exhibits are the same. *)
Lemma exhibit_renumbering_witness :
  parse_exhibits_from_text exhibits_as_claimed
  = parse_exhibits_from_text
      (Py.join [Py.nl]
         [ ("EXHIBIT 3: C" : str); ("EXHIBIT 1: A" : str);
           ("EXHIBIT 5: E" : str) ]).
Proof.
  refine (proj1 (proj2 (proj2 (proj2 (proj2 (proj2 exhibit_renumbering)))))
            exhibits_as_claimed
            (Py.join [Py.nl]
               [ ("EXHIBIT 3: C" : str); ("EXHIBIT 1: A" : str);
                 ("EXHIBIT 5: E" : str) ])
            [ ("EXHIBIT 3: C" : str); ("EXHIBIT 1: A" : str) ]
            [] [ ("EXHIBIT 5: E" : str) ]
            ("EXHIBIT 1: A-dup" : str) ("1" : str) ("A-dup" : str)
            _ _ _ _ _ _).
  - vm_compute. reflexivity.
  - vm_compute. reflexivity.
  - vm_compute. reflexivity.
  - apply Exists_cons_tl. apply Exists_cons_hd. exists ("A" : str).
    vm_compute. reflexivity.
  - constructor.
  - vm_compute. discriminate.
Defined.

(** ** Filtering twice *)

Lemma toc_filter_no_reference (pre : list heading_position) :
  Forall (fun h => is_reference h = false) pre ->
  filter_headings_for_toc pre = pre.
Proof.
  intros Hpre. unfold filter_headings_for_toc.
  rewrite (toc_before_reference [] Hpre). reflexivity.
Qed.

Lemma toc_after_reference (pre : list heading_position)
  (e : heading_position) (suffix : list heading_position) :
  Forall (fun h => is_reference h = false) pre ->
  is_reference e = true ->
  fold_left toc_step (pre ++ e :: suffix) (mkTocState [] false false)
  = fold_left toc_step suffix (mkTocState (pre ++ [e]) true false).
Proof.
  intros Hpre He.
  rewrite fold_left_app, (toc_before_reference [] Hpre).
  cbn [app fold_left]. f_equal.
  unfold toc_step. cbn. unfold is_reference in He. rewrite He. reflexivity.
Qed.

Lemma toc_filter_suppressed (pre mid : list heading_position)
  (e : heading_position) :
  Forall (fun h => is_reference h = false) pre ->
  is_reference e = true ->
  Forall (fun h => is_special h = false) mid ->
  filter_headings_for_toc (pre ++ e :: mid) = pre ++ [e].
Proof.
  intros Hpre He Hmid. unfold filter_headings_for_toc.
  rewrite (@toc_after_reference pre e mid Hpre He).
  rewrite (@toc_suppressed mid _ Hmid).
  reflexivity.
Qed.

Lemma toc_filter_special (pre mid rest : list heading_position)
  (e s : heading_position) :
  Forall (fun h => is_reference h = false) pre ->
  is_reference e = true ->
  Forall (fun h => is_special h = false) mid ->
  is_special s = true ->
  filter_headings_for_toc (pre ++ e :: mid ++ s :: rest)
  = pre ++ e :: s :: rest.
Proof.
  intros Hpre He Hmid Hs. unfold filter_headings_for_toc.
  rewrite (@toc_after_reference pre e (mid ++ s :: rest) Hpre He),
    fold_left_app, (@toc_suppressed mid _ Hmid).
  cbn [fold_left].
  replace (toc_step (mkTocState (pre ++ [e]) true false) s)
    with (mkTocState ((pre ++ [e]) ++ [s]) true true)
    by (unfold toc_step; cbn; unfold is_special in Hs; rewrite Hs;
        reflexivity).
  rewrite toc_special_section. cbn. rewrite <- !app_assoc. reflexivity.
Qed.

Lemma first_true {A : Type} (p : A -> bool) (l : list A) :
  Forall (fun x => p x = false) l
  \/ exists pre x suf,
       l = pre ++ x :: suf /\ Forall (fun y => p y = false) pre
       /\ p x = true.
Proof.
  induction l as [|x l IH]; [left; constructor|].
  destruct (p x) eqn:Hx.
  - right. exists [], x, l. repeat split; [constructor|assumption].
  - destruct IH as [H|[pre [y [suf [Hl [Hpre Hy]]]]]].
    + left. constructor; assumption.
    + right. exists (x :: pre), y, suf. subst l. repeat split;
        [constructor; assumption|assumption].
Qed.

(** X17 (filtering is idempotent): filtering an already filtered heading
    list changes nothing. *)
Theorem toc_filter_idempotent (hp : list heading_position) :
  filter_headings_for_toc (filter_headings_for_toc hp)
  = filter_headings_for_toc hp.
Proof.
  destruct (first_true is_reference hp)
    as [Hnone|[pre [e [suf [Hhp [Hpre He]]]]]].
  - rewrite (@toc_filter_no_reference hp Hnone).
    apply toc_filter_no_reference. assumption.
  - subst hp.
    destruct (first_true is_special suf)
      as [Hnone|[mid [s [rest [Hsuf [Hmid Hs]]]]]].
    + rewrite (@toc_filter_suppressed pre suf e Hpre He Hnone).
      apply (@toc_filter_suppressed pre [] e Hpre He (Forall_nil _)).
    + subst suf. rewrite (@toc_filter_special pre mid rest e s Hpre He Hmid Hs).
      apply (@toc_filter_special pre [] rest e s Hpre He (Forall_nil _) Hs).
Qed.

(** ** Sub-documents *)

Definition count_rules (ls : list str) : nat :=
  length (filter is_rule_line ls).

Definition no_rules (ls : list str) : Prop :=
  Forall (fun l => is_rule_line l = false) ls.

(** The documents as a single pass over the lines: [open] holds the lines
    read since an opening rule. *)
Fixpoint documents_pass (open : option (list str)) (ls : list str)
  : list (list str) :=
  match ls with
  | [] => []
  | l :: ls' =>
      match open with
      | None =>
          if is_rule_line l then documents_pass (Some []) ls'
          else documents_pass None ls'
      | Some doc_lines =>
          if is_rule_line l then doc_lines :: documents_pass None ls'
          else documents_pass (Some (doc_lines ++ [l])) ls'
      end
  end.

Lemma first_rule (ls : list str) :
  no_rules ls
  \/ exists a e b, ls = a ++ e :: b /\ no_rules a /\ is_rule_line e = true.
Proof. apply first_true. Qed.

Lemma documents_pass_open (a : list str) :
  forall doc_lines,
    no_rules a ->
    (forall e b,
        is_rule_line e = true ->
        documents_pass (Some doc_lines) (a ++ e :: b)
        = (doc_lines ++ a) :: documents_pass None b)
    /\ documents_pass (Some doc_lines) a = [].
Proof.
  induction a as [|l a IH]; intros doc_lines Hno.
  - split; [|reflexivity]. intros e b He. simpl. rewrite He, app_nil_r.
    reflexivity.
  - apply Forall_cons_iff in Hno as [Hl Hno].
    destruct (IH (doc_lines ++ [l]) Hno) as [IH1 IH2].
    split.
    + intros e b He. simpl. rewrite Hl, IH1 by assumption.
      rewrite <- app_assoc. reflexivity.
    + simpl. rewrite Hl. exact IH2.
Qed.

Section DocumentFacts.
Variable lines : list str.

(** The look-ahead of a document stops at the next rule line or at the end
    of the text. *)
Lemma document_loop (a : list str) :
  forall (j : nat) (doc_lines : list str) (fuel : nat),
    no_rules a ->
    length a < fuel ->
    (forall e b,
        skipn j lines = a ++ e :: b -> is_rule_line e = true ->
        while_loop fuel (document_body lines) (j, doc_lines)
        = Some (j + length a, doc_lines ++ a))
    /\ (skipn j lines = a ->
        while_loop fuel (document_body lines) (j, doc_lines)
        = Some (j + length a, doc_lines ++ a)).
Proof.
  induction a as [|l a IH]; intros j doc_lines fuel Hno Hfuel;
    (destruct fuel as [|fuel]; [simpl in Hfuel; lia|]).
  - rewrite Nat.add_0_r, app_nil_r. split.
    + intros e b Hskip He. simpl in Hskip.
      pose proof (line_at_skipn lines _ Hskip) as Hline.
      apply while_loop_break. unfold document_body.
      rewrite Hline, He, andb_false_r. reflexivity.
    + intros Hskip. apply skipn_nil_inv in Hskip.
      apply while_loop_break. unfold document_body.
      replace (j <? length lines) with false
        by (symmetry; apply Nat.ltb_ge; assumption).
      reflexivity.
  - apply Forall_cons_iff in Hno as [Hl Hno].
    assert (Hstep : forall rest,
               skipn j lines = l :: rest ->
               document_body lines (j, doc_lines)
               = Some (Continue (j + 1, doc_lines ++ [l]))
               /\ skipn (j + 1) lines = rest).
    { intros rest Hskip.
      pose proof (line_at_skipn lines _ Hskip) as Hline.
      destruct (skipn_cons_inv _ _ Hskip) as [_ [Hskip' Hlt]].
      split; [|assumption]. unfold document_body.
      rewrite (proj2 (Nat.ltb_lt _ _) Hlt), Hline, Hl. reflexivity. }
    destruct (IH (j + 1) (doc_lines ++ [l]) fuel Hno) as [IH1 IH2];
      [simpl in Hfuel; lia|].
    simpl length.
    replace (j + S (length a)) with (j + 1 + length a) by lia.
    replace (doc_lines ++ l :: a) with ((doc_lines ++ [l]) ++ a)
      by (rewrite <- app_assoc; reflexivity).
    split.
    + intros e b Hskip He. simpl in Hskip.
      destruct (Hstep _ Hskip) as [Hbody Hskip'].
      rewrite (while_loop_continue _ _ fuel Hbody).
      apply (IH1 e b); assumption.
    + intros Hskip.
      destruct (Hstep _ Hskip) as [Hbody Hskip'].
      rewrite (while_loop_continue _ _ fuel Hbody). apply IH2. assumption.
Qed.

Lemma documents_loop (f2 : nat) :
  length lines < f2 ->
  forall (n : nat) (ls : list str) (i f1 : nat) (docs : list str),
    length ls <= n ->
    skipn i lines = ls ->
    length ls < f1 ->
    while_loop f1 (documents_body lines f2) (i, docs)
    = Some (docs ++ map (Py.join [Py.nl]) (documents_pass None ls)).
Proof.
  intros Hf2. induction n as [|n IH]; intros ls i f1 docs Hn Hskip Hf1;
    (destruct f1 as [|f1]; [lia|]).
  - destruct ls; [|simpl in Hn; lia].
    apply skipn_nil_inv in Hskip. rewrite app_nil_r.
    apply while_loop_break. unfold documents_body.
    replace (i <? length lines) with false
      by (symmetry; apply Nat.ltb_ge; assumption).
    reflexivity.
  - destruct ls as [|l ls].
    { apply skipn_nil_inv in Hskip. rewrite app_nil_r.
      apply while_loop_break. unfold documents_body.
      replace (i <? length lines) with false
        by (symmetry; apply Nat.ltb_ge; assumption).
      reflexivity. }
    pose proof (line_at_skipn lines _ Hskip) as Hline.
    destruct (skipn_cons_inv _ _ Hskip) as [_ [Hskip' Hlt]].
    pose proof (f_equal (@length str) Hskip') as Hlen.
    rewrite length_skipn in Hlen.
    simpl documents_pass.
    destruct (is_rule_line l) eqn:Hl.
    + destruct (first_rule ls) as [Hno|[a [e [b [Hls [Hno He]]]]]].
      * destruct (@document_loop ls (i + 1) [] f2 Hno) as [_ Hrun];
          [lia|].
        destruct (documents_pass_open [] Hno) as [_ Hnone].
        rewrite Hnone. cbn [map]. rewrite app_nil_r.
        apply while_loop_break. unfold documents_body.
        rewrite (proj2 (Nat.ltb_lt _ _) Hlt), Hline, Hl.
        rewrite (Hrun Hskip').
        replace (i + 1 + length ls <? length lines) with false
          by (symmetry; apply Nat.ltb_ge; lia).
        reflexivity.
      * rewrite Hls in Hlen, Hskip', Hn, Hf1 |- *. clear Hls.
        rewrite length_app in Hlen. simpl in Hlen.
        destruct (@document_loop a (i + 1) [] f2 Hno) as [Hrun _]; [lia|].
        destruct (documents_pass_open [] Hno) as [Hsome _].
        rewrite (Hsome e b He). change ([] ++ a) with a. cbn [map].
        assert (Hskipb : skipn (i + 1 + length a + 1) lines = b).
        { replace (i + 1 + length a + 1) with (length (a ++ [e]) + (i + 1))
            by (rewrite length_app; simpl; lia).
          rewrite <- skipn_skipn, Hskip'.
          replace (a ++ e :: b) with ((a ++ [e]) ++ b)
            by (rewrite <- app_assoc; reflexivity).
          apply skipn_app_length. }
        rewrite while_loop_continue
          with (s' := (i + 1 + length a + 1,
                       docs ++ [Py.join [Py.nl] a])).
        -- rewrite (IH b (i + 1 + length a + 1) f1
                      (docs ++ [Py.join [Py.nl] a])); try assumption.
           ++ rewrite <- app_assoc. reflexivity.
           ++ simpl in Hn. rewrite length_app in Hn. simpl in Hn. lia.
           ++ simpl in Hf1. rewrite length_app in Hf1. simpl in Hf1. lia.
        -- unfold documents_body.
           rewrite (proj2 (Nat.ltb_lt _ _) Hlt), Hline, Hl.
           rewrite (Hrun e b Hskip' He).
           replace (i + 1 + length a <? length lines) with true
             by (symmetry; apply Nat.ltb_lt; lia).
           reflexivity.
    + rewrite while_loop_continue with (s' := (i + 1, docs)).
      * apply (IH ls (i + 1) f1 docs); try assumption.
        -- simpl in Hn. lia.
        -- simpl in Hf1. lia.
      * unfold documents_body.
        rewrite (proj2 (Nat.ltb_lt _ _) Hlt), Hline, Hl. reflexivity.
Qed.

End DocumentFacts.

(** The splitter ends on every text, with the documents of the single
    pass. *)
Lemma documents_are_pass (raw_text : str) (fuel : nat) :
  length (Py.splitlines raw_text) < fuel ->
  parse_documents_from_text fuel raw_text
  = Some (map (Py.join [Py.nl])
            (documents_pass None (Py.splitlines raw_text))).
Proof.
  intros Hfuel. unfold parse_documents_from_text.
  rewrite (@documents_loop (Py.splitlines raw_text) fuel Hfuel
             (length (Py.splitlines raw_text)) (Py.splitlines raw_text)
             0 fuel [] (le_n _) eq_refl Hfuel).
  reflexivity.
Qed.

Lemma documents_pass_count (ls : list str) :
  forall open,
    length (documents_pass open ls)
    = (count_rules ls + match open with Some _ => 1 | None => 0 end) / 2.
Proof.
  unfold count_rules.
  induction ls as [|l ls IH]; intros open.
  - destruct open; reflexivity.
  - cbn [documents_pass filter].
    destruct open as [doc_lines|]; destruct (is_rule_line l) eqn:Hl;
      cbn [length]; rewrite ?IH; cbn [length].
    + replace (S (length (filter is_rule_line ls)) + 1)
        with (length (filter is_rule_line ls) + 0 + 1 * 2) by lia.
      rewrite Nat.div_add by lia. lia.
    + reflexivity.
    + f_equal. lia.
    + reflexivity.
Qed.

(** [body] is the text strictly between two rule lines of [lines]. *)
Definition between_rules (lines body : list str) : Prop :=
  exists before opening closing after,
    lines = before ++ opening :: body ++ closing :: after
    /\ is_rule_line opening = true
    /\ is_rule_line closing = true
    /\ no_rules body.

Lemma documents_pass_between (ls : list str) :
  forall (pre : list str) (open : option (list str)),
    match open with
    | None => True
    | Some doc_lines =>
        exists before opening,
          pre = before ++ opening :: doc_lines
          /\ is_rule_line opening = true
          /\ no_rules doc_lines
    end ->
    Forall (between_rules (pre ++ ls)) (documents_pass open ls).
Proof.
  induction ls as [|l ls IH]; intros pre open Hopen; [constructor|].
  replace (pre ++ l :: ls) with ((pre ++ [l]) ++ ls)
    by (rewrite <- app_assoc; reflexivity).
  cbn [documents_pass].
  destruct open as [doc_lines|]; destruct (is_rule_line l) eqn:Hl.
  - destruct Hopen as [before [opening [Hpre [Hop Hno]]]].
    constructor; [|apply IH; exact I].
    exists before, opening, l, ls. repeat split; try assumption.
    rewrite Hpre, <- !app_assoc. reflexivity.
  - destruct Hopen as [before [opening [Hpre [Hop Hno]]]].
    apply IH. exists before, opening. repeat split; try assumption.
    + rewrite Hpre, <- app_assoc. reflexivity.
    + apply Forall_app. split; [assumption|]. constructor; [assumption|].
      constructor.
  - apply IH. exists pre, l. repeat split; [assumption|constructor].
  - apply IH. exact I.
Qed.

(** X18 (parse_documents_from_text): on every text the splitter ends, and
    it returns one document for every two rule lines (lines of equals
    signs or of dashes): a last rule line without a partner, and whatever
    follows it, gives no document, and a text without rule lines gives
    none. *)
Theorem documents_pair_rules (raw_text : str) (fuel : nat) :
  length (Py.splitlines raw_text) < fuel ->
  exists docs,
    parse_documents_from_text fuel raw_text = Some docs
    /\ length docs = count_rules (Py.splitlines raw_text) / 2.
Proof.
  intros Hfuel. eexists. split; [apply documents_are_pass; assumption|].
  rewrite length_map, documents_pass_count, Nat.add_0_r. reflexivity.
Qed.

Lemma documents_pair_rules_witness :
  exists docs,
    parse_documents_from_text 8
      (Py.join [Py.nl]
         [ ("intro" : str); ("=====" : str); ("first" : str);
           ("-----" : str); ("=====" : str); ("lost" : str) ])
    = Some docs
    /\ length docs
       = count_rules
           (Py.splitlines
              (Py.join [Py.nl]
                 [ ("intro" : str); ("=====" : str); ("first" : str);
                   ("-----" : str); ("=====" : str); ("lost" : str) ]))
         / 2.
Proof.
  apply (@documents_pair_rules
           (Py.join [Py.nl]
              [ ("intro" : str); ("=====" : str); ("first" : str);
                ("-----" : str); ("=====" : str); ("lost" : str) ]) 8).
  vm_compute. lia.
Defined.

(** X19 (parse_documents_from_text): every returned document is the
    newline-joined text found strictly between an opening and a closing
    rule line of the input, and holds no rule line itself. *)
Theorem documents_lie_between_rules (raw_text : str) (fuel : nat) :
  length (Py.splitlines raw_text) < fuel ->
  exists bodies,
    parse_documents_from_text fuel raw_text
    = Some (map (Py.join [Py.nl]) bodies)
    /\ Forall (between_rules (Py.splitlines raw_text)) bodies.
Proof.
  intros Hfuel. eexists. split; [apply documents_are_pass; assumption|].
  apply (@documents_pass_between (Py.splitlines raw_text) [] None I).
Qed.

Lemma documents_lie_between_rules_witness :
  exists bodies,
    parse_documents_from_text 8
      (Py.join [Py.nl]
         [ ("intro" : str); ("=====" : str); ("first" : str);
           ("-----" : str); ("=====" : str); ("lost" : str) ])
    = Some (map (Py.join [Py.nl]) bodies)
    /\ Forall
         (between_rules
            (Py.splitlines
               (Py.join [Py.nl]
                  [ ("intro" : str); ("=====" : str); ("first" : str);
                    ("-----" : str); ("=====" : str); ("lost" : str) ])))
         bodies.
Proof.
  apply (@documents_lie_between_rules
           (Py.join [Py.nl]
              [ ("intro" : str); ("=====" : str); ("first" : str);
                ("-----" : str); ("=====" : str); ("lost" : str) ]) 8).
  vm_compute. lia.
Defined.

(** ** The index *)

Definition is_idx_footer (op : index_op) : bool :=
  match op with IdxFooter _ _ => true | _ => false end.

Definition is_idx_label (op : index_op) : bool :=
  match op with IdxLabel _ => true | _ => false end.

(** The drawing of an entry: its text or its label. *)
Definition is_idx_entry (op : index_op) : bool :=
  match op with IdxLine _ _ _ | IdxLabel _ => true | _ => false end.

(** The texts of the entry lines of a canvas, in drawing order. *)
Definition idx_texts (cv : list index_op) : list str :=
  flat_map (fun op => match op with IdxLine t _ _ => [t] | _ => [] end) cv.

Lemma draw_toc_lines_entries (ts : list toc_line) :
  filter is_idx_entry (flat_map draw_toc_line ts)
  = flat_map draw_toc_line ts
  /\ filter is_idx_footer (flat_map draw_toc_line ts) = [].
Proof.
  induction ts as [|t ts [IH1 IH2]]; [split; reflexivity|].
  cbn [flat_map]. rewrite !filter_app, IH1, IH2.
  unfold draw_toc_line. destruct (show_pageline t); split; reflexivity.
Qed.

Section IndexFacts.
Variable flattened_lines : list toc_line.
Variables max_lines_per_page total_index_pages : nat.
Hypothesis max_positive : 0 < max_lines_per_page.

Local Abbreviation total_lines := (length flattened_lines).

(** The inner loop draws the next lines up to the end of the list or of
    the page. *)
Lemma index_lines_loop :
  forall (m i n : nat) (cv : list index_op) (fuel : nat),
    m = Nat.min (total_lines - i) (max_lines_per_page - n) ->
    m < fuel ->
    while_loop fuel (index_line_body flattened_lines max_lines_per_page)
      (i, n, cv)
    = Some (i + m,
            cv ++ flat_map draw_toc_line (firstn m (skipn i flattened_lines))).
Proof.
  induction m as [|m IH]; intros i n cv fuel Hm Hfuel;
    (destruct fuel as [|fuel]; [lia|]).
  - rewrite Nat.add_0_r. cbn [firstn flat_map]. rewrite app_nil_r.
    apply while_loop_break. unfold index_line_body.
    destruct (i <? total_lines) eqn:Hi;
      destruct (n <? max_lines_per_page) eqn:Hn; try reflexivity.
    apply Nat.ltb_lt in Hi, Hn. lia.
  - assert (Hi : i < total_lines) by lia.
    assert (Hn : n < max_lines_per_page) by lia.
    destruct (skipn_lt_cons flattened_lines Hi) as [t [rest Hskip]].
    destruct (skipn_cons_inv _ _ Hskip) as [Hnth [Hskip' _]].
    rewrite while_loop_continue
      with (s' := (i + 1, n + 1, cv ++ draw_toc_line t)).
    + rewrite (IH (i + 1) (n + 1) (cv ++ draw_toc_line t) fuel);
        [|lia|lia].
      rewrite Hskip, Hskip'. cbn [firstn flat_map].
      rewrite <- app_assoc. replace (i + 1 + m) with (i + S m) by lia.
      reflexivity.
    + unfold index_line_body.
      rewrite (proj2 (Nat.ltb_lt _ _) Hi), (proj2 (Nat.ltb_lt _ _) Hn), Hnth.
      reflexivity.
Qed.

(** The page loop from line [i] and page [current_page_index]: it draws
    all the lines left, and one footer for each page it needs. *)
Lemma index_pages_loop (f2 : nat) :
  total_lines < f2 ->
  forall (r i current_page_index : nat) (cv : list index_op) (f1 : nat),
    total_lines - i <= r ->
    i < total_lines ->
    r < f1 ->
    exists cv',
      while_loop f1
        (index_page_body flattened_lines max_lines_per_page
           total_index_pages f2)
        (i, current_page_index, cv)
      = Some (total_lines,
              current_page_index
              + (total_lines - i - 1) / max_lines_per_page,
              cv')
      /\ filter is_idx_footer cv'
         = filter is_idx_footer cv
           ++ map (fun k => IdxFooter k total_index_pages)
                (seq current_page_index
                   ((total_lines - i - 1) / max_lines_per_page + 1))
      /\ filter is_idx_entry cv'
         = filter is_idx_entry cv
           ++ flat_map draw_toc_line (skipn i flattened_lines).
Proof.
  intros Hf2.
  induction r as [|r IH]; intros i cpi cv f1 Hr Hi Hf1; [lia|].
  destruct f1 as [|f1]; [lia|].
  pose (m := Nat.min (total_lines - i) (max_lines_per_page - 0)).
  pose proof (@index_lines_loop m i 0 (cv ++ [IdxFrame]) f2 eq_refl
                ltac:(unfold m; lia)) as Hinner.
  destruct (draw_toc_lines_entries (firstn m (skipn i flattened_lines)))
    as [Hentries Hfooters].
  destruct (Nat.lt_ge_cases (i + m) total_lines) as [Hmore|Hdone].
  - assert (Hm : m = max_lines_per_page) by (unfold m; lia).
    destruct (IH (i + m) (cpi + 1)
                ((cv ++ [IdxFrame]
                  ++ flat_map draw_toc_line
                       (firstn m (skipn i flattened_lines)))
                 ++ [IdxFooter cpi total_index_pages] ++ [IdxShowPage]) f1)
      as [cv' [Hrun [Hfoot Hent]]]; [lia|lia|lia|].
    exists cv'. split; [|split].
    + rewrite while_loop_continue
        with (s' := (i + m, cpi + 1,
                     (cv ++ [IdxFrame]
                      ++ flat_map draw_toc_line
                           (firstn m (skipn i flattened_lines)))
                     ++ [IdxFooter cpi total_index_pages]
                     ++ [IdxShowPage])).
      * rewrite Hrun.
        replace (total_lines - i - 1)
          with (total_lines - (i + m) - 1 + 1 * max_lines_per_page) by lia.
        rewrite Nat.div_add by lia.
        replace (cpi + 1 + (total_lines - (i + m) - 1) / max_lines_per_page)
          with (cpi + ((total_lines - (i + m) - 1) / max_lines_per_page + 1))
          by lia.
        reflexivity.
      * unfold index_page_body.
        rewrite (proj2 (Nat.ltb_lt _ _) Hi), Hinner.
        rewrite (proj2 (Nat.ltb_lt _ _) Hmore).
        rewrite <- !app_assoc. reflexivity.
    + rewrite Hfoot, !filter_app, Hfooters. cbn [filter is_idx_footer app].
      rewrite app_nil_r, <- app_assoc. f_equal.
      replace ((total_lines - i - 1) / max_lines_per_page + 1)
        with (S ((total_lines - (i + m) - 1) / max_lines_per_page + 1)).
      * cbn [seq map app]. rewrite Nat.add_1_r. reflexivity.
      * replace (total_lines - i - 1)
          with (total_lines - (i + m) - 1 + 1 * max_lines_per_page) by lia.
        rewrite Nat.div_add by lia. lia.
    + rewrite Hent, !filter_app, Hentries. cbn [filter is_idx_entry app].
      rewrite !app_nil_r, <- app_assoc. f_equal.
      rewrite <- flat_map_app. f_equal.
      rewrite (Nat.add_comm i m), <- skipn_skipn. apply firstn_skipn.
  - assert (Hm : m = total_lines - i) by (unfold m; lia).
    exists ((cv ++ [IdxFrame]
             ++ flat_map draw_toc_line (firstn m (skipn i flattened_lines)))
            ++ [IdxFooter cpi total_index_pages]).
    assert (Hsmall : (total_lines - i - 1) / max_lines_per_page = 0)
      by (apply Nat.div_small; unfold m in Hm; lia).
    rewrite Hsmall. split; [|split].
    + apply while_loop_break. unfold index_page_body.
      rewrite (proj2 (Nat.ltb_lt _ _) Hi), Hinner.
      replace (i + m <? total_lines) with false
        by (symmetry; apply Nat.ltb_ge; assumption).
      rewrite Nat.add_0_r, <- !app_assoc.
      replace (i + m) with total_lines by lia. reflexivity.
    + rewrite !filter_app, Hfooters. cbn [filter is_idx_footer app seq map].
      rewrite app_nil_r. reflexivity.
    + rewrite !filter_app, Hentries. cbn [filter is_idx_entry app].
      rewrite app_nil_r. f_equal.
      rewrite firstn_all2; [reflexivity|]. rewrite length_skipn. lia.
Qed.

End IndexFacts.

Lemma index_max_lines_positive : 0 < index_max_lines_per_page.
Proof. unfold index_max_lines_per_page. simpl. lia. Qed.

Lemma index_page_count_positive (total_lines : nat) :
  0 < total_lines ->
  index_page_count total_lines
  = 1 + (total_lines - 0 - 1) / index_max_lines_per_page.
Proof.
  intros Hpos. unfold index_page_count.
  pose proof index_max_lines_positive as Hmax.
  replace (total_lines + index_max_lines_per_page - 1)
    with (total_lines - 0 - 1 + 1 * index_max_lines_per_page) by lia.
  rewrite Nat.div_add by lia. lia.
Qed.

(** The index of a non-empty list of lines. *)
Lemma index_run (stringWidth : str -> str -> nat -> Q)
  (heading_positions : list heading_position) (fuel : nat) :
  0 < length (flatten_headings stringWidth heading_positions) ->
  length (flatten_headings stringWidth heading_positions) < fuel ->
  exists cv,
    generate_index_pdf stringWidth fuel heading_positions
    = Some (length (flatten_headings stringWidth heading_positions),
            index_page_count
              (length (flatten_headings stringWidth heading_positions)),
            cv)
    /\ filter is_idx_footer cv
       = map (fun k =>
                IdxFooter k
                  (index_page_count
                     (length
                        (flatten_headings stringWidth heading_positions))))
           (seq 1
              (index_page_count
                 (length (flatten_headings stringWidth heading_positions))))
    /\ filter is_idx_entry cv
       = flat_map draw_toc_line
           (flatten_headings stringWidth heading_positions).
Proof.
  intros Hpos Hfuel.
  destruct (@index_pages_loop
              (flatten_headings stringWidth heading_positions)
              index_max_lines_per_page
              (index_page_count
                 (length (flatten_headings stringWidth heading_positions)))
              index_max_lines_positive fuel Hfuel
              (length (flatten_headings stringWidth heading_positions))
              0 1 [] fuel ltac:(lia) Hpos Hfuel)
    as [cv [Hrun [Hfoot Hent]]].
  rewrite <- (index_page_count_positive Hpos) in Hrun.
  replace ((length (flatten_headings stringWidth heading_positions) - 0 - 1)
           / index_max_lines_per_page + 1)
    with (index_page_count
            (length (flatten_headings stringWidth heading_positions)))
    in Hfoot by (rewrite (index_page_count_positive Hpos); lia).
  exists cv. split; [|split].
  - exact Hrun.
  - rewrite Hfoot. reflexivity.
  - rewrite Hent. reflexivity.
Qed.

Lemma wrap_text_nonempty (stringWidth : str -> str -> nat -> Q)
  (font_name : str) (font_size : nat) (max_width : Q) (full_text : str) :
  wrap_text_to_lines stringWidth font_name font_size max_width full_text
  <> [].
Proof.
  intros Hnil.
  assert (H : length
                (filter last_of_paragraph
                   (wrap_text_to_lines stringWidth font_name font_size
                      max_width full_text))
              = S (Py.count_char Py.nl full_text)).
  { unfold wrap_text_to_lines.
    rewrite (wrap_text_concat stringWidth font_name font_size max_width).
    cbn [app]. rewrite paragraph_ends. apply split_char_length. }
  rewrite Hnil in H. discriminate.
Qed.

(** The font of an index entry. *)
Definition entry_font (is_sub : bool) : str * nat :=
  if is_sub then (("Helvetica" : str), 9)
  else (("Helvetica-Bold" : str), 10).

(** The wrapped lines of a heading's text, in the entry font and the
    entry width. *)
Definition entry_texts (stringWidth : str -> str -> nat -> Q)
  (h : heading_position) : list str :=
  let '(text, _, _, is_sub) := h in
  map fst
    (wrap_text_to_lines stringWidth (fst (entry_font is_sub))
       (snd (entry_font is_sub)) max_entry_width text).

(** The label [pg:ln] of a heading. *)
Definition entry_label (h : heading_position) : str :=
  Py.str_of_nat (heading_page h) ++ [Py.colon]
  ++ Py.str_of_nat (heading_line h).

Lemma combine_seq_snd {A : Type} (l : list A) :
  forall k, map snd (combine (seq k (length l)) l) = l.
Proof.
  induction l as [|x l IH]; intros k; [reflexivity|].
  cbn [length seq combine map snd]. rewrite IH. reflexivity.
Qed.

Lemma idx_texts_drawn (ts : list toc_line) :
  idx_texts (flat_map draw_toc_line ts) = map line_text ts.
Proof.
  unfold idx_texts.
  induction ts as [|t ts IH]; [reflexivity|].
  cbn [flat_map map]. rewrite flat_map_app, IH.
  unfold draw_toc_line. destruct (show_pageline t); reflexivity.
Qed.

Lemma idx_texts_entries (cv : list index_op) :
  idx_texts (filter is_idx_entry cv) = idx_texts cv.
Proof.
  unfold idx_texts.
  induction cv as [|op cv IH]; [reflexivity|].
  destruct op; cbn [filter is_idx_entry flat_map]; rewrite IH; reflexivity.
Qed.

Lemma idx_labels_entries (cv : list index_op) :
  filter is_idx_label (filter is_idx_entry cv) = filter is_idx_label cv.
Proof.
  induction cv as [|op cv IH]; [reflexivity|].
  destruct op; cbn [filter is_idx_entry is_idx_label]; rewrite IH;
    reflexivity.
Qed.

Section FlattenFacts.
Variable stringWidth : str -> str -> nat -> Q.

Lemma flatten_heading_texts (h : heading_position) :
  map line_text (flatten_heading stringWidth h) = entry_texts stringWidth h.
Proof.
  destruct h as [[[text pg] ln] is_sub].
  unfold flatten_heading, entry_texts, enumerate.
  replace (fst (entry_font is_sub))
    with (if is_sub then ("Helvetica" : str) else ("Helvetica-Bold" : str))
    by (destruct is_sub; reflexivity).
  replace (snd (entry_font is_sub)) with (if is_sub then 9 else 10)
    by (destruct is_sub; reflexivity).
  pose proof (@wrap_text_nonempty stringWidth
                (if is_sub then ("Helvetica" : str)
                 else ("Helvetica-Bold" : str))
                (if is_sub then 9 else 10) max_entry_width text) as Hne.
  destruct (wrap_text_to_lines stringWidth
              (if is_sub then ("Helvetica" : str)
               else ("Helvetica-Bold" : str))
              (if is_sub then 9 else 10) max_entry_width text)
    as [|e wrapped]; [exfalso; apply Hne; reflexivity|].
  rewrite map_map. cbn [line_text].
  apply (combine_seq_snd (map fst (e :: wrapped)) 0).
Qed.

Lemma later_lines_unlabelled (pg ln : nat) (font_name : str)
  (font_size : nat) (texts : list str) :
  forall k,
    0 < k ->
    filter is_idx_label
      (flat_map draw_toc_line
         (map (fun it => mkTocLine (snd it) pg ln font_name font_size
                           (fst it =? 0))
            (combine (seq k (length texts)) texts)))
    = [].
Proof.
  induction texts as [|t texts IH]; intros k Hk; [reflexivity|].
  cbn [length seq combine map flat_map]. rewrite filter_app, IH by lia.
  unfold draw_toc_line. cbn [show_pageline fst].
  destruct k as [|k]; [lia|]. reflexivity.
Qed.

Lemma flatten_heading_label (h : heading_position) :
  filter is_idx_label
    (flat_map draw_toc_line (flatten_heading stringWidth h))
  = [IdxLabel (entry_label h)].
Proof.
  destruct h as [[[text pg] ln] is_sub].
  unfold flatten_heading, enumerate.
  pose proof (@wrap_text_nonempty stringWidth
                (if is_sub then ("Helvetica" : str)
                 else ("Helvetica-Bold" : str))
                (if is_sub then 9 else 10) max_entry_width text) as Hne.
  destruct (wrap_text_to_lines stringWidth
              (if is_sub then ("Helvetica" : str)
               else ("Helvetica-Bold" : str))
              (if is_sub then 9 else 10) max_entry_width text)
    as [|e wrapped]; [exfalso; apply Hne; reflexivity|].
  cbn [map length seq combine flat_map]. rewrite filter_app.
  rewrite later_lines_unlabelled by lia.
  reflexivity.
Qed.

Lemma flatten_heading_nonempty (h : heading_position) :
  0 < length (flatten_heading stringWidth h).
Proof.
  pose proof (f_equal (@length _) (flatten_heading_label h)) as H.
  destruct (flatten_heading stringWidth h); [discriminate|simpl; lia].
Qed.

Lemma flatten_headings_texts (hps : list heading_position) :
  map line_text (flatten_headings stringWidth hps)
  = flat_map (entry_texts stringWidth) hps.
Proof.
  unfold flatten_headings.
  induction hps as [|h hps IH]; [reflexivity|].
  cbn [flat_map]. rewrite map_app, IH, flatten_heading_texts. reflexivity.
Qed.

Lemma flatten_headings_labels (hps : list heading_position) :
  filter is_idx_label
    (flat_map draw_toc_line (flatten_headings stringWidth hps))
  = map (fun h => IdxLabel (entry_label h)) hps.
Proof.
  unfold flatten_headings.
  induction hps as [|h hps IH]; [reflexivity|].
  cbn [flat_map map]. rewrite flat_map_app, filter_app, IH.
  rewrite flatten_heading_label. reflexivity.
Qed.

Lemma flatten_headings_positive (hps : list heading_position) :
  hps <> [] -> 0 < length (flatten_headings stringWidth hps).
Proof.
  destruct hps as [|h hps]; [intros H; exfalso; apply H; reflexivity|].
  intros _. unfold flatten_headings. cbn [flat_map].
  rewrite length_app. pose proof (flatten_heading_nonempty h). lia.
Qed.

(** The index on any list of headings: the entries drawn are the
    flattened lines, in order. *)
Lemma index_entries (hps : list heading_position) (fuel : nat) :
  length (flatten_headings stringWidth hps) < fuel ->
  exists i current_page_index cv,
    generate_index_pdf stringWidth fuel hps
    = Some (i, current_page_index, cv)
    /\ filter is_idx_entry cv
       = flat_map draw_toc_line (flatten_headings stringWidth hps).
Proof.
  intros Hfuel.
  destruct (Nat.eq_0_gt_0_cases (length (flatten_headings stringWidth hps)))
    as [Hzero|Hpos].
  - exists 0, 1, []. unfold generate_index_pdf.
    destruct (flatten_headings stringWidth hps); [|discriminate].
    destruct fuel as [|fuel]; [simpl in Hfuel; lia|]. split; reflexivity.
  - destruct (@index_run stringWidth hps fuel Hpos Hfuel)
      as [cv [Hrun [_ Hent]]].
    eexists _, _, cv. split; [exact Hrun|exact Hent].
Qed.

End FlattenFacts.

(** X20 (generate_index_pdf): for a non-empty list of headings the index
    ends with every flattened line consumed, and its pages carry the
    footers Index Page 1 of N up to Index Page N of N, where N is the
    total computed beforehand: the announced total is the number of pages
    drawn. *)
Theorem index_footers_count_up (stringWidth : str -> str -> nat -> Q)
  (heading_positions : list heading_position) (fuel : nat) :
  heading_positions <> [] ->
  length (flatten_headings stringWidth heading_positions) < fuel ->
  exists cv,
    generate_index_pdf stringWidth fuel heading_positions
    = Some (length (flatten_headings stringWidth heading_positions),
            index_page_count
              (length (flatten_headings stringWidth heading_positions)),
            cv)
    /\ filter is_idx_footer cv
       = map (fun k =>
                IdxFooter k
                  (index_page_count
                     (length
                        (flatten_headings stringWidth heading_positions))))
           (seq 1
              (index_page_count
                 (length (flatten_headings stringWidth heading_positions)))).
Proof.
  intros Hne Hfuel.
  destruct (@index_run stringWidth heading_positions fuel
              (flatten_headings_positive stringWidth Hne) Hfuel)
    as [cv [Hrun [Hfoot _]]].
  exists cv. split; assumption.
Qed.

Lemma index_footers_count_up_witness :
  exists cv,
    generate_index_pdf unit_width 5
      [ (("I. PARTIES" : str), 1, 3, false);
        (("1. Plaintiff" : str), 1, 5, true) ]
    = Some (length
              (flatten_headings unit_width
                 [ (("I. PARTIES" : str), 1, 3, false);
                   (("1. Plaintiff" : str), 1, 5, true) ]),
            index_page_count
              (length
                 (flatten_headings unit_width
                    [ (("I. PARTIES" : str), 1, 3, false);
                      (("1. Plaintiff" : str), 1, 5, true) ])),
            cv)
    /\ filter is_idx_footer cv
       = map (fun k =>
                IdxFooter k
                  (index_page_count
                     (length
                        (flatten_headings unit_width
                           [ (("I. PARTIES" : str), 1, 3, false);
                             (("1. Plaintiff" : str), 1, 5, true) ]))))
           (seq 1
              (index_page_count
                 (length
                    (flatten_headings unit_width
                       [ (("I. PARTIES" : str), 1, 3, false);
                         (("1. Plaintiff" : str), 1, 5, true) ])))).
Proof.
  apply (@index_footers_count_up unit_width
           [ (("I. PARTIES" : str), 1, 3, false);
             (("1. Plaintiff" : str), 1, 5, true) ] 5).
  - discriminate.
  - vm_compute. lia.
Defined.

(** X21 (generate_index_pdf): the index draws exactly one page:line label
    for each heading, in the order of the headings, however many lines the
    heading's text wraps to and wherever the page breaks fall. *)
Theorem index_labels_once (stringWidth : str -> str -> nat -> Q)
  (heading_positions : list heading_position) (fuel : nat) :
  length (flatten_headings stringWidth heading_positions) < fuel ->
  exists i current_page_index cv,
    generate_index_pdf stringWidth fuel heading_positions
    = Some (i, current_page_index, cv)
    /\ filter is_idx_label cv
       = map (fun h => IdxLabel (entry_label h)) heading_positions.
Proof.
  intros Hfuel.
  destruct (@index_entries stringWidth heading_positions fuel Hfuel)
    as [i [p [cv [Hrun Hent]]]].
  exists i, p, cv. split; [assumption|].
  rewrite <- idx_labels_entries, Hent. apply flatten_headings_labels.
Qed.

Lemma index_labels_once_witness :
  exists i current_page_index cv,
    generate_index_pdf unit_width 5
      [ (("I. PARTIES" : str), 1, 3, false);
        (("1. Plaintiff" : str), 1, 5, true) ]
    = Some (i, current_page_index, cv)
    /\ filter is_idx_label cv
       = map (fun h => IdxLabel (entry_label h))
           [ (("I. PARTIES" : str), 1, 3, false);
             (("1. Plaintiff" : str), 1, 5, true) ].
Proof.
  apply (@index_labels_once unit_width
           [ (("I. PARTIES" : str), 1, 3, false);
             (("1. Plaintiff" : str), 1, 5, true) ] 5).
  vm_compute. lia.
Defined.

(** X22 (generate_index_pdf, wrap_text_to_lines): the entry lines of the
    index are, in order, the wrapped lines of every heading's text, in the
    entry font of the heading; no line is lost or repeated at a page break,
    and the fallback to one empty line for a heading without wrapped lines
    is never taken. *)
Theorem index_entries_complete (stringWidth : str -> str -> nat -> Q)
  (heading_positions : list heading_position) (fuel : nat) :
  length (flatten_headings stringWidth heading_positions) < fuel ->
  exists i current_page_index cv,
    generate_index_pdf stringWidth fuel heading_positions
    = Some (i, current_page_index, cv)
    /\ idx_texts cv = flat_map (entry_texts stringWidth) heading_positions.
Proof.
  intros Hfuel.
  destruct (@index_entries stringWidth heading_positions fuel Hfuel)
    as [i [p [cv [Hrun Hent]]]].
  exists i, p, cv. split; [assumption|].
  rewrite <- idx_texts_entries, Hent, idx_texts_drawn.
  apply flatten_headings_texts.
Qed.

Lemma index_entries_complete_witness :
  exists i current_page_index cv,
    generate_index_pdf unit_width 5
      [ (("I. PARTIES" : str), 1, 3, false);
        (("1. Plaintiff" : str), 1, 5, true) ]
    = Some (i, current_page_index, cv)
    /\ idx_texts cv
       = flat_map (entry_texts unit_width)
           [ (("I. PARTIES" : str), 1, 3, false);
             (("1. Plaintiff" : str), 1, 5, true) ].
Proof.
  apply (@index_entries_complete unit_width
           [ (("I. PARTIES" : str), 1, 3, false);
             (("1. Plaintiff" : str), 1, 5, true) ] 5).
  vm_compute. lia.
Defined.

(** ** The split at the first exhibit *)

(** The lines before the first line that opens exhibit 1, and the lines
    from it on. *)
Fixpoint break_at_ex1 (lines : list str) : list str * list str :=
  match lines with
  | [] => ([], [])
  | l :: ls =>
      if pattern_ex1_match l then ([], lines)
      else (l :: fst (break_at_ex1 ls), snd (break_at_ex1 ls))
  end.

Lemma separate_found (lines : list str) :
  forall main_part exhibits_part,
    fold_left separate_step lines (main_part, exhibits_part, true)
    = (main_part, exhibits_part ++ lines, true).
Proof.
  induction lines as [|l ls IH]; intros main_part exhibits_part.
  - rewrite app_nil_r. reflexivity.
  - cbn [fold_left separate_step negb andb]. rewrite IH, <- app_assoc.
    reflexivity.
Qed.

Lemma separate_not_found (lines : list str) :
  forall main_part,
    exists found_ex1,
      fold_left separate_step lines (main_part, [], false)
      = (main_part ++ fst (break_at_ex1 lines), snd (break_at_ex1 lines),
         found_ex1).
Proof.
  induction lines as [|l ls IH]; intros main_part.
  - exists false. cbn. rewrite app_nil_r. reflexivity.
  - cbn [fold_left separate_step negb andb break_at_ex1].
    destruct (pattern_ex1_match l) eqn:Hl.
    + exists true. rewrite separate_found. cbn [fst snd app].
      rewrite app_nil_r. reflexivity.
    + destruct (IH (main_part ++ [l])) as [found Hfold].
      exists found. rewrite Hfold. cbn [fst snd]. rewrite <- app_assoc.
      reflexivity.
Qed.

Lemma separate_is_break (full_text : str) :
  separate_after_exhibit_1 full_text
  = (Py.join [Py.nl] (fst (break_at_ex1 (Py.splitlines full_text))),
     Py.join [Py.nl] (snd (break_at_ex1 (Py.splitlines full_text)))).
Proof.
  unfold separate_after_exhibit_1.
  destruct (separate_not_found (Py.splitlines full_text) []) as [found H].
  rewrite H. reflexivity.
Qed.

Lemma break_at_ex1_facts (lines : list str) :
  fst (break_at_ex1 lines) ++ snd (break_at_ex1 lines) = lines
  /\ Forall (fun l => pattern_ex1_match l = false) (fst (break_at_ex1 lines))
  /\ match snd (break_at_ex1 lines) with
     | [] => Forall (fun l => pattern_ex1_match l = false) lines
     | l :: _ => pattern_ex1_match l = true
     end.
Proof.
  induction lines as [|l ls [IH1 [IH2 IH3]]].
  - repeat split; constructor.
  - cbn [break_at_ex1]. destruct (pattern_ex1_match l) eqn:Hl; cbn [fst snd].
    + repeat split; [constructor|assumption].
    + repeat split.
      * cbn [app]. rewrite IH1. reflexivity.
      * constructor; assumption.
      * destruct (snd (break_at_ex1 ls)); [|assumption].
        constructor; assumption.
Qed.

(** X23 (separate_after_exhibit_1 in main): the split cuts the lines of
    the input in two at the first line that opens exhibit 1: the main part
    and the exhibits part are the newline-joined lines before and from that
    line, no line of the main part opens exhibit 1, and without such a line
    everything is main part. *)
Theorem separation_cuts_at_exhibit_1 (full_text : str) :
  exists main_part exhibits_part,
    separate_after_exhibit_1 full_text
    = (Py.join [Py.nl] main_part, Py.join [Py.nl] exhibits_part)
    /\ main_part ++ exhibits_part = Py.splitlines full_text
    /\ Forall (fun l => pattern_ex1_match l = false) main_part
    /\ match exhibits_part with
       | [] => True
       | l :: _ => pattern_ex1_match l = true
       end.
Proof.
  exists (fst (break_at_ex1 (Py.splitlines full_text))),
         (snd (break_at_ex1 (Py.splitlines full_text))).
  destruct (break_at_ex1_facts (Py.splitlines full_text)) as [H1 [H2 H3]].
  repeat split; try assumption.
  - apply separate_is_break.
  - destruct (snd (break_at_ex1 (Py.splitlines full_text)));
      [exact I|assumption].
Qed.

Definition plain_char (c : ascii) : Prop := Py.islinebreak c = false.

(** A string without a line boundary. *)
Definition plain_line (l : str) : Prop := Forall plain_char l.

Lemma splitlines_plain (s : str) :
  forall after_cr cur,
    plain_line cur ->
    Forall plain_line (Py.splitlines_from after_cr cur s).
Proof.
  induction s as [|c s IH]; intros after_cr cur Hcur.
  - cbn [Py.splitlines_from]. destruct (Py.isempty cur); constructor;
      [|constructor].
    apply Forall_rev. assumption.
  - cbn [Py.splitlines_from].
    destruct (after_cr && Ascii.eqb c Py.nl).
    + apply IH. constructor.
    + destruct (Py.islinebreak c) eqn:Hc.
      * constructor; [apply Forall_rev; assumption|]. apply IH. constructor.
      * apply IH. constructor; assumption.
Qed.

Lemma islinebreak_nl : Py.islinebreak Py.nl = true.
Proof. reflexivity. Qed.

(** A plain line in front of a text comes back as its first line. *)
Lemma splitlines_first (l : str) :
  forall cur,
    plain_line l ->
    (forall rest,
        Py.splitlines_from false cur (l ++ Py.nl :: rest)
        = (rev cur ++ l) :: Py.splitlines_from false [] rest)
    /\ (rev cur ++ l <> [] ->
        Py.splitlines_from false cur l = [rev cur ++ l]).
Proof.
  induction l as [|c l IH]; intros cur Hl.
  - rewrite app_nil_r. split.
    + intros rest. cbn [app Py.splitlines_from andb].
      rewrite islinebreak_nl. reflexivity.
    + intros Hne. cbn [Py.splitlines_from].
      destruct cur; [exfalso; apply Hne; reflexivity|reflexivity].
  - apply Forall_cons_iff in Hl as [Hc Hl].
    destruct (IH (c :: cur) Hl) as [IH1 IH2].
    cbn [rev] in IH1, IH2. rewrite <- app_assoc in IH1, IH2.
    cbn [app] in IH1, IH2.
    split.
    + intros rest. cbn [app Py.splitlines_from andb].
      unfold plain_char in Hc. rewrite Hc. apply IH1.
    + intros Hne. cbn [Py.splitlines_from andb].
      unfold plain_char in Hc. rewrite Hc. apply IH2. assumption.
Qed.

Lemma splitlines_join_first (l : str) (ls : list str) :
  plain_line l -> l <> [] ->
  exists rest, Py.splitlines (Py.join [Py.nl] (l :: ls)) = l :: rest.
Proof.
  intros Hl Hne. unfold Py.splitlines.
  destruct (@splitlines_first l [] Hl) as [H1 H2].
  destruct ls as [|l' ls].
  - exists []. cbn [Py.join]. apply H2. assumption.
  - eexists. change (Py.join [Py.nl] (l :: l' :: ls))
      with (l ++ Py.nl :: Py.join [Py.nl] (l' :: ls)).
    apply H1.
Qed.

Lemma dropwhile_forall (P : ascii -> Prop) (p : ascii -> bool) (s : str) :
  Forall P s -> Forall P (Py.dropwhile p s).
Proof.
  induction 1 as [|c s Hc Hs IH]; [constructor|].
  cbn [Py.dropwhile]. destruct (p c); [assumption|].
  constructor; assumption.
Qed.

Lemma strip_prefix_forall (P : ascii -> Prop) (pat : str) :
  forall s r,
    strip_prefix_ci pat s = Some r -> Forall P s -> Forall P r.
Proof.
  induction pat as [|p pat IH]; intros s r H Hs.
  - destruct s; inversion H; subst; assumption.
  - destruct s as [|c s]; [discriminate|]. cbn [strip_prefix_ci] in H.
    destruct (Py.eqb_ci p c); [|discriminate].
    apply Forall_cons_iff in Hs as [_ Hs]. apply (IH s r); assumption.
Qed.

Lemma rest_of_line_plain (s : str) :
  plain_line s -> rest_of_line s = Some s.
Proof.
  intros Hs. unfold rest_of_line.
  assert (Hnl : forall c, In c s -> Ascii.eqb Py.nl c = false).
  { intros c Hc. apply Ascii.eqb_neq. intros Heq. subst c.
    pose proof (proj1 (Forall_forall _ _) Hs _ Hc) as H.
    unfold plain_char in H. rewrite islinebreak_nl in H. discriminate. }
  assert (Hend : Py.endswith_char Py.nl s = false).
  { unfold Py.endswith_char. destruct (rev s) as [|c r] eqn:Hrev;
      [reflexivity|].
    rewrite Ascii.eqb_sym. apply Hnl. apply in_rev. rewrite Hrev. left.
    reflexivity. }
  rewrite Hend.
  replace (existsb (Ascii.eqb Py.nl) s) with false; [reflexivity|].
  symmetry. clear Hend Hs. induction s as [|c s IH]; [reflexivity|].
  cbn [existsb]. rewrite (Hnl c) by (left; reflexivity).
  apply IH. intros c' Hc'. apply Hnl. right. assumption.
Qed.

Lemma space_not_digit (c : ascii) :
  Py.isspace c = true -> Py.isdigit c = false.
Proof.
  unfold Py.isspace, Py.isdigit, Py.between. generalize (Py.code c).
  intros n H.
  apply Bool.orb_true_iff in H.
  apply Bool.andb_false_iff.
  destruct H as [H|H]; apply Bool.andb_true_iff in H as [H1 H2];
    apply Nat.leb_le in H1, H2; left; apply Nat.leb_gt; lia.
Qed.

Lemma colon_not_digit : Py.isdigit Py.colon = false.
Proof. reflexivity. Qed.

Lemma one_is_digit : Py.isdigit "1" = true.
Proof. reflexivity. Qed.

(** What stands before a colon after optional blanks holds no digit. *)
Lemma before_colon_no_digit (r1 r2 : str) :
  Py.dropwhile Py.isspace r1 = Py.colon :: r2 ->
  Py.takewhile Py.isdigit r1 = [] /\ Py.dropwhile Py.isdigit r1 = r1.
Proof.
  intros H. destruct r1 as [|c r1]; [discriminate|].
  cbn [Py.dropwhile] in H. cbn [Py.takewhile Py.dropwhile].
  destruct (Py.isspace c) eqn:Hc.
  - rewrite (space_not_digit _ Hc). split; reflexivity.
  - inversion H; subst. rewrite colon_not_digit. split; reflexivity.
Qed.

(** A line that opens exhibit 1 is a marker line of the exhibit parser,
    with the number 1. *)
Lemma ex1_opens_exhibit_one (line : str) :
  plain_line line ->
  pattern_ex1_match line = true ->
  exists start_text,
    exhibit_pattern_match line = Some (("1" : str), start_text).
Proof.
  intros Hplain. unfold pattern_ex1_match, exhibit_pattern_match.
  destruct (strip_prefix_ci "EXHIBIT" (Py.dropwhile Py.isspace line))
    as [r|] eqn:Hr; [|discriminate].
  assert (Hpr : plain_line r).
  { apply (@strip_prefix_forall plain_char _ _ _ Hr).
    apply dropwhile_forall. assumption. }
  destruct (Py.isempty (Py.takewhile Py.isspace r)); [discriminate|].
  pose proof (@dropwhile_forall plain_char Py.isspace r Hpr) as Hpr1.
  destruct (Py.dropwhile Py.isspace r) as [|c r1]; [discriminate|].
  destruct (Ascii.eqb c "1") eqn:Hc; [|discriminate].
  apply Ascii.eqb_eq in Hc. subst c.
  apply Forall_cons_iff in Hpr1 as [_ Hpr1].
  pose proof (@dropwhile_forall plain_char Py.isspace r1 Hpr1) as Hpr2.
  destruct (Py.dropwhile Py.isspace r1) as [|c2 r2] eqn:Hr2; [discriminate|].
  intros Hc2. apply Ascii.eqb_eq in Hc2. subst c2.
  apply Forall_cons_iff in Hpr2 as [_ Hpr2].
  destruct (before_colon_no_digit _ Hr2) as [Htake Hdrop].
  cbn [Py.takewhile Py.dropwhile]. rewrite one_is_digit, Htake, Hdrop, Hr2.
  cbn [Py.isempty]. rewrite Ascii.eqb_refl.
  rewrite (rest_of_line_plain (dropwhile_forall Py.isspace Hpr2)).
  eexists. reflexivity.
Qed.

(** The state of the exhibit parser once exhibit 1 has been opened: it is
    still open and nothing is stored, or it is stored first. *)
Definition one_first (st : exhibit_state) : Prop :=
  (exhibits st = [] /\ seen_exhibits st = []
   /\ current_exhibit_number st = Some ("1" : str))
  \/ exists content rest, exhibits st = (("1" : str), content) :: rest.

Lemma od_set_head {V : Type} (k k0 : str) (v v0 : V) (od : odict V) :
  exists v' od', od_set k v ((k0, v0) :: od) = (k0, v') :: od'.
Proof.
  cbn [od_set]. destruct (Py.str_eqb k k0) eqn:E.
  - apply str_eqb_eq in E. subst k0. eauto.
  - eauto.
Qed.

Lemma close_one_first (st : exhibit_state) :
  one_first st ->
  exists content rest,
    fst (close_exhibit st) = (("1" : str), content) :: rest.
Proof.
  intros [[Hex [Hseen Hcur]]|[content [rest Hex]]]; unfold close_exhibit.
  - rewrite Hcur, Hseen, Hex. cbn. eauto.
  - rewrite Hex. destruct (current_exhibit_number st) as [k|]; [|cbn; eauto].
    destruct (negb (seen k (seen_exhibits st))); cbn [fst]; [|eauto].
    apply od_set_head.
Qed.

Lemma exhibit_step_one_first (st : exhibit_state) (line : str) :
  one_first st -> one_first (exhibit_step st line).
Proof.
  intros Hinv. unfold exhibit_step.
  destruct (exhibit_pattern_match line) as [[number start_text]|].
  - destruct (close_one_first Hinv) as [content [rest Hclose]].
    destruct (close_exhibit st) as [exhibits' seen'].
    cbn [fst] in Hclose. subst exhibits'.
    destruct (seen number seen'); right; cbn [exhibits]; eauto.
  - destruct Hinv as [[Hex [Hseen Hcur]]|[content [rest Hex]]].
    + rewrite Hcur. left. cbn. repeat split; assumption.
    + destruct (current_exhibit_number st); [|right; eauto].
      right. cbn [exhibits]. eauto.
Qed.

Lemma exhibit_fold_one_first (lines : list str) :
  forall st, one_first st -> one_first (fold_left exhibit_step lines st).
Proof.
  induction lines as [|l ls IH]; intros st Hst; [assumption|].
  cbn [fold_left]. apply IH. apply exhibit_step_one_first. assumption.
Qed.

Lemma pattern_ex1_nonempty (l : str) :
  pattern_ex1_match l = true -> l <> [].
Proof. intros H Hnil. subst l. discriminate. Qed.

(** X24 (main, separate_after_exhibit_1 with parse_exhibits_from_text):
    when some line of the input opens exhibit 1, the exhibits that main
    parses from the exhibits part are not empty and the first stored one
    has the number 1. *)
Theorem exhibits_start_at_one (full_text : str) :
  Exists (fun l => pattern_ex1_match l = true) (Py.splitlines full_text) ->
  exists content rest,
    parse_exhibits_from_text (snd (separate_after_exhibit_1 full_text))
    = (("1" : str), content) :: rest.
Proof.
  intros Hex. rewrite separate_is_break. cbn [snd].
  destruct (break_at_ex1_facts (Py.splitlines full_text)) as [Happ [_ Hhd]].
  pose proof (@splitlines_plain full_text false [] (Forall_nil _)) as Hplain.
  fold (Py.splitlines full_text) in Hplain.
  destruct (snd (break_at_ex1 (Py.splitlines full_text))) as [|l ls].
  - exfalso. apply Exists_exists in Hex as [l [Hin Hl]].
    pose proof (proj1 (Forall_forall _ _) Hhd _ Hin) as Hno.
    cbv beta in Hno. rewrite Hl in Hno. discriminate.
  - assert (Hl : plain_line l).
    { apply (proj1 (Forall_forall _ _) Hplain). rewrite <- Happ.
      apply in_or_app. right. left. reflexivity. }
    destruct (@splitlines_join_first l ls Hl (@pattern_ex1_nonempty l Hhd))
      as [rest Hsplit].
    destruct (ex1_opens_exhibit_one Hl Hhd) as [start_text Hmatch].
    unfold parse_exhibits_from_text. rewrite Hsplit. cbn [fold_left].
    apply close_one_first. apply exhibit_fold_one_first.
    left. unfold exhibit_step. rewrite Hmatch. cbn. repeat split.
Qed.

Lemma exhibits_start_at_one_witness :
  exists content rest,
    parse_exhibits_from_text
      (snd (separate_after_exhibit_1
              (Py.join [Py.nl]
                 [ ("EXHIBIT 7: early" : str); ("body" : str);
                   ("Exhibit 1: Lease" : str); ("EXHIBIT 3: Map" : str) ])))
    = (("1" : str), content) :: rest.
Proof.
  apply (@exhibits_start_at_one
           (Py.join [Py.nl]
              [ ("EXHIBIT 7: early" : str); ("body" : str);
                ("Exhibit 1: Lease" : str); ("EXHIBIT 3: Map" : str) ])).
  vm_compute. right. right. left. reflexivity.
Defined.

(** X25 (main, separate_after_exhibit_1 with parse_exhibits_from_text):
    when no line of the input opens exhibit 1, main parses no exhibit at
    all, whatever other exhibit markers the text holds, and the whole text
    is main part. *)
Theorem no_exhibit_without_exhibit_1 (full_text : str) :
  Forall (fun l => pattern_ex1_match l = false) (Py.splitlines full_text) ->
  parse_exhibits_from_text (snd (separate_after_exhibit_1 full_text)) = []
  /\ fst (separate_after_exhibit_1 full_text)
     = Py.join [Py.nl] (Py.splitlines full_text).
Proof.
  intros Hno. rewrite separate_is_break. cbn [fst snd].
  destruct (break_at_ex1_facts (Py.splitlines full_text)) as [Happ [_ Hhd]].
  destruct (snd (break_at_ex1 (Py.splitlines full_text))) as [|l ls] eqn:Hs.
  - rewrite app_nil_r in Happ. rewrite Happ. split; reflexivity.
  - exfalso.
    assert (Hin : In l (Py.splitlines full_text)).
    { rewrite <- Happ. apply in_or_app. right. left. reflexivity. }
    pose proof (proj1 (Forall_forall _ _) Hno _ Hin) as Hl.
    cbv beta in Hl. rewrite Hhd in Hl. discriminate.
Qed.

Lemma no_exhibit_without_exhibit_1_witness :
  parse_exhibits_from_text
    (snd (separate_after_exhibit_1
            (Py.join [Py.nl]
               [ ("Complaint" : str); ("EXHIBIT 2: Map" : str);
                 ("EXHIBIT 10: Deed" : str) ])))
  = []
  /\ fst (separate_after_exhibit_1
            (Py.join [Py.nl]
               [ ("Complaint" : str); ("EXHIBIT 2: Map" : str);
                 ("EXHIBIT 10: Deed" : str) ]))
     = Py.join [Py.nl]
         (Py.splitlines
            (Py.join [Py.nl]
               [ ("Complaint" : str); ("EXHIBIT 2: Map" : str);
                 ("EXHIBIT 10: Deed" : str) ])).
Proof.
  apply (@no_exhibit_without_exhibit_1
           (Py.join [Py.nl]
              [ ("Complaint" : str); ("EXHIBIT 2: Map" : str);
                ("EXHIBIT 10: Deed" : str) ])).
  vm_compute. repeat constructor.
Defined.

(** ** The segments of the main text *)

(** The texts of the segments flagged as heading or subheading, with the
    subheading flag. *)
Definition flagged_texts (segs : list segment) : list (str * bool) :=
  flat_map
    (fun seg =>
       match seg with
       | TextLine text _ _ _ is_heading is_subheading =>
           if is_heading || is_subheading then [(text, is_subheading)]
           else []
       | _ => []
       end)
    segs.

Lemma flagged_texts_app (a b : list segment) :
  flagged_texts (a ++ b) = flagged_texts a ++ flagged_texts b.
Proof. apply flat_map_app. Qed.

Section SegmentFacts.
Variable stringWidth : str -> str -> nat -> Q.
Variable max_text_width : Q.

Local Abbreviation flush_header :=
  (flush_normal_buffer stringWidth max_text_width).
Local Abbreviation flush_body :=
  (flush_section_buffer stringWidth max_text_width).

(** What the loop over the scanned items appends, from a buffer. *)
Fixpoint items_out (flush : list str -> list segment)
  (delimiter_font_size : nat) (buffer : list str) (items : list scan_item)
  : list segment :=
  match items with
  | [] => flush buffer
  | legal_page_title_block block_lines :: items' =>
      flush buffer ++ [ForcedTitleBlock (map Py.strip block_lines)]
      ++ items_out flush delimiter_font_size [] items'
  | delimiter_line _ :: items' =>
      flush buffer ++ [Delimiter "Helvetica" delimiter_font_size]
      ++ items_out flush delimiter_font_size [] items'
  | normal_line line :: items' =>
      items_out flush delimiter_font_size (buffer ++ [line]) items'
  end.

Lemma items_segments_out (flush : list str -> list segment)
  (delimiter_font_size : nat) (items : list scan_item) :
  forall segments buffer,
    (let '(segments', buffer') :=
       fold_left (item_step flush delimiter_font_size) items
         (segments, buffer) in
     segments' ++ flush buffer')
    = segments ++ items_out flush delimiter_font_size buffer items.
Proof.
  induction items as [|item items IH]; intros segments buffer;
    [reflexivity|].
  cbn [fold_left item_step items_out].
  destruct item as [block_lines|l|l]; rewrite IH, <- ?app_assoc;
    reflexivity.
Qed.

Lemma items_out_unflagged (flush : list str -> list segment)
  (delimiter_font_size : nat) (items : list scan_item) :
  (forall buffer, flagged_texts (flush buffer) = []) ->
  forall buffer,
    flagged_texts (items_out flush delimiter_font_size buffer items) = [].
Proof.
  intros Hflush.
  induction items as [|item items IH]; intros buffer; cbn [items_out];
    [apply Hflush|].
  destruct item as [block_lines|l|l];
    rewrite ?flagged_texts_app, ?Hflush, ?IH; reflexivity.
Qed.

Lemma items_out_blocks (flush : list str -> list segment)
  (delimiter_font_size : nat) (items : list scan_item) :
  (forall buffer, filter page_always_new (flush buffer) = []) ->
  forall buffer,
    length
      (filter page_always_new
         (items_out flush delimiter_font_size buffer items))
    = length (filter is_block items).
Proof.
  intros Hflush.
  induction items as [|item items IH]; intros buffer; cbn [items_out].
  - rewrite Hflush. reflexivity.
  - destruct item as [block_lines|l|l];
      rewrite ?filter_app, ?length_app, ?Hflush, ?IH; reflexivity.
Qed.

Lemma unflagged_map {A : Type} (f : A -> segment) (l : list A) :
  (forall x, heading_flag (f x) = false /\ page_always_new (f x) = false) ->
  flagged_texts (map f l) = [] /\ filter page_always_new (map f l) = [].
Proof.
  intros Hf. induction l as [|x l [IH1 IH2]]; [split; reflexivity|].
  cbn [map]. destruct (Hf x) as [Hflag Hnew].
  split.
  - change (f x :: map f l) with ([f x] ++ map f l).
    rewrite flagged_texts_app, IH1, app_nil_r.
    destruct (f x) as [text fn fs al h sh| |]; try reflexivity.
    cbn in Hflag. cbn. rewrite Hflag. reflexivity.
  - cbn [filter]. rewrite Hnew. exact IH2.
Qed.

Lemma flush_header_plain (buffer : list str) :
  flagged_texts (flush_header buffer) = []
  /\ filter page_always_new (flush_header buffer) = [].
Proof.
  unfold flush_normal_buffer.
  induction buffer as [|l buffer [IH1 IH2]]; [split; reflexivity|].
  cbn [flat_map]. rewrite flagged_texts_app, filter_app, IH1, IH2.
  rewrite !app_nil_r.
  destruct (Py.isempty (Py.strip l)); [split; reflexivity|].
  destruct (is_line_all_caps (Py.strip l)); apply unflagged_map; intros w;
    destruct (is_exhibit_reference (Py.strip l)); split; reflexivity.
Qed.

Lemma flush_body_plain (font_name : str) (font_size : nat)
  (buffer : list str) :
  flagged_texts (flush_body font_name font_size buffer) = []
  /\ filter page_always_new (flush_body font_name font_size buffer) = [].
Proof.
  unfold flush_section_buffer.
  induction buffer as [|l buffer [IH1 IH2]]; [split; reflexivity|].
  cbn [flat_map]. rewrite flagged_texts_app, filter_app, IH1, IH2.
  rewrite !app_nil_r.
  destruct (Py.isempty (Py.strip l)); [split; reflexivity|].
  apply unflagged_map; intros w;
    destruct (is_exhibit_reference (Py.strip l)); split; reflexivity.
Qed.

(** [heading_styles.get(section_key, "section")] is the subsection
    style. *)
Definition is_subsection (heading_styles : odict heading_style)
  (section_key : str) : bool :=
  match od_get section_key heading_styles with
  | Some subsection_style => true
  | _ => false
  end.

(** The font in which a heading is wrapped and drawn: bold for a section
    and for a key that refers to an exhibit. *)
Definition heading_font (heading_styles : odict heading_style)
  (section_key : str) : str * nat :=
  (if is_exhibit_reference section_key
      || negb (is_subsection heading_styles section_key)
   then ("Helvetica-Bold" : str) else ("Helvetica" : str),
   if is_subsection heading_styles section_key then 9 else 10).

(** The wrapped lines of a section key, with the subheading flag. *)
Definition heading_lines (heading_styles : odict heading_style)
  (section_key : str) : list (str * bool) :=
  map (fun w => (fst w, is_subsection heading_styles section_key))
    (wrap_text_to_lines stringWidth
       (fst (heading_font heading_styles section_key))
       (snd (heading_font heading_styles section_key))
       max_text_width section_key).

Lemma flagged_heading_segments (font_name : str) (font_size : nat)
  (h sh : bool) (wrapped : list (str * bool)) :
  h || sh = true ->
  flagged_texts
    (map (fun w => TextLine (fst w) font_name font_size AlignCenter h sh)
       wrapped)
  = map (fun w => (fst w, sh)) wrapped
  /\ filter page_always_new
       (map (fun w => TextLine (fst w) font_name font_size AlignCenter h sh)
          wrapped)
     = [].
Proof.
  intros Hflag. induction wrapped as [|w wrapped [IH1 IH2]];
    [split; reflexivity|].
  cbn [map]. split.
  - change (flagged_texts
              (TextLine (fst w) font_name font_size AlignCenter h sh
               :: map (fun w0 =>
                         TextLine (fst w0) font_name font_size AlignCenter
                           h sh) wrapped))
      with ((if h || sh then [(fst w, sh)] else [])
            ++ flagged_texts
                 (map (fun w0 =>
                         TextLine (fst w0) font_name font_size AlignCenter
                           h sh) wrapped)).
    rewrite Hflag, IH1. reflexivity.
  - cbn [filter page_always_new]. exact IH2.
Qed.

(** One section: the segments it appends carry its wrapped key as the
    only flagged lines, and one title block for every pair of rules of
    equals signs in its body. *)
Lemma section_segments_facts (fuel : nat)
  (heading_styles : odict heading_style) (segments : list segment)
  (section_key section_body : str) :
  length (Py.splitlines section_body) < fuel ->
  exists added,
    section_segments stringWidth max_text_width fuel heading_styles
      segments (section_key, section_body)
    = Some (segments ++ added)
    /\ flagged_texts added = heading_lines heading_styles section_key
    /\ length (filter page_always_new added)
       = count_equals (Py.splitlines section_body) / 2.
Proof.
  intros Hfuel. unfold section_segments.
  rewrite (detect_is_scan_pass _ Hfuel).
  unfold items_segments, heading_lines, heading_font, is_subsection.
  destruct (scan_pass_counts (Py.splitlines section_body) None I)
    as [Hblocks _].
  cbn zeta in Hblocks. rewrite Nat.add_0_l in Hblocks.
  destruct (od_get section_key heading_styles) as [[|]|];
    destruct (is_exhibit_reference section_key);
    rewrite items_segments_out, <- !app_assoc;
    (eexists; split; [reflexivity|]);
    rewrite !flagged_texts_app, !filter_app, !length_app;
    rewrite (items_out_unflagged _ _ _
               (fun b => proj1 (flush_body_plain _ _ b)));
    rewrite (items_out_blocks _ _ _
               (fun b => proj2 (flush_body_plain _ _ b)));
    rewrite Hblocks, app_nil_r;
    match goal with
    | |- context [map (fun w => TextLine (fst w) ?fn ?fs AlignCenter ?h ?sh)
                    ?wrapped] =>
        destruct (@flagged_heading_segments fn fs h sh wrapped eq_refl)
          as [Hflag Hnone]; rewrite Hflag, Hnone
    end;
    split; reflexivity.
Qed.

Lemma sections_fold_facts (fuel : nat)
  (heading_styles : odict heading_style) (sections_od : odict str) :
  Forall (fun s => length (Py.splitlines (snd s)) < fuel) sections_od ->
  forall segments,
    exists added,
      fold_left
        (fun acc section =>
           match acc with
           | None => None
           | Some segments' =>
               section_segments stringWidth max_text_width fuel
                 heading_styles segments' section
           end)
        sections_od (Some segments)
      = Some (segments ++ added)
      /\ flagged_texts added
         = flat_map (fun s => heading_lines heading_styles (fst s))
             sections_od
      /\ length (filter page_always_new added)
         = list_sum
             (map (fun s => count_equals (Py.splitlines (snd s)) / 2)
                sections_od).
Proof.
  induction 1 as [|[key body] sections Hs Hall IH]; intros segments.
  - exists []. rewrite app_nil_r. repeat split.
  - cbn [snd] in Hs.
    destruct (@section_segments_facts fuel heading_styles segments key body
                Hs) as [added1 [Hrun1 [Hflag1 Hblocks1]]].
    destruct (IH (segments ++ added1)) as [added2 [Hrun2 [Hflag2 Hblocks2]]].
    exists (added1 ++ added2). cbn [fold_left]. rewrite Hrun1, Hrun2.
    rewrite <- app_assoc. split; [reflexivity|].
    rewrite flagged_texts_app, filter_app, length_app.
    rewrite Hflag1, Hflag2, Hblocks1, Hblocks2.
    split; reflexivity.
Qed.

(** The whole builder. *)
Lemma prepare_facts (fuel : nat) (header_text : str)
  (sections_od : odict str) (heading_styles : odict heading_style) :
  length (Py.splitlines header_text) < fuel ->
  Forall (fun s => length (Py.splitlines (snd s)) < fuel) sections_od ->
  exists segments,
    prepare_main_pdf_segments stringWidth max_text_width fuel header_text
      sections_od heading_styles
    = Some segments
    /\ flagged_texts segments
       = flat_map (fun s => heading_lines heading_styles (fst s))
           sections_od
    /\ length (filter page_always_new segments)
       = count_equals (Py.splitlines header_text) / 2
         + list_sum
             (map (fun s => count_equals (Py.splitlines (snd s)) / 2)
                sections_od).
Proof.
  intros Hheader Hbodies. unfold prepare_main_pdf_segments.
  rewrite (detect_is_scan_pass _ Hheader).
  destruct (@sections_fold_facts fuel heading_styles sections_od Hbodies
              (items_segments flush_header 10 []
                 (scan_pass None (Py.splitlines header_text))))
    as [added [Hrun [Hflag Hblocks]]].
  eexists. split; [exact Hrun|].
  unfold items_segments. rewrite items_segments_out. cbn [app].
  rewrite flagged_texts_app, filter_app, length_app, Hflag, Hblocks.
  rewrite (items_out_unflagged _ _ _
             (fun b => proj1 (flush_header_plain b))).
  rewrite (items_out_blocks _ _ _
             (fun b => proj2 (flush_header_plain b))).
  destruct (scan_pass_counts (Py.splitlines header_text) None I)
    as [Hcount _].
  cbn zeta in Hcount. rewrite Nat.add_0_l in Hcount. rewrite Hcount.
  split; reflexivity.
Qed.

End SegmentFacts.

(** X26 (prepare_main_pdf_segments): the builder ends on every header and
    every set of sections, and the segments it flags as heading or
    subheading are exactly the wrapped lines of the section keys, in the
    order of the sections, flagged as subheading exactly for the keys whose
    style is subsection; no line of the header or of a body is flagged. *)
Theorem flagged_segments_are_headings
  (stringWidth : str -> str -> nat -> Q) (max_text_width : Q) (fuel : nat)
  (header_text : str) (sections_od : odict str)
  (heading_styles : odict heading_style) :
  length (Py.splitlines header_text) < fuel ->
  Forall (fun s => length (Py.splitlines (snd s)) < fuel) sections_od ->
  exists segments,
    prepare_main_pdf_segments stringWidth max_text_width fuel header_text
      sections_od heading_styles
    = Some segments
    /\ flagged_texts segments
       = flat_map
           (fun s =>
              heading_lines stringWidth max_text_width heading_styles
                (fst s))
           sections_od.
Proof.
  intros Hheader Hbodies.
  destruct (@prepare_facts stringWidth max_text_width fuel header_text
              sections_od heading_styles Hheader Hbodies)
    as [segments [Hrun [Hflag _]]].
  exists segments. split; assumption.
Qed.

Lemma flagged_segments_are_headings_witness :
  exists segments,
    prepare_main_pdf_segments unit_width (inject_Z 40) 9
      (Py.join [Py.nl] [ ("SUPERIOR COURT" : str); ("Alice v. Bob" : str) ])
      [ (("I. PARTIES" : str),
         Py.join [Py.nl] [ ("Alice lives here." : str); ("=====" : str);
                           ("NOTICE" : str); ("=====" : str) ]);
        (("1. Plaintiff" : str), ("See EXHIBIT 1: lease." : str)) ]
      [ (("I. PARTIES" : str), section_style);
        (("1. Plaintiff" : str), subsection_style) ]
    = Some segments
    /\ flagged_texts segments
       = flat_map
           (fun s =>
              heading_lines unit_width (inject_Z 40)
                [ (("I. PARTIES" : str), section_style);
                  (("1. Plaintiff" : str), subsection_style) ]
                (fst s))
           [ (("I. PARTIES" : str),
              Py.join [Py.nl] [ ("Alice lives here." : str); ("=====" : str);
                                ("NOTICE" : str); ("=====" : str) ]);
             (("1. Plaintiff" : str), ("See EXHIBIT 1: lease." : str)) ].
Proof.
  apply (@flagged_segments_are_headings unit_width (inject_Z 40) 9
           (Py.join [Py.nl]
              [ ("SUPERIOR COURT" : str); ("Alice v. Bob" : str) ])
           [ (("I. PARTIES" : str),
              Py.join [Py.nl] [ ("Alice lives here." : str); ("=====" : str);
                                ("NOTICE" : str); ("=====" : str) ]);
             (("1. Plaintiff" : str), ("See EXHIBIT 1: lease." : str)) ]
           [ (("I. PARTIES" : str), section_style);
             (("1. Plaintiff" : str), subsection_style) ]).
  - vm_compute. lia.
  - repeat constructor; vm_compute; lia.
Defined.

(** X27 (prepare_main_pdf_segments, detect_legal_title_blocks): the
    builder emits one forced title block segment for every two rules of
    equals signs of the header, and of each section body taken on its own;
    rules are never paired across the header and a body or across two
    bodies. *)
Theorem title_block_segments_counted
  (stringWidth : str -> str -> nat -> Q) (max_text_width : Q) (fuel : nat)
  (header_text : str) (sections_od : odict str)
  (heading_styles : odict heading_style) :
  length (Py.splitlines header_text) < fuel ->
  Forall (fun s => length (Py.splitlines (snd s)) < fuel) sections_od ->
  exists segments,
    prepare_main_pdf_segments stringWidth max_text_width fuel header_text
      sections_od heading_styles
    = Some segments
    /\ length (filter page_always_new segments)
       = count_equals (Py.splitlines header_text) / 2
         + list_sum
             (map (fun s => count_equals (Py.splitlines (snd s)) / 2)
                sections_od).
Proof.
  intros Hheader Hbodies.
  destruct (@prepare_facts stringWidth max_text_width fuel header_text
              sections_od heading_styles Hheader Hbodies)
    as [segments [Hrun [_ Hblocks]]].
  exists segments. split; assumption.
Qed.

Lemma title_block_segments_counted_witness :
  exists segments,
    prepare_main_pdf_segments unit_width (inject_Z 40) 9
      (Py.join [Py.nl] [ ("SUPERIOR COURT" : str); ("=====" : str) ])
      [ (("I. PARTIES" : str),
         Py.join [Py.nl] [ ("Alice lives here." : str); ("=====" : str);
                           ("NOTICE" : str); ("=====" : str) ]);
        (("1. Plaintiff" : str), ("=====" : str)) ]
      [ (("I. PARTIES" : str), section_style);
        (("1. Plaintiff" : str), subsection_style) ]
    = Some segments
    /\ length (filter page_always_new segments)
       = count_equals
           (Py.splitlines
              (Py.join [Py.nl] [ ("SUPERIOR COURT" : str); ("=====" : str) ]))
         / 2
         + list_sum
             (map (fun s => count_equals (Py.splitlines (snd s)) / 2)
                [ (("I. PARTIES" : str),
                   Py.join [Py.nl]
                     [ ("Alice lives here." : str); ("=====" : str);
                       ("NOTICE" : str); ("=====" : str) ]);
                  (("1. Plaintiff" : str), ("=====" : str)) ]).
Proof.
  apply (@title_block_segments_counted unit_width (inject_Z 40) 9
           (Py.join [Py.nl] [ ("SUPERIOR COURT" : str); ("=====" : str) ])
           [ (("I. PARTIES" : str),
              Py.join [Py.nl] [ ("Alice lives here." : str); ("=====" : str);
                                ("NOTICE" : str); ("=====" : str) ]);
             (("1. Plaintiff" : str), ("=====" : str)) ]
           [ (("I. PARTIES" : str), section_style);
             (("1. Plaintiff" : str), subsection_style) ]).
  - vm_compute. lia.
  - repeat constructor; vm_compute; lia.
Defined.

(** The text and the subheading flag of a recorded heading. *)
Definition heading_entry (h : heading_position) : str * bool :=
  let '(text, _, _, is_sub) := h in (text, is_sub).

Lemma flagged_from_texts (segs : list segment) :
  forall i,
    map (fun e : str * nat * bool => (fst (fst e), snd e))
      (flagged_from i segs)
    = flagged_texts segs.
Proof.
  induction segs as [|s segs IH]; intros i; [reflexivity|].
  change (s :: segs) with ([s] ++ segs) at 2.
  rewrite flagged_texts_app. cbn [flagged_from].
  destruct s as [text fn fs al h sh| |]; cbn [flagged_texts flat_map app];
    try apply IH.
  destruct (h || sh); cbn [map fst snd app]; rewrite IH; reflexivity.
Qed.

Lemma heading_entry_unpaged (hp : list heading_position) :
  map heading_entry hp
  = map (fun e : str * nat * bool => (fst (fst e), snd e)) (map unpaged hp).
Proof.
  rewrite map_map. apply map_ext. intros [[[text pg] ln] is_sub].
  reflexivity.
Qed.

(** The document on a segment sequence records the flagged segments. *)
Lemma document_headings (segments : list segment)
  (max_lines_per_page fuel n_exhibits : nat) :
  0 < max_lines_per_page ->
  length segments < fuel ->
  exists (text_pages : nat) (st : place_state),
    generate_legal_document segments max_lines_per_page fuel n_exhibits []
    = Some (text_pages, st)
    /\ map heading_entry (headings st) = flagged_texts segments.
Proof.
  intros Hmax Hfuel. unfold generate_legal_document, estimate_text_pages.
  destruct (@loops_agree segments max_lines_per_page Hmax 0
              (length segments) (mkPlaceState 1 0 [] []) 0 fuel fuel)
    as [k [st0 [Hest _]]]; simpl; try lia.
  simpl in Hest. rewrite Hest.
  set (t := k + n_exhibits * 2).
  destruct (@place_loop_rule segments max_lines_per_page Hmax t
              (headings_complete segments [])
              (fun st HI _ => @headings_complete_next segments []
                                max_lines_per_page t st HI)
              (length segments) (mkPlaceState 1 0 [] []) fuel fuel)
    as [st [Hrun [[_ Hmap] Hidx]]]; simpl; try lia.
  { split; simpl; [lia|reflexivity]. }
  unfold place_segments. rewrite Hrun.
  exists k, st. split; [reflexivity|].
  rewrite heading_entry_unpaged, Hmap, Hidx, firstn_all.
  apply flagged_from_texts.
Qed.

(** X28 (prepare_main_pdf_segments with generate_legal_document): the
    heading coordinates that the document records for the table of
    contents, taken on the segments of the builder, are the wrapped lines
    of the section keys in the order of the sections, each with the
    subheading flag of its style; nothing of the header or of a body
    reaches the table of contents. *)
Theorem toc_entries_are_section_keys
  (stringWidth : str -> str -> nat -> Q) (max_text_width : Q)
  (max_lines_per_page fuel n_exhibits : nat)
  (header_text : str) (sections_od : odict str)
  (heading_styles : odict heading_style) :
  0 < max_lines_per_page ->
  length (Py.splitlines header_text) < fuel ->
  Forall (fun s => length (Py.splitlines (snd s)) < fuel) sections_od ->
  exists segments,
    prepare_main_pdf_segments stringWidth max_text_width fuel header_text
      sections_od heading_styles
    = Some segments
    /\ exists (text_pages : nat) (st : place_state),
        generate_legal_document segments max_lines_per_page
          (S (length segments)) n_exhibits []
        = Some (text_pages, st)
        /\ map heading_entry (headings st)
           = flat_map
               (fun s =>
                  heading_lines stringWidth max_text_width heading_styles
                    (fst s))
               sections_od.
Proof.
  intros Hmax Hheader Hbodies.
  destruct (@prepare_facts stringWidth max_text_width fuel header_text
              sections_od heading_styles Hheader Hbodies)
    as [segments [Hrun [Hflag _]]].
  exists segments. split; [assumption|].
  destruct (@document_headings segments max_lines_per_page
              (S (length segments)) n_exhibits Hmax (Nat.lt_succ_diag_r _))
    as [text_pages [st [Hdoc Hheads]]].
  exists text_pages, st. split; [assumption|].
  rewrite Hheads. assumption.
Qed.

Lemma toc_entries_are_section_keys_witness :
  exists segments,
    prepare_main_pdf_segments unit_width (inject_Z 40) 9
      (Py.join [Py.nl] [ ("SUPERIOR COURT" : str); ("Alice v. Bob" : str) ])
      [ (("I. PARTIES" : str),
         Py.join [Py.nl] [ ("Alice lives here." : str); ("=====" : str);
                           ("NOTICE" : str); ("=====" : str) ]);
        (("1. Plaintiff" : str), ("See EXHIBIT 1: lease." : str)) ]
      [ (("I. PARTIES" : str), section_style);
        (("1. Plaintiff" : str), subsection_style) ]
    = Some segments
    /\ exists (text_pages : nat) (st : place_state),
        generate_legal_document segments 3 (S (length segments)) 1 []
        = Some (text_pages, st)
        /\ map heading_entry (headings st)
           = flat_map
               (fun s =>
                  heading_lines unit_width (inject_Z 40)
                    [ (("I. PARTIES" : str), section_style);
                      (("1. Plaintiff" : str), subsection_style) ]
                    (fst s))
               [ (("I. PARTIES" : str),
                  Py.join [Py.nl]
                    [ ("Alice lives here." : str); ("=====" : str);
                      ("NOTICE" : str); ("=====" : str) ]);
                 (("1. Plaintiff" : str), ("See EXHIBIT 1: lease." : str)) ].
Proof.
  apply (@toc_entries_are_section_keys unit_width (inject_Z 40) 3 9 1
           (Py.join [Py.nl]
              [ ("SUPERIOR COURT" : str); ("Alice v. Bob" : str) ])
           [ (("I. PARTIES" : str),
              Py.join [Py.nl] [ ("Alice lives here." : str); ("=====" : str);
                                ("NOTICE" : str); ("=====" : str) ]);
             (("1. Plaintiff" : str), ("See EXHIBIT 1: lease." : str)) ]
           [ (("I. PARTIES" : str), section_style);
             (("1. Plaintiff" : str), subsection_style) ]).
  - lia.
  - vm_compute. lia.
  - repeat constructor; vm_compute; lia.
Defined.

(** ** The image paths of the exhibits *)

(** The entry of an exhibit after one image has been offered to the
    exhibit at position [j]. *)
Definition offered (j : nat) (ex_image : str) (k : nat) (e : exhibit_entry)
  : exhibit_entry :=
  if k =? j then mkExhibit (caption e) ex_image else e.

Lemma attach_one (ex_image : str) (od : odict exhibit_entry) :
  forall (s n j : nat),
    od_keys od = map Py.str_of_nat (seq s n) ->
    od_keys
      (match od_get (Py.str_of_nat (s + j)) od with
       | Some e =>
           od_set (Py.str_of_nat (s + j)) (mkExhibit (caption e) ex_image) od
       | None => od
       end)
    = od_keys od
    /\ forall k key e,
        nth_error od k = Some (key, e) ->
        nth_error
          (match od_get (Py.str_of_nat (s + j)) od with
           | Some e' =>
               od_set (Py.str_of_nat (s + j))
                 (mkExhibit (caption e') ex_image) od
           | None => od
           end) k
        = Some (key, offered j ex_image k e).
Proof.
  induction od as [|[k0 e0] od IH]; intros s n j Hkeys.
  - split; [reflexivity|]. intros [|k] key e H; discriminate.
  - destruct n as [|n]; [discriminate|].
    cbn [od_keys map seq] in Hkeys. inversion Hkeys as [[Hk0 Hrest]].
    fold (od_keys od) in Hrest.
    cbn [od_get].
    destruct j as [|j].
    + rewrite Nat.add_0_r.
      rewrite (proj2 (str_eqb_eq _ _) eq_refl).
      cbn [od_set]. rewrite (proj2 (str_eqb_eq _ _) eq_refl).
      split; [reflexivity|].
      intros [|k] key e H; cbn [nth_error] in *.
      * inversion H; subst. reflexivity.
      * rewrite H. reflexivity.
    + assert (Hne : Py.str_eqb (Py.str_of_nat (s + S j)) (Py.str_of_nat s)
                    = false).
      { apply str_eqb_neq. intros Heq. apply str_of_nat_inj in Heq. lia. }
      rewrite Hne.
      destruct (IH (S s) n j Hrest) as [IHk IHp].
      replace (S s + j) with (s + S j) in IHk, IHp by lia.
      destruct (od_get (Py.str_of_nat (s + S j)) od) as [e'|].
      * cbn [od_set]. rewrite Hne. split.
        -- cbn [od_keys map fst]. fold (od_keys od).
           unfold od_keys in IHk. rewrite IHk. reflexivity.
        -- intros [|k] key e H; cbn [nth_error] in *.
           ++ inversion H; subst. reflexivity.
           ++ apply IHp. assumption.
      * split; [reflexivity|].
        intros [|k] key e H; cbn [nth_error] in *.
        -- inversion H; subst. reflexivity.
        -- apply IHp. assumption.
Qed.

(** The entry of an exhibit after the images have been offered, the first
    of them to the exhibit at position [j]. *)
Definition attached (j : nat) (images : list str) (k : nat)
  (e : exhibit_entry) : exhibit_entry :=
  if (j <=? k) && (k <? j + length images)
  then mkExhibit (caption e) (nth (k - j) images [])
  else e.

Lemma attach_fold (n : nat) (images : list str) :
  forall (j : nat) (od : odict exhibit_entry),
    od_keys od = map Py.str_of_nat (seq 1 n) ->
    od_keys (fst (fold_left attach_step images (od, 1 + j))) = od_keys od
    /\ forall k key e,
        nth_error od k = Some (key, e) ->
        nth_error (fst (fold_left attach_step images (od, 1 + j))) k
        = Some (key, attached j images k e).
Proof.
  induction images as [|img images IH]; intros j od Hkeys.
  - split; [reflexivity|]. intros k key e H. cbn [fold_left fst].
    rewrite H. unfold attached. cbn [length].
    destruct (j <=? k) eqn:E1; [|reflexivity].
    destruct (k <? j + 0) eqn:E2; [|reflexivity].
    apply Nat.leb_le in E1. apply Nat.ltb_lt in E2. lia.
  - cbn [fold_left attach_step].
    destruct (@attach_one img od 1 n j Hkeys) as [Hk1 Hp1].
    replace (1 + j + 1) with (1 + S j) by lia.
    destruct (IH (S j) _ (eq_trans Hk1 Hkeys)) as [Hk2 Hp2].
    split; [rewrite Hk2; exact Hk1|].
    intros k key e H.
    rewrite (Hp2 k key _ (Hp1 k key e H)).
    f_equal. f_equal. unfold attached, offered. cbn [length].
    destruct (Nat.eq_dec k j) as [Heq|Hne].
    + subst k. rewrite Nat.eqb_refl, Nat.sub_diag.
      replace (S j <=? j) with false by (symmetry; apply Nat.leb_gt; lia).
      replace (j <=? j) with true by (symmetry; apply Nat.leb_le; lia).
      replace (j <? j + S (length images)) with true
        by (symmetry; apply Nat.ltb_lt; lia).
      reflexivity.
    + replace (k =? j) with false by (symmetry; apply Nat.eqb_neq; lia).
      destruct (Nat.lt_ge_cases k j) as [Hlt|Hge].
      * replace (S j <=? k) with false by (symmetry; apply Nat.leb_gt; lia).
        replace (j <=? k) with false by (symmetry; apply Nat.leb_gt; lia).
        reflexivity.
      * replace (S j <=? k) with true by (symmetry; apply Nat.leb_le; lia).
        replace (j <=? k) with true by (symmetry; apply Nat.leb_le; lia).
        replace (k <? S j + length images)
          with (k <? j + S (length images)) by (f_equal; lia).
        replace (k - j) with (S (k - S j)) by lia.
        reflexivity.
Qed.

Lemma od_set_forall {V : Type} (P : str * V -> Prop) (k : str) (v : V)
  (od : odict V) :
  Forall P od -> P (k, v) -> Forall P (od_set k v od).
Proof.
  intros Hod Hkv. induction Hod as [|[k' v'] od Hx Hod IH]; cbn [od_set].
  - constructor; [assumption|constructor].
  - destruct (Py.str_eqb k k'); constructor; assumption.
Qed.

Lemma renumber_none (text_exhibits_od : odict str) (keys : list str) :
  fold_left (renumber_step text_exhibits_od) keys None = None.
Proof. induction keys as [|k keys IH]; [reflexivity|exact IH]. Qed.

Lemma renumber_paths (text_exhibits_od : odict str) (keys : list str) :
  forall out i out' i',
    fold_left (renumber_step text_exhibits_od) keys (Some (out, i))
    = Some (out', i') ->
    Forall (fun e => image_path (snd e) = []) out ->
    Forall (fun e => image_path (snd e) = []) out'.
Proof.
  induction keys as [|k keys IH]; intros out i out' i' Hfold Hout.
  - inversion Hfold; subst. assumption.
  - cbn [fold_left renumber_step] in Hfold.
    destruct (od_get k text_exhibits_od) as [text|].
    + apply (IH _ _ _ _ Hfold). apply od_set_forall; [assumption|].
      reflexivity.
    + rewrite renumber_none in Hfold. discriminate.
Qed.

Lemma keyed_some_inv {A : Type} (key : A -> option Z) (xs : list A) :
  forall decorated,
    keyed key xs = Some decorated -> Forall (fun x => key x <> None) xs.
Proof.
  induction xs as [|x xs IH]; intros dec H; [constructor|].
  cbn [keyed] in H. destruct (key x) as [z|] eqn:Hz; [|discriminate].
  destruct (keyed key xs) as [r|]; [|discriminate].
  constructor; [congruence|]. apply (IH r). reflexivity.
Qed.

(** A renumbering that ends without an exception gives the keys 1 to n
    and no image path. *)
Lemma renumber_shape (text_exhibits_od : odict str)
  (out : odict exhibit_entry) :
  renumber_exhibits text_exhibits_od = Some out ->
  od_keys out = map Py.str_of_nat (seq 1 (length text_exhibits_od))
  /\ Forall (fun e => image_path (snd e) = []) out.
Proof.
  intros Hrun.
  assert (Hall : Forall (fun k => Py.int k <> None)
                   (od_keys text_exhibits_od)).
  { pose proof Hrun as H. unfold renumber_exhibits, sorted_by in H.
    destruct (keyed Py.int (od_keys text_exhibits_od)) as [dec|] eqn:Hk;
      [|discriminate].
    apply (@keyed_some_inv str Py.int _ dec Hk). }
  destruct (renumber_sorted text_exhibits_od Hall)
    as [out0 [sorted [Hsort [Hrun0 [Hkeys _]]]]].
  rewrite Hrun in Hrun0. inversion Hrun0; subst out0.
  split; [assumption|].
  unfold renumber_exhibits in Hrun. rewrite Hsort in Hrun.
  destruct (fold_left (renumber_step text_exhibits_od) sorted
              (Some ([], 1))) as [[e n]|] eqn:Hfold; [|discriminate].
  inversion Hrun; subst e.
  apply (@renumber_paths _ _ _ _ _ _ Hfold). constructor.
Qed.

Lemma enumerate_nth {A : Type} (l : list A) :
  forall s k,
    nth_error (combine (seq s (length l)) l) k
    = option_map (fun x => (s + k, x)) (nth_error l k).
Proof.
  induction l as [|x l IH]; intros s k.
  - destruct k; reflexivity.
  - cbn [length seq combine]. destruct k as [|k]; cbn [nth_error].
    + rewrite Nat.add_0_r. reflexivity.
    + rewrite IH. replace (S s + k) with (s + S k) by lia. reflexivity.
Qed.

(** X29 (main, image paths with the renumbering): when the renumbering
    ends without an exception, the k-th image path given on the command
    line is attached to the k-th exhibit: the list handed to the PDF holds
    the captions in their renumbered order, each with the image path of the
    same position, an exhibit beyond the last image keeps the empty path,
    and an image beyond the last exhibit is dropped. *)
Theorem images_attached_in_order (text_exhibits_od : odict str)
  (images : list str) (out : odict exhibit_entry) :
  renumber_exhibits text_exhibits_od = Some out ->
  exhibits_for_pdf (attach_images out images)
  = map (fun p => (caption (snd (snd p)), nth (fst p) images []))
      (enumerate out).
Proof.
  intros Hrun.
  destruct (@renumber_shape text_exhibits_od out Hrun) as [Hkeys Hpaths].
  destruct (@attach_fold (length text_exhibits_od) images 0 out Hkeys)
    as [Hk Hp].
  unfold attach_images, exhibits_for_pdf, enumerate.
  change (1 + 0) with 1 in Hk, Hp.
  apply nth_error_ext. intros k.
  rewrite !nth_error_map, enumerate_nth.
  destruct (nth_error out k) as [[key e]|] eqn:Hnth.
  - rewrite (Hp k key e Hnth). cbn [option_map fst snd Nat.add].
    f_equal. unfold attached. rewrite Nat.sub_0_r. cbn [Nat.add].
    destruct (k <? length images) eqn:Hlt; cbn [Nat.leb andb];
      [reflexivity|].
    apply Nat.ltb_ge in Hlt. rewrite (nth_overflow images [] Hlt).
    apply nth_error_In in Hnth.
    pose proof (proj1 (Forall_forall _ _) Hpaths _ Hnth) as He.
    cbn [snd] in He. rewrite He. reflexivity.
  - cbn [option_map].
    assert (Hlen : length (fst (fold_left attach_step images (out, 1)))
                   = length out).
    { rewrite <- (length_map fst), <- (length_map fst out).
      exact (f_equal (@length _) Hk). }
    apply nth_error_None in Hnth.
    replace (nth_error (fst (fold_left attach_step images (out, 1))) k)
      with (@None (str * exhibit_entry))
      by (symmetry; apply nth_error_None; lia).
    reflexivity.
Qed.

Lemma images_attached_in_order_witness :
  exhibits_for_pdf
    (attach_images
       [ (("1" : str), mkExhibit "A" []); (("2" : str), mkExhibit "C" []);
         (("3" : str), mkExhibit "E" []) ]
       [ ("a.png" : str); ("c.png" : str) ])
  = [ (("A" : str), ("a.png" : str)); (("C" : str), ("c.png" : str));
      (("E" : str), ([] : str)) ].
Proof.
  apply (@images_attached_in_order
           [ (("3" : str), ("C" : str)); (("1" : str), ("A" : str));
             (("5" : str), ("E" : str)) ]
           [ ("a.png" : str); ("c.png" : str) ]
           [ (("1" : str), mkExhibit "A" []);
             (("2" : str), mkExhibit "C" []);
             (("3" : str), mkExhibit "E" []) ]).
  vm_compute. reflexivity.
Defined.
